(** * The ML-pipeline graph compiler ([utils/pipelineToCode.ts]), embedded in Rocq

    The development follows the TypeScript module function by function:
    [validatePipelineStructure], [topologicalSort], [getSimpleVarName],
    [nodeToCode], [generateImports], [generatePythonCode] and the two
    exporters, together with the cycle check of the editor page
    ([validatePipeline] in [LogicEditorPage.jsx]).

    Conventions of the embedding:
    - a JavaScript string is the list of bytes of its UTF-8 text;
    - a JavaScript [Map] is an association list kept in insertion order
      ([JsMap]), because [Map.prototype.forEach] iterates in that order;
    - a template literal is a list of lines, each a list of pieces: the
      literal chunks ([Lit]) and the interpolated values ([Sub]);
    - a thrown exception is the [Throw] outcome of a small writer/error
      monad whose log records which pipeline stage was entered;
    - builtins of the JavaScript host that the module calls but does not
      define (number printing and parsing, [localStorage], [btoa], the
      clock) are the fields of a [Host] record. *)

From Stdlib Require Import List String Ascii ZArith Lia Bool Arith Floats.
From Stdlib Require Import Permutation Relations DecimalString DecimalNat.
Import ListNotations.

Set Warnings "-inexact-float,-register-all".
Local Open Scope string_scope.
Local Open Scope list_scope.

(** ** Strings *)

Definition nl : string := String (ascii_of_nat 10) EmptyString.
Definition dq : string := String (ascii_of_nat 34) EmptyString.

(** [join sep l] is [l.join(sep)]. *)
Fixpoint join (sep : string) (l : list string) : string :=
  match l with
  | [] => EmptyString
  | [s] => s
  | s :: rest => (s ++ sep ++ join sep rest)%string
  end.

Fixpoint string_of_list (l : list ascii) : string :=
  match l with
  | [] => EmptyString
  | c :: l' => String c (string_of_list l')
  end.

Fixpoint str_rev_app (acc s : string) : string :=
  match acc with
  | EmptyString => s
  | String c acc' => str_rev_app acc' (String c s)
  end.

(** [split_on sep s] is [s.split(sep)] for a non-empty separator: the
    occurrences of [sep] are found left to right and do not overlap.  [skip]
    counts the bytes of a separator still to be dropped, [cur] holds the
    current field in reverse. *)
Fixpoint split_aux (sep : string) (skip : nat) (cur : string) (s : string) : list string :=
  match s with
  | EmptyString => [str_rev_app cur EmptyString]
  | String c s' =>
      match skip with
      | S k => split_aux sep k cur s'
      | O =>
          if String.prefix sep s
          then str_rev_app cur EmptyString :: split_aux sep (String.length sep - 1) EmptyString s'
          else split_aux sep 0 (String c cur) s'
      end
  end.

Definition split_on (sep s : string) : list string := split_aux sep 0 EmptyString s.

(** [contains pat s]: [s.includes(pat)]. *)
Fixpoint contains (pat s : string) : bool :=
  String.prefix pat s ||
  match s with
  | EmptyString => false
  | String _ s' => contains pat s'
  end.

(** [ends_with suf s]: [s.endsWith(suf)]. *)
Definition ends_with (suf s : string) : bool :=
  String.prefix (str_rev_app suf EmptyString) (str_rev_app s EmptyString).

Definition is_alnum (c : ascii) : bool :=
  let n := nat_of_ascii c in
  ((48 <=? n) && (n <=? 57) || (65 <=? n) && (n <=? 90) || (97 <=? n) && (n <=? 122))%nat.

(** [sanitize s] is [s.replace(/[^a-zA-Z0-9]/g, '_')].  The regular
    expression has no [u] flag, so it works on UTF-16 code units: a
    character outside ASCII becomes one underscore when it lies in the basic
    plane (a 2- or 3-byte UTF-8 sequence) and two when it is a surrogate
    pair (a 4-byte sequence); continuation bytes produce nothing. *)
Fixpoint sanitize (s : string) : string :=
  match s with
  | EmptyString => EmptyString
  | String c s' =>
      let n := nat_of_ascii c in
      if is_alnum c then String c (sanitize s')
      else if (n <? 128)%nat then String "_" (sanitize s')
      else if (n <? 192)%nat then sanitize s'
      else if (n <? 240)%nat then String "_" (sanitize s')
      else String "_" (String "_" (sanitize s'))
  end.

(** Decimal printing of a counter, as [`${index + 1}`] prints an integer. *)
Definition nat_to_string (n : nat) : string :=
  NilEmpty.string_of_uint (Nat.to_uint n).

(** ** JavaScript values and the host *)

Inductive JsValue : Type :=
| JUndefined
| JNull
| JBool (b : bool)
| JNum (x : float)
| JStr (s : string).

(** ToBoolean: [undefined], [null], [false], [0], [-0], [NaN] and the empty
    string are falsy. *)
Definition truthy (v : JsValue) : bool :=
  match v with
  | JUndefined | JNull => false
  | JBool b => b
  | JNum x => negb (PrimFloat.eqb x 0%float || PrimFloat.is_nan x)
  | JStr s => negb (s =? EmptyString)%string
  end.

(** [v || d] *)
Definition js_or (v d : JsValue) : JsValue := if truthy v then v else d.

(** [v === 'text'] *)
Definition strict_eq_str (v : JsValue) (s : string) : bool :=
  match v with
  | JStr t => (t =? s)%string
  | _ => false
  end.

Record Host : Type := {
  (** [Number::toString], used by template interpolation of a number *)
  NumberToString : float -> string;
  (** [StringToNumber], used when a string meets an arithmetic operator *)
  StringToNumber : string -> float;
  (** [typeof window !== 'undefined'] *)
  hasWindow : bool;
  (** [localStorage.getItem] *)
  localStorage_getItem : string -> option string;
  (** [btoa(unescape(encodeURIComponent(s)))]: base64 of the UTF-8 bytes *)
  btoa_utf8 : string -> string;
  (** [new Date().toLocaleString('ko-KR')] *)
  now_ko_KR : string
}.

Definition ToString (h : Host) (v : JsValue) : string :=
  match v with
  | JUndefined => "undefined"
  | JNull => "null"
  | JBool true => "true"
  | JBool false => "false"
  | JNum x => NumberToString h x
  | JStr s => s
  end.

Definition ToNumber (h : Host) (v : JsValue) : float :=
  match v with
  | JUndefined => PrimFloat.nan
  | JNull => 0%float
  | JBool true => 1%float
  | JBool false => 0%float
  | JNum x => x
  | JStr s => StringToNumber h s
  end.

(** Digits of [n] padded on the left with zeros to at least 3 digits, with
    the decimal point before the last two: step 11 of
    [Number.prototype.toFixed] at [fractionDigits = 2]. *)
Definition fixed2_of_N (n : N) : string :=
  let m := nat_to_string (N.to_nat n) in
  let k := String.length m in
  let m := if (k <=? 2)%nat then (string_of_list (repeat "0"%char (3 - k)) ++ m)%string else m in
  let k := String.length m in
  (String.substring 0 (k - 2) m ++ "." ++ String.substring (k - 2) 2 m)%string.

(** [x.toFixed(2)].  A finite double is [m * 2^e] exactly, so the integer
    [n] closest to [100 * |x|] (the larger one on a tie) is computed in
    exact integer arithmetic.  [1e21] is the integer [10^21], which is a
    double. *)
Definition toFixed2 (h : Host) (x : float) : string :=
  match Prim2SF x with
  | S754_nan => "NaN"
  | S754_infinity false => "Infinity"
  | S754_infinity true => "-Infinity"
  | S754_zero _ => "0.00"
  | S754_finite s m e =>
      let sign := if s then "-" else EmptyString in
      let ax := PrimFloat.abs x in
      if PrimFloat.leb 1e21%float ax then (sign ++ NumberToString h ax)%string
      else
        let n :=
          match e with
          | Z0 => (100 * Zpos m)%Z
          | Zpos p => (100 * Zpos m * 2 ^ Zpos p)%Z
          | Zneg p => ((200 * Zpos m + 2 ^ Zpos p) / (2 * 2 ^ Zpos p))%Z
          end in
        (sign ++ fixed2_of_N (Z.to_N n))%string
  end.

(** ** JavaScript [Map] *)

Module JsMap.

Definition t (V : Type) : Type := list (string * V).

Fixpoint get {V} (m : t V) (k : string) : option V :=
  match m with
  | [] => None
  | (k', v) :: m' => if (k' =? k)%string then Some v else get m' k
  end.

(** [m.set(k, v)]: an existing key keeps its place, a new key goes last. *)
Fixpoint set {V} (m : t V) (k : string) (v : V) : t V :=
  match m with
  | [] => [(k, v)]
  | (k', v') :: m' =>
      if (k' =? k)%string then (k', v) :: m' else (k', v') :: set m' k v
  end.

Definition keys {V} (m : t V) : list string := map fst m.

End JsMap.

(** ** The graph ([NodeData], [ConnectionData], [GraphData]) *)

Record NodeData : Type := {
  id : string;
  label : string;
  kind : string;
  controls : option (JsMap.t JsValue);
  position : float * float
}.

Record ConnectionData : Type := {
  conn_id : string;
  source : string;
  target : string;
  sourceOutput : string;
  targetInput : string
}.

Record GraphData : Type := {
  nodes : list NodeData;
  connections : list ConnectionData
}.

(** [node.controls?.[key]] *)
Definition control (node : NodeData) (key : string) : JsValue :=
  match controls node with
  | None => JUndefined
  | Some c => match JsMap.get c key with Some v => v | None => JUndefined end
  end.

(** [array.includes(s)] on an array of strings *)
Definition includes (l : list string) (s : string) : bool :=
  existsb (fun x => (x =? s)%string) l.

(** [connections.find(c => c.target === nodeId && c.targetInput === inputKey)] *)
Definition find_input (connections : list ConnectionData) (nodeId inputKey : string)
  : option ConnectionData :=
  find (fun c => (target c =? nodeId)%string && (targetInput c =? inputKey)%string) connections.

(** ** Exceptions and the stage log *)

Inductive exn : Type :=
| PipelineValidationError (message : string).

Inductive result (A : Type) : Type :=
| Ok (a : A)
| Throw (e : exn).
Arguments Ok {A} a.
Arguments Throw {A} e.

Inductive Stage : Type := Validator | Scheduler | CodeGenerator.

(** A computation returns the stages it entered, in order, and its outcome. *)
Definition M (A : Type) : Type := list Stage * result A.

Definition ret {A} (a : A) : M A := ([], Ok a).
Definition throw {A} (e : exn) : M A := ([], Throw e).
Definition bind {A B} (m : M A) (k : A -> M B) : M B :=
  match m with
  | (log, Ok a) => let '(log', r) := k a in (log ++ log', r)
  | (log, Throw e) => (log, Throw e)
  end.
(** Entering stage [s], whose body has outcome [r]. *)
Definition enter {A} (s : Stage) (r : result A) : M A := ([s], r).

Definition stages {A} (m : M A) : list Stage := fst m.
Definition outcome {A} (m : M A) : result A := snd m.

Notation "x <- m ;; k" := (bind m (fun x => k))
  (at level 61, m at next level, right associativity).

(** ** [validatePipelineStructure] *)

Definition msg_no_dataLoader : string := "파이프라인에 DataLoader 노드가 필요합니다.".
Definition msg_orphans (labels : list string) : string :=
  ("연결되지 않은 노드가 있습니다: " ++ join ", " labels)%string.
Definition msg_dataSplit (lbl : string) : string :=
  (lbl ++ ": DataSplit 노드는 데이터 입력이 필요합니다.")%string.
Definition msg_model (lbl : string) : string :=
  (lbl ++ ": 모델 노드는 X_train과 y_train이 모두 필요합니다.")%string.

(** The [Set] built by [connections.forEach]: every source and every target. *)
Definition connectedNodes (connections : list ConnectionData) : list string :=
  flat_map (fun conn => [source conn; target conn]) connections.

Definition orphanedNodes (nodes : list NodeData) (connections : list ConnectionData)
  : list NodeData :=
  filter (fun n => negb (kind n =? "dataLoader")%string
                   && negb (includes (connectedNodes connections) (id n))) nodes.

(** The body of the third check for one node: [None] when it passes. *)
Definition check_required (connections : list ConnectionData) (node : NodeData)
  : option exn :=
  let incoming := filter (fun c => (target c =? id node)%string) connections in
  if (kind node =? "dataSplit")%string && (List.length incoming =? 0)%nat then
    Some (PipelineValidationError (msg_dataSplit (label node)))
  else if includes ["classifier"; "regressor"; "neuralNet"] (kind node) then
    let hasXTrain := existsb (fun c => (targetInput c =? "X_train")%string) incoming in
    let hasYTrain := existsb (fun c => (targetInput c =? "y_train")%string) incoming in
    if negb hasXTrain || negb hasYTrain then
      Some (PipelineValidationError (msg_model (label node)))
    else None
  else None.

(** [nodes.forEach] of the third check: the first throw ends the loop. *)
Fixpoint check_all_required (connections : list ConnectionData) (nodes : list NodeData)
  : result unit :=
  match nodes with
  | [] => Ok tt
  | node :: rest =>
      match check_required connections node with
      | Some e => Throw e
      | None => check_all_required connections rest
      end
  end.

Definition validatePipelineStructure (nodes : list NodeData)
  (connections : list ConnectionData) : result unit :=
  let hasDataLoader := existsb (fun n => (kind n =? "dataLoader")%string) nodes in
  if negb hasDataLoader then Throw (PipelineValidationError msg_no_dataLoader)
  else
    let orphans := orphanedNodes nodes connections in
    if (0 <? List.length orphans)%nat then
      Throw (PipelineValidationError (msg_orphans (map label orphans)))
    else check_all_required connections nodes.

(** ** [topologicalSort] *)

(** [inDegree.get(k) || 0] *)
Definition get_or0 (inDegree : JsMap.t Z) (k : string) : Z :=
  match JsMap.get inDegree k with Some d => d | None => 0%Z end.

(** One [connections.forEach] step of the graph construction. *)
Definition add_connection (st : JsMap.t (list string) * JsMap.t Z) (conn : ConnectionData)
  : JsMap.t (list string) * JsMap.t Z :=
  let '(graph, inDegree) := st in
  (match JsMap.get graph (source conn) with
   | Some targets => JsMap.set graph (source conn) (targets ++ [target conn])
   | None => graph
   end,
   JsMap.set inDegree (target conn) (get_or0 inDegree (target conn) + 1)%Z).

Definition init_graph (nodes : list NodeData) : JsMap.t (list string) * JsMap.t Z :=
  fold_left (fun st node =>
               (JsMap.set (fst st) (id node) [], JsMap.set (snd st) (id node) 0%Z))
            nodes ([], []).

Definition build_graph (nodes : list NodeData) (connections : list ConnectionData)
  : JsMap.t (list string) * JsMap.t Z :=
  fold_left add_connection connections (init_graph nodes).

(** [new Map(nodes.map(n => [n.id, n]))] *)
Definition make_nodeMap (nodes : list NodeData) : JsMap.t NodeData :=
  fold_left (fun m n => JsMap.set m (id n) n) nodes [].

(** The zero-in-degree keys, in the iteration order of the map. *)
Definition initial_queue (inDegree : JsMap.t Z) : list string :=
  map fst (filter (fun kv => (snd kv =? 0)%Z) inDegree).

(** The body of [graph.get(nodeId)?.forEach(neighbor => ...)]. *)
Definition relax (st : JsMap.t Z * list string) (neighbor : string)
  : JsMap.t Z * list string :=
  let '(inDegree, queue) := st in
  let degree := (get_or0 inDegree neighbor - 1)%Z in
  (JsMap.set inDegree neighbor degree,
   if (degree =? 0)%Z then queue ++ [neighbor] else queue).

Definition neighbors (graph : JsMap.t (list string)) (nodeId : string) : list string :=
  match JsMap.get graph nodeId with Some ns => ns | None => [] end.

(** The [while (queue.length > 0)] loop; [None] when the fuel runs out
    before the queue is empty. *)
Fixpoint kahn_loop (graph : JsMap.t (list string)) (nodeMap : JsMap.t NodeData)
  (fuel : nat) (inDegree : JsMap.t Z) (queue : list string) (sorted : list NodeData)
  : option (list NodeData) :=
  match queue with
  | [] => Some sorted
  | nodeId :: queue' =>
      match fuel with
      | O => None
      | S fuel' =>
          let sorted' :=
            match JsMap.get nodeMap nodeId with
            | Some node => sorted ++ [node]
            | None => sorted
            end in
          let '(inDegree', queue'') :=
            fold_left relax (neighbors graph nodeId) (inDegree, queue') in
          kahn_loop graph nodeMap fuel' inDegree' queue'' sorted'
      end
  end.

(** Every key of [inDegree] enters the queue at most once, so one unit of
    fuel per key is enough ([kahn_loop_total] below): the [None] branch is
    never taken. *)
Definition topologicalSort (nodes : list NodeData) (connections : list ConnectionData)
  : list NodeData :=
  let '(graph, inDegree) := build_graph nodes connections in
  match kahn_loop graph (make_nodeMap nodes) (List.length inDegree) inDegree
                  (initial_queue inDegree) [] with
  | Some sorted => sorted
  | None => []
  end.

(** ** Template literals *)

Inductive piece : Type :=
| Lit (s : string)   (** a literal chunk of the template *)
| Sub (s : string).  (** the value of a [${...}] placeholder *)

Definition line : Type := list piece.
Definition block : Type := list line.

Definition render_piece (p : piece) : string :=
  match p with Lit s => s | Sub s => s end.

Definition render_line (l : line) : string :=
  fold_right (fun p acc => (render_piece p ++ acc)%string) EmptyString l.

(** The text of a template: its lines separated by line feeds. *)
Definition render (b : block) : string := join nl (map render_line b).

(** Python text is written with a backquote standing for the double-quote
    character (a backquote cannot occur literally inside a template
    literal, so no template of the module contains one). *)
Fixpoint unbq (s : string) : string :=
  match s with
  | EmptyString => EmptyString
  | String c s' => String (if Ascii.eqb c "`" then ascii_of_nat 34 else c) (unbq s')
  end.

Definition py (s : string) : piece := Lit (unbq s).

(** ** [getSimpleVarName] *)

Definition kindMap : JsMap.t string :=
  [ ("dataLoader", "data"); ("dataSplit", "split"); ("scaler", "scaler");
    ("featureSelection", "feature"); ("classifier", "model");
    ("regressor", "model"); ("neuralNet", "nn"); ("evaluation", "eval");
    ("tuning", "tuner") ].

(** [kindMap] is a plain object, so [kindMap[k]] also answers for the
    properties inherited from [Object.prototype]: eleven built-in functions
    and, under [__proto__], the prototype object itself.  All of them are
    truthy, so [||] keeps them.  The module uses a name only by
    interpolating it into a template literal; an inherited value is
    therefore represented by the text that the interpolation gives, the
    source text of a built-in function as V8 prints it and
    [[object Object]] for the prototype. *)
Definition native_function (name : string) : string :=
  ("function " ++ name ++ "() { [native code] }")%string.

Definition Object_prototype : JsMap.t string :=
  [ ("constructor", native_function "Object");
    ("__defineGetter__", native_function "__defineGetter__");
    ("__defineSetter__", native_function "__defineSetter__");
    ("hasOwnProperty", native_function "hasOwnProperty");
    ("__lookupGetter__", native_function "__lookupGetter__");
    ("__lookupSetter__", native_function "__lookupSetter__");
    ("isPrototypeOf", native_function "isPrototypeOf");
    ("propertyIsEnumerable", native_function "propertyIsEnumerable");
    ("toString", native_function "toString");
    ("valueOf", native_function "valueOf");
    ("__proto__", "[object Object]");
    ("toLocaleString", native_function "toLocaleString") ].

(** [kindMap[node.kind] || 'step']: an own property, else an inherited
    one, else the default. *)
Definition baseName_of (k : string) : string :=
  match JsMap.get kindMap k with
  | Some b => b
  | None =>
      match JsMap.get Object_prototype k with
      | Some inherited => inherited
      | None => "step"
      end
  end.

(** Returns the name and the updated [nodeIndex]. *)
Definition getSimpleVarName (node : NodeData) (nodeIndex : JsMap.t nat)
  : string * JsMap.t nat :=
  let baseName := baseName_of (kind node) in
  let index := match JsMap.get nodeIndex (kind node) with Some i => i | None => 0 end in
  let nodeIndex' := JsMap.set nodeIndex (kind node) (index + 1) in
  (if (index =? 0)%nat then baseName else (baseName ++ nat_to_string (index + 1))%string,
   nodeIndex').

(** The [sortedNodes.forEach] that fills [varNameMap]. *)
Definition assign_step (st : JsMap.t string * JsMap.t nat) (node : NodeData)
  : JsMap.t string * JsMap.t nat :=
  let '(varNameMap, nodeIndex) := st in
  let '(varName, nodeIndex') := getSimpleVarName node nodeIndex in
  (JsMap.set varNameMap (id node) varName, nodeIndex').

Definition assign_names (sortedNodes : list NodeData) : JsMap.t string :=
  fst (fold_left assign_step sortedNodes ([], [])).

(** [varNameMap.get(node.id) || 'data'] *)
Definition varName_of (varNameMap : JsMap.t string) (node : NodeData) : string :=
  match JsMap.get varNameMap (id node) with
  | Some v => if (v =? EmptyString)%string then "data" else v
  | None => "data"
  end.

(** ** [nodeToCode] *)

(** [`step_${id.replace(/[^a-zA-Z0-9]/g, '_')}`] *)
Definition step_name (nodeId : string) : string := ("step_" ++ sanitize nodeId)%string.

(** [varNameMap?.get(src) || `step_${...}`] *)
Definition source_var (varNameMap : option (JsMap.t string)) (src : string) : string :=
  match varNameMap with
  | Some m =>
      match JsMap.get m src with
      | Some v => if (v =? EmptyString)%string then step_name src else v
      | None => step_name src
      end
  | None => step_name src
  end.

Definition getSourceVarName (connections : list ConnectionData)
  (varNameMap : option (JsMap.t string)) (targetNodeId inputKey : string) : string :=
  match find_input connections targetNodeId inputKey with
  | None => "data"
  | Some conn => source_var varNameMap (source conn)
  end.

Definition getSourceOutputVar (connections : list ConnectionData)
  (varNameMap : option (JsMap.t string)) (targetNodeId inputKey : string) : string :=
  match find_input connections targetNodeId inputKey with
  | None => "data"
  | Some conn => (source_var varNameMap (source conn) ++ "_" ++ sourceOutput conn)%string
  end.

(** [`step_${conn.source.replace(...)}_${conn.sourceOutput}`] *)
Definition step_output_var (conn : ConnectionData) : string :=
  (step_name (source conn) ++ "_" ++ sourceOutput conn)%string.

(** The warning assembled with [warnings += ...] by the kinds that need two
    inputs [a] and [b]. *)
Definition missing_warning (a b : string) (connA connB : option ConnectionData)
  (please : string) : block :=
  [ [py "# WARNING: Missing required connections!"] ]
  ++ match connA with
     | Some _ => []
     | None => [ [Lit ("#   - " ++ a ++ " input not connected")%string] ]
     end
  ++ match connB with
     | Some _ => []
     | None => [ [Lit ("#   - " ++ b ++ " input not connected")%string] ]
     end
  ++ [ [Lit please] ].

Definition code_dataLoader (h : Host) (node : NodeData) (varName : string) : block :=
  let fileName := ToString h (js_or (control node "fileName") (JStr "data.csv")) in
  let storedData :=
    if hasWindow h then localStorage_getItem h ("csv_data_" ++ fileName)%string else None in
  match storedData with
  | Some (String c rest) =>
      let base64Content := btoa_utf8 h (String c rest) in
      [ [py "# Load Data from uploaded CSV: "; Sub fileName];
        [py "import io"];
        [py "import base64"];
        [];
        [py "# Embedded CSV data (uploaded from browser)"];
        [py "csv_content = base64.b64decode('"; Sub base64Content; py "').decode('utf-8')"];
        [Sub varName; py " = pd.read_csv(io.StringIO(csv_content))"];
        [py "print(f`Data loaded from "; Sub fileName; py ": {"; Sub varName; py ".shape}`)"];
        [py "print(`\nFirst 5 rows:`)"];
        [py "print("; Sub varName; py ".head())"] ]
  | _ =>
      [ [py "# Load Data from file"];
        [Sub varName; py " = pd.read_csv('"; Sub fileName; py "')"];
        [py "print(f`Data loaded: {"; Sub varName; py ".shape}`)"];
        [py "print(`\nFirst 5 rows:`)"];
        [py "print("; Sub varName; py ".head())"] ]
  end.

Definition code_dataSplit (h : Host) (node : NodeData)
  (connections : list ConnectionData) (varName : string)
  (varNameMap : option (JsMap.t string)) : block :=
  let ratio := js_or (control node "ratio") (JNum 0.8%float) in
  let targetColumn := ToString h (js_or (control node "targetColumn") (JStr "target")) in
  let sourceVar := getSourceVarName connections varNameMap (id node) "data" in
  [ [py "# Train/Test Split"];
    [py "# Target column: '"; Sub targetColumn; py "'"];
    [py "X_all = "; Sub sourceVar; py ".drop('"; Sub targetColumn; py "', axis=1)"];
    [py "y_all = "; Sub sourceVar; py "['"; Sub targetColumn; py "']"];
    [Sub varName; py "_X_train, "; Sub varName; py "_X_test, "; Sub varName;
     py "_y_train, "; Sub varName; py "_y_test = train_test_split("];
    [py "    X_all, y_all, test_size=";
     Sub (toFixed2 h (PrimFloat.sub 1%float (ToNumber h ratio)));
     py ", random_state=42"];
    [py ")"];
    [py "print(f`Train size: {{len("; Sub varName; py "_X_train)}}, Test size: {{len(";
     Sub varName; py "_X_test)}}`)"];
    [py "print(f`Target column: '"; Sub targetColumn; py "'`)"] ].

Definition code_scaler (h : Host) (node : NodeData)
  (connections : list ConnectionData) (varName : string)
  (varNameMap : option (JsMap.t string)) : block :=
  let method := ToString h (js_or (control node "method") (JStr "StandardScaler")) in
  let xTrainVar := getSourceOutputVar connections varNameMap (id node) "X_train" in
  match find_input connections (id node) "X_test" with
  | Some _ =>
      let xTestVar := getSourceOutputVar connections varNameMap (id node) "X_test" in
      [ [py "# Scale Features (Train and Test)"];
        [Sub varName; py " = "; Sub method; py "()"];
        [Sub varName; py "_X_train = "; Sub varName; py ".fit_transform("; Sub xTrainVar; py ")"];
        [Sub varName; py "_X_test = "; Sub varName; py ".transform("; Sub xTestVar; py ")"];
        [py "print(`Features scaled using "; Sub method; py "`)"];
        [py "print(f`Scaled train shape: {"; Sub varName; py "_X_train.shape}`)"];
        [py "print(f`Scaled test shape: {"; Sub varName; py "_X_test.shape}`)"] ]
  | None =>
      [ [py "# Scale Features (Train only)"];
        [Sub varName; py " = "; Sub method; py "()"];
        [Sub varName; py "_X_train = "; Sub varName; py ".fit_transform("; Sub xTrainVar; py ")"];
        [py "print(`Features scaled using "; Sub method; py "`)"];
        [py "print(f`Scaled train shape: {"; Sub varName; py "_X_train.shape}`)"];
        [py "# Note: X_test not connected - only training data scaled"] ]
  end.

Definition code_featureSelection (h : Host) (node : NodeData)
  (connections : list ConnectionData) (varName : string) : block :=
  let method := ToString h (js_or (control node "method") (JStr "SelectKBest")) in
  let k := ToString h (js_or (control node "k") (JNum 10%float)) in
  let xTrainConn := find_input connections (id node) "X_train" in
  let yTrainConn := find_input connections (id node) "y_train" in
  match xTrainConn, yTrainConn with
  | Some xc, Some yc =>
      let xTrainVar := step_output_var xc in
      let yTrainVar := step_output_var yc in
      let nodeId := sanitize (id node) in
      [ [py "# Feature Selection"];
        [Sub varName; py " = "; Sub method; py "(k="; Sub k; py ")"];
        [py "step_"; Sub nodeId; py "_X_train = "; Sub varName; py ".fit_transform(";
         Sub xTrainVar; py ", "; Sub yTrainVar; py ")"];
        [py "print(f`Selected {k} best features from {"; Sub xTrainVar;
         py ".shape[1]} features`)"] ]
  | _, _ =>
      missing_warning "X_train" "y_train" xTrainConn yTrainConn
        "# Please connect training data to this feature selection node"
  end.

(** The [if / else if] chain on [algorithm] of the classifier. *)
Definition classifier_modelCode (algorithm : JsValue) (nEstimators : string) : line :=
  if strict_eq_str algorithm "RandomForest" then
    [py "RandomForestClassifier(n_estimators="; Sub nEstimators; py ", random_state=42)"]
  else if strict_eq_str algorithm "LogisticRegression" then
    [py "LogisticRegression(random_state=42, max_iter=1000)"]
  else if strict_eq_str algorithm "SVM" then [py "SVC(random_state=42)"]
  else if strict_eq_str algorithm "DecisionTree" then
    [py "DecisionTreeClassifier(random_state=42)"]
  else if strict_eq_str algorithm "KNN" then [py "KNeighborsClassifier(n_neighbors=5)"]
  else if strict_eq_str algorithm "GradientBoosting" then
    [py "GradientBoostingClassifier(n_estimators="; Sub nEstimators; py ", random_state=42)"]
  else
    [py "RandomForestClassifier(n_estimators="; Sub nEstimators; py ", random_state=42)"].

(** The lines shared by the three trainer templates: construct, fit, report. *)
Definition trainer_block (header : string) (nodeId : string) (modelCode : line)
  (xTrainVar yTrainVar : string) (trained : line) (score : string) : block :=
  [ [py header];
    [py "step_"; Sub nodeId; py "_model = "] ++ modelCode;
    [py "step_"; Sub nodeId; py "_model.fit("; Sub xTrainVar; py ", "; Sub yTrainVar; py ")"];
    trained;
    [py score; py "{step_"; Sub nodeId; py "_model.score("; Sub xTrainVar; py ", ";
     Sub yTrainVar; py "):.4f}`)"] ].

Definition code_classifier (h : Host) (node : NodeData)
  (connections : list ConnectionData) : block :=
  let algorithm := js_or (control node "algorithm") (JStr "RandomForest") in
  let nEstimators := ToString h (js_or (control node "n_estimators") (JNum 100%float)) in
  let xTrainConn := find_input connections (id node) "X_train" in
  let yTrainConn := find_input connections (id node) "y_train" in
  match xTrainConn, yTrainConn with
  | Some xc, Some yc =>
      trainer_block "# Train Classifier" (sanitize (id node))
        (classifier_modelCode algorithm nEstimators)
        (step_output_var xc) (step_output_var yc)
        [py "print(`Model trained: "; Sub (ToString h algorithm); py "`)"]
        "print(f`Training score: "
  | _, _ =>
      missing_warning "X_train" "y_train" xTrainConn yTrainConn
        "# Please connect training data to this classifier node"
  end.

Definition regressor_modelCode (algorithm : JsValue) : line :=
  if strict_eq_str algorithm "LinearRegression" then [py "LinearRegression()"]
  else if strict_eq_str algorithm "Ridge" then [py "Ridge(random_state=42)"]
  else if strict_eq_str algorithm "Lasso" then [py "Lasso(random_state=42)"]
  else if strict_eq_str algorithm "RandomForestRegressor" then
    [py "RandomForestRegressor(random_state=42)"]
  else if strict_eq_str algorithm "SVR" then [py "SVR()"]
  else if strict_eq_str algorithm "GradientBoostingRegressor" then
    [py "GradientBoostingRegressor(random_state=42)"]
  else [py "LinearRegression()"].

Definition code_regressor (h : Host) (node : NodeData)
  (connections : list ConnectionData) : block :=
  let algorithm := js_or (control node "algorithm") (JStr "LinearRegression") in
  let xTrainConn := find_input connections (id node) "X_train" in
  let yTrainConn := find_input connections (id node) "y_train" in
  match xTrainConn, yTrainConn with
  | Some xc, Some yc =>
      trainer_block "# Train Regressor" (sanitize (id node))
        (regressor_modelCode algorithm)
        (step_output_var xc) (step_output_var yc)
        [py "print(`Model trained: "; Sub (ToString h algorithm); py "`)"]
        "print(f`Training R² score: "
  | _, _ =>
      missing_warning "X_train" "y_train" xTrainConn yTrainConn
        "# Please connect training data to this regressor node"
  end.

Definition code_neuralNet (h : Host) (node : NodeData)
  (connections : list ConnectionData) : block :=
  let layers := ToString h (js_or (control node "layers") (JStr "64,32")) in
  let epochs := ToString h (js_or (control node "epochs") (JNum 50%float)) in
  let xTrainConn := find_input connections (id node) "X_train" in
  let yTrainConn := find_input connections (id node) "y_train" in
  match xTrainConn, yTrainConn with
  | Some xc, Some yc =>
      trainer_block "# Train Neural Network" (sanitize (id node))
        [py "MLPClassifier(hidden_layer_sizes=("; Sub layers; py "), max_iter="; Sub epochs;
         py ", random_state=42)"]
        (step_output_var xc) (step_output_var yc)
        [py "print(`Neural Network trained with layers: ["; Sub layers; py "]`)"]
        "print(f`Training score: "
  | _, _ =>
      missing_warning "X_train" "y_train" xTrainConn yTrainConn
        "# Please connect training data to this neural network node"
  end.

(** The regression metric template; [pred] is the prediction expression. *)
Definition regression_metrics (nodeId yTestVar : string) (pred : piece) : block :=
  [ [py "step_"; Sub nodeId; py "_metrics = {"];
    [py "    'mae': mean_absolute_error("; Sub yTestVar; py ", "; pred; py "),"];
    [py "    'mse': mean_squared_error("; Sub yTestVar; py ", "; pred; py "),"];
    [py "    'rmse': np.sqrt(mean_squared_error("; Sub yTestVar; py ", "; pred; py ")),"];
    [py "    'r2': r2_score("; Sub yTestVar; py ", "; pred; py ")"];
    [py "}"];
    [py "print(`=`*60)"];
    [py "print(`📊 Regression Model Evaluation Results`)"];
    [py "print(`=`*60)"];
    [py "print(f`R² Score (Coefficient of Determination): {step_"; Sub nodeId;
     py "_metrics['r2']:.4f}`)"];
    [py "print(f`  → Explains {step_"; Sub nodeId; py "_metrics['r2']*100:.2f}% of variance`)"];
    [py "print(f`Mean Absolute Error (MAE): {step_"; Sub nodeId; py "_metrics['mae']:.4f}`)"];
    [py "print(f`Mean Squared Error (MSE): {step_"; Sub nodeId; py "_metrics['mse']:.4f}`)"];
    [py "print(f`Root Mean Squared Error (RMSE): {step_"; Sub nodeId;
     py "_metrics['rmse']:.4f}`)"];
    [py "print(`=`*60)"] ].

(** The classification metric template. *)
Definition classification_metrics (nodeId yTestVar : string) (pred : piece) : block :=
  [ [py "step_"; Sub nodeId; py "_metrics = {"];
    [py "    'accuracy': accuracy_score("; Sub yTestVar; py ", "; pred; py ")"];
    [py "}"];
    [py "print(f`Accuracy: {step_"; Sub nodeId; py "_metrics['accuracy']:.4f}`)"];
    [py "print(`\nClassification Report:`)"];
    [py "print(classification_report("; Sub yTestVar; py ", "; pred; py "))"];
    [py "print(`\nConfusion Matrix:`)"];
    [py "print(confusion_matrix("; Sub yTestVar; py ", "; pred; py "))"] ].

(** [isRegression]: the node at the other end of the [model] connection is
    a regressor. *)
Definition isRegression (nodeMap : JsMap.t NodeData) (modelConn : option ConnectionData)
  : bool :=
  match modelConn with
  | Some mc =>
      match JsMap.get nodeMap (source mc) with
      | Some modelSourceNode => (kind modelSourceNode =? "regressor")%string
      | None => false
      end
  | None => false
  end.

Definition code_evaluate (node : NodeData) (connections : list ConnectionData)
  (nodeMap : JsMap.t NodeData) : block :=
  let modelConn := find_input connections (id node) "model" in
  let xTestConn := find_input connections (id node) "X_test" in
  let yTestConn := find_input connections (id node) "y_test" in
  let predictionConn := find_input connections (id node) "prediction" in
  match predictionConn, modelConn, xTestConn, yTestConn with
  | None, None, _, _ | None, _, None, _ =>
      [ [py "# WARNING: Evaluate node needs either:"];
        [py "#   Option 1: prediction input + y_test input"];
        [py "#   Option 2: model input + X_test input + y_test input"];
        [py "# Please connect the required inputs"] ]
  | _, _, _, None =>
      [ [py "# WARNING: y_test input is required for evaluation"];
        [py "# Please connect y_test data to this evaluate node"] ]
  | Some pc, _, _, Some yc =>
      let yTestVar := step_output_var yc in
      let nodeId := sanitize (id node) in
      let predVar := step_output_var pc in
      if isRegression nodeMap modelConn then
        [py "# Evaluate Regression Model (using pre-computed predictions)"]
        :: regression_metrics nodeId yTestVar (Sub predVar)
      else
        [py "# Evaluate Classification Model (using pre-computed predictions)"]
        :: classification_metrics nodeId yTestVar (Sub predVar)
  | None, Some mc, Some xc, Some yc =>
      let yTestVar := step_output_var yc in
      let nodeId := sanitize (id node) in
      let modelVar := (step_name (source mc) ++ "_model")%string in
      let xTestVar := step_output_var xc in
      if isRegression nodeMap modelConn then
        [py "# Evaluate Regression Model"]
        :: [py "y_pred = "; Sub modelVar; py ".predict("; Sub xTestVar; py ")"]
        :: regression_metrics nodeId yTestVar (py "y_pred")
      else
        [py "# Evaluate Classification Model"]
        :: [py "y_pred = "; Sub modelVar; py ".predict("; Sub xTestVar; py ")"]
        :: classification_metrics nodeId yTestVar (py "y_pred")
  end.

Definition code_predict (node : NodeData) (connections : list ConnectionData) : block :=
  let modelConn := find_input connections (id node) "model" in
  let xTestConn := find_input connections (id node) "X_test" in
  match modelConn, xTestConn with
  | Some mc, Some xc =>
      let modelVar := (step_name (source mc) ++ "_model")%string in
      let xTestVar := step_output_var xc in
      let nodeId := sanitize (id node) in
      [ [py "# Make Predictions"];
        [py "step_"; Sub nodeId; py "_prediction = "; Sub modelVar; py ".predict(";
         Sub xTestVar; py ")"];
        [py "print(f`Predictions made: {len(step_"; Sub nodeId; py "_prediction)} samples`)"];
        [py "print(f`First 10 predictions: {step_"; Sub nodeId; py "_prediction[:10]}`)"];
        [];
        [py "# ========================================"];
        [py "# Interactive Prediction Example"];
        [py "# ========================================"];
        [py "# You can use the trained model to make predictions on new data:"];
        [py "# Example:"];
        [py "#   new_data = [[value1, value2, ...]]  # Replace with actual feature values"];
        [py "#   prediction = "; Sub modelVar; py ".predict(new_data)"];
        [py "#   print(f`Prediction: {prediction[0]}`)"];
        [py "#"];
        [py "# For single-feature models (e.g., score prediction):"];
        [py "#   input_value = 75  # Example: midterm score"];
        [py "#   prediction = "; Sub modelVar; py ".predict([[input_value]])"];
        [py "#   print(f`Predicted output: {prediction[0]:.2f}`)"] ]
  | _, _ =>
      missing_warning "model" "X_test" modelConn xTestConn
        "# Please connect model and X_test data to this predict node"
  end.

Definition code_hyperparamTune (node : NodeData) (connections : list ConnectionData)
  : block :=
  let xTrainConn := find_input connections (id node) "X_train" in
  let yTrainConn := find_input connections (id node) "y_train" in
  match xTrainConn, yTrainConn with
  | Some xc, Some yc =>
      let xTrainVar := step_output_var xc in
      let yTrainVar := step_output_var yc in
      let nodeId := sanitize (id node) in
      [ [py "# Hyperparameter Tuning"];
        [py "param_grid = {"];
        [py "    'n_estimators': [50, 100, 200],"];
        [py "    'max_depth': [10, 20, 30]"];
        [py "}"];
        [py "grid_search = GridSearchCV(RandomForestClassifier(random_state=42), param_grid, cv=5)"];
        [py "grid_search.fit("; Sub xTrainVar; py ", "; Sub yTrainVar; py ")"];
        [py "step_"; Sub nodeId; py "_model = grid_search.best_estimator_"];
        [py "print(f`Best parameters: {grid_search.best_params_}`)"];
        [py "print(f`Best score: {grid_search.best_score_:.4f}`)"] ]
  | _, _ =>
      missing_warning "X_train" "y_train" xTrainConn yTrainConn
        "# Please connect training data to this hyperparameter tuning node"
  end.

(** The [switch (node.kind)] of [nodeToCode], as a template. *)
Definition nodeToCode_tpl (h : Host) (node : NodeData) (connections : list ConnectionData)
  (nodeMap : JsMap.t NodeData) (varName : string) (varNameMap : option (JsMap.t string))
  : block :=
  let k := kind node in
  if (k =? "dataLoader")%string then code_dataLoader h node varName
  else if (k =? "dataSplit")%string then code_dataSplit h node connections varName varNameMap
  else if (k =? "scaler")%string then code_scaler h node connections varName varNameMap
  else if (k =? "featureSelection")%string then
    code_featureSelection h node connections varName
  else if (k =? "classifier")%string then code_classifier h node connections
  else if (k =? "regressor")%string then code_regressor h node connections
  else if (k =? "neuralNet")%string then code_neuralNet h node connections
  else if (k =? "evaluate")%string then code_evaluate node connections nodeMap
  else if (k =? "predict")%string then code_predict node connections
  else if (k =? "hyperparamTune")%string then code_hyperparamTune node connections
  else [ [py "# Unknown node type: "; Sub k] ].

Definition nodeToCode (h : Host) (node : NodeData) (connections : list ConnectionData)
  (nodeMap : JsMap.t NodeData) (varName : string) (varNameMap : option (JsMap.t string))
  : string :=
  render (nodeToCode_tpl h node connections nodeMap varName varNameMap).

(** ** [generateImports] *)

(** [imports.add(s)] on a [Set] that is later listed in insertion order. *)
Definition set_add (imports : list string) (s : string) : list string :=
  if includes imports s then imports else imports ++ [s].

Definition imports_of_kind (k : string) : list string :=
  if (k =? "dataSplit")%string then
    ["from sklearn.model_selection import train_test_split"]
  else if (k =? "scaler")%string then
    ["from sklearn.preprocessing import StandardScaler, MinMaxScaler, RobustScaler, MaxAbsScaler"]
  else if (k =? "featureSelection")%string then
    ["from sklearn.feature_selection import SelectKBest, f_classif"]
  else if (k =? "classifier")%string then
    ["from sklearn.ensemble import RandomForestClassifier, GradientBoostingClassifier";
     "from sklearn.linear_model import LogisticRegression";
     "from sklearn.svm import SVC";
     "from sklearn.tree import DecisionTreeClassifier";
     "from sklearn.neighbors import KNeighborsClassifier"]
  else if (k =? "regressor")%string then
    ["from sklearn.linear_model import LinearRegression, Ridge, Lasso";
     "from sklearn.ensemble import RandomForestRegressor, GradientBoostingRegressor";
     "from sklearn.svm import SVR"]
  else if (k =? "neuralNet")%string then
    ["from sklearn.neural_network import MLPClassifier"]
  else if (k =? "evaluate")%string then
    ["from sklearn.metrics import accuracy_score, classification_report, confusion_matrix";
     "from sklearn.metrics import mean_absolute_error, mean_squared_error, r2_score"]
  else if (k =? "hyperparamTune")%string then
    ["from sklearn.model_selection import GridSearchCV"]
  else [].

Definition generateImports (nodes : list NodeData) : string :=
  let imports := ["import pandas as pd"; "import numpy as np"] in
  let hasDataLoader := existsb (fun n => (kind n =? "dataLoader")%string) nodes in
  let imports := if hasDataLoader then fold_left set_add ["import io"; "import base64"] imports
                 else imports in
  let imports :=
    fold_left (fun acc node => fold_left set_add (imports_of_kind (kind node)) acc)
              nodes imports in
  join nl imports.

(** ** [generatePythonCode] *)

Definition ml_kinds : list string :=
  ["dataLoader"; "dataSplit"; "scaler"; "featureSelection"; "classifier"; "regressor";
   "neuralNet"; "evaluate"; "predict"; "hyperparamTune"].

Definition msg_no_nodes : string := "파이프라인에 노드가 없습니다.".
Definition msg_no_ml_nodes : string := "파이프라인에 ML 노드가 없습니다.".

Definition banner (title : string) : list string :=
  [ "# ========================================"; title;
    "# ========================================" ].

(** The final template of [generatePythonCode]. *)
Definition assemble (imports : string) (codeBlocks : list string) : string :=
  join nl ([imports; EmptyString]
           ++ banner "# ML Pipeline Auto-Generated Code"
           ++ [EmptyString; join (nl ++ nl) codeBlocks; EmptyString]
           ++ banner "# Pipeline Complete!"
           ++ [EmptyString]).

Definition generatePythonCode (h : Host) (graph : GraphData) : M string :=
  if (List.length (nodes graph) =? 0)%nat then
    throw (PipelineValidationError msg_no_nodes)
  else
    let mlNodes := filter (fun n => includes ml_kinds (kind n)) (nodes graph) in
    if (List.length mlNodes =? 0)%nat then
      throw (PipelineValidationError msg_no_ml_nodes)
    else
      _ <- enter Validator (validatePipelineStructure mlNodes (connections graph)) ;;
      sortedNodes <- enter Scheduler (Ok (topologicalSort mlNodes (connections graph))) ;;
      let nodeMap := make_nodeMap mlNodes in
      let varNameMap := assign_names sortedNodes in
      codeBlocks <- enter CodeGenerator
        (Ok (map (fun node =>
                    nodeToCode h node (connections graph) nodeMap
                               (varName_of varNameMap node) (Some varNameMap))
                 sortedNodes)) ;;
      ret (assemble (generateImports mlNodes) codeBlocks).

(** ** [JSON.stringify(value, null, 2)] *)

Inductive json : Type :=
| JsonNull
| JsonNumber (n : nat)
| JsonString (s : string)
| JsonArray (items : list json)
| JsonObject (fields : list (string * json)).

Definition hex_digit (n : nat) : ascii :=
  match String.get n "0123456789abcdef" with Some c => c | None => "0"%char end.

(** QuoteJSONString on one byte: the quote, the backslash and the control
    characters are escaped, everything else is copied. *)
Definition json_escape (c : ascii) : string :=
  let n := nat_of_ascii c in
  if (n =? 34)%nat then ("\" ++ dq)%string
  else if (n =? 92)%nat then "\\"
  else if (n =? 8)%nat then "\b"
  else if (n =? 12)%nat then "\f"
  else if (n =? 10)%nat then "\n"
  else if (n =? 13)%nat then "\r"
  else if (n =? 9)%nat then "\t"
  else if (n <? 32)%nat then
    ("\u00" ++ String (hex_digit (n / 16)) (String (hex_digit (n mod 16)) EmptyString))%string
  else String c EmptyString.

Fixpoint json_escape_all (s : string) : string :=
  match s with
  | EmptyString => EmptyString
  | String c s' => (json_escape c ++ json_escape_all s')%string
  end.

Definition json_quote (s : string) : string := (dq ++ json_escape_all s ++ dq)%string.

Fixpoint stringify (indent : string) (v : json) : string :=
  let inner := ("  " ++ indent)%string in
  let wrap (opening closing : string) (items : list string) : string :=
    (opening ++ nl ++ inner ++ join ("," ++ nl ++ inner) items ++ nl ++ indent ++ closing)%string in
  match v with
  | JsonNull => "null"
  | JsonNumber n => nat_to_string n
  | JsonString s => json_quote s
  | JsonArray [] => "[]"
  | JsonArray items => wrap "[" "]" (map (stringify inner) items)
  | JsonObject [] => "{}"
  | JsonObject fields =>
      wrap "{" "}"
           (map (fun kv => let '(k, x) := kv in (json_quote k ++ ": " ++ stringify inner x)%string)
                fields)
  end.

(** ** The exporters *)

(** [pipelineName: string = 'ML Pipeline']: the default applies when the
    argument is [undefined]. *)
Definition name_or_default (pipelineName : option string) : string :=
  match pipelineName with Some s => s | None => "ML Pipeline" end.

(** [now] is the value of [new Date().toLocaleString('ko-KR')]. *)
Definition markdown_cell (now pipelineName : string) : json :=
  JsonObject
    [ ("cell_type", JsonString "markdown");
      ("metadata", JsonObject []);
      ("source", JsonArray
         [ JsonString ("# " ++ pipelineName ++ nl);
           JsonString nl;
           JsonString ("This notebook was auto-generated from a visual ML pipeline builder." ++ nl);
           JsonString nl;
           JsonString ("Generated on: " ++ now ++ nl) ]) ].

Definition code_cell (section : string) : json :=
  JsonObject
    [ ("cell_type", JsonString "code");
      ("execution_count", JsonNull);
      ("metadata", JsonObject []);
      ("outputs", JsonArray []);
      ("source", JsonArray (map (fun l => JsonString (l ++ nl)) (split_on nl section))) ].

Definition notebook_of (now pipelineName pythonCode : string) : json :=
  let sections := split_on (nl ++ nl) pythonCode in
  let cells := markdown_cell now pipelineName :: map code_cell sections in
  JsonObject
    [ ("cells", JsonArray cells);
      ("metadata", JsonObject
         [ ("kernelspec", JsonObject
              [ ("display_name", JsonString "Python 3");
                ("language", JsonString "python");
                ("name", JsonString "python3") ]);
           ("language_info", JsonObject
              [ ("name", JsonString "python");
                ("version", JsonString "3.8.0") ]) ]);
      ("nbformat", JsonNumber 4);
      ("nbformat_minor", JsonNumber 4) ].

Definition generateJupyterNotebook (h : Host) (graph : GraphData)
  (pipelineName : option string) : M string :=
  pythonCode <- generatePythonCode h graph ;;
  ret (stringify EmptyString
         (notebook_of (now_ko_KR h) (name_or_default pipelineName) pythonCode)).

Definition script_header (now pipelineName : string) : string :=
  join nl
    [ (dq ++ dq ++ dq)%string;
      pipelineName;
      EmptyString;
      "Auto-generated ML Pipeline Script";
      ("Generated on: " ++ now)%string;
      EmptyString;
      "This script was created from a visual ML pipeline builder.";
      (dq ++ dq ++ dq)%string;
      EmptyString;
      EmptyString ].

Definition generatePythonScript (h : Host) (graph : GraphData)
  (pipelineName : option string) : M string :=
  pythonCode <- generatePythonCode h graph ;;
  ret (script_header (now_ko_KR h) (name_or_default pipelineName) ++ pythonCode)%string.

(** ** The cycle check of the editor page ([validatePipeline])

    [validatePipeline] of [LogicEditorPage.jsx] reads a pipeline that
    comes either from [exportGraph] or from the assistant's guide, so every
    field it reads may be absent. *)

(** A node as [validatePipeline] reads it; [None] is [undefined].  [step]
    is the position of the node in the guide, a count, which a template
    literal prints as its decimal digits. *)
Record PipelineNode : Type := {
  pn_id : option string;
  pn_step : option nat;
  pn_nodeType : option string;
  pn_type : option string;
  pn_kind : option string
}.

Record Pipeline : Type := {
  p_nodes : option (list PipelineNode);
  p_connections : option (list ConnectionData)
}.

(** [a || b] on values that are strings or [undefined]: the empty string
    is falsy. *)
Definition or_else (a b : option string) : option string :=
  match a with
  | Some (String _ _) => a
  | _ => b
  end.

(** [n.id || `node-${n.step}`] *)
Definition node_key (n : PipelineNode) : string :=
  match pn_id n with
  | Some (String c s) => String c s
  | _ =>
      ("node-" ++ match pn_step n with
                  | Some k => nat_to_string k
                  | None => "undefined"
                  end)%string
  end.

(** [n.nodeType || n.type || n.kind] *)
Definition node_kind (n : PipelineNode) : option string :=
  or_else (or_else (pn_nodeType n) (pn_type n)) (pn_kind n).

(** [pipeline.nodes] and [pipeline.connections || []] *)
Definition pipeline_nodes (pipeline : Pipeline) : list PipelineNode :=
  match p_nodes pipeline with Some ns => ns | None => [] end.
Definition pipeline_connections (pipeline : Pipeline) : list ConnectionData :=
  match p_connections pipeline with Some cs => cs | None => [] end.

(** A graph of [exportGraph] read as a pipeline: its nodes carry [id] and
    [kind], and no [step], [nodeType] or [type]. *)
Definition pipeline_node_of (n : NodeData) : PipelineNode :=
  {| pn_id := Some (id n); pn_step := None; pn_nodeType := None; pn_type := None;
     pn_kind := Some (kind n) |}.

Definition pipeline_of_graph (graph : GraphData) : Pipeline :=
  {| p_nodes := Some (map pipeline_node_of (nodes graph));
     p_connections := Some (connections graph) |}.

Coercion pipeline_of_graph : GraphData >-> Pipeline.

Definition cycle_graph (nodes : list PipelineNode) (connections : list ConnectionData)
  : JsMap.t (list string) :=
  fold_left (fun g conn =>
               JsMap.set g (source conn) (neighbors g (source conn) ++ [target conn]))
            connections
            (fold_left (fun g n => JsMap.set g (node_key n) []) nodes []).

(** The recursive [hasCycle]: [visited] and [recStack] are the two shared
    sets, threaded through the calls.  [None] when the fuel runs out. *)
Fixpoint hasCycle (fuel : nat) (graph : JsMap.t (list string)) (nodeId : string)
  (visited recStack : list string) : option (bool * list string * list string) :=
  match fuel with
  | O => None
  | S fuel' =>
      let fix each (ns : list string) (visited recStack : list string) :=
        match ns with
        | [] => Some (false, visited, remove string_dec nodeId recStack)
        | neighbor :: ns' =>
            if negb (includes visited neighbor) then
              match hasCycle fuel' graph neighbor visited recStack with
              | Some (false, visited', recStack') => each ns' visited' recStack'
              | other => other
              end
            else if includes recStack neighbor then Some (true, visited, recStack)
            else each ns' visited recStack
        end in
      each (neighbors graph nodeId) (nodeId :: visited) (nodeId :: recStack)
  end.

(** [for (const nodeId of graph.keys())] with its [break]. *)
Fixpoint any_cycle (fuel : nat) (graph : JsMap.t (list string)) (ids : list string)
  (visited recStack : list string) : option bool :=
  match ids with
  | [] => Some false
  | nodeId :: rest =>
      if negb (includes visited nodeId) then
        match hasCycle fuel graph nodeId visited recStack with
        | Some (true, _, _) => Some true
        | Some (false, visited', recStack') => any_cycle fuel graph rest visited' recStack'
        | None => None
        end
      else any_cycle fuel graph rest visited recStack
  end.

Definition msg_batch_no_nodes : string := "파이프라인에 노드가 없습니다.".
Definition msg_batch_no_dataLoader : string := "DataLoader 노드가 필요합니다.".
Definition msg_batch_cycle : string := "파이프라인에 순환 참조가 있습니다.".
Definition msg_batch_duplicate : string := "중복된 노드 ID가 있습니다.".

(** The list of errors; [None] only if the depth-first search ran out of
    fuel (one unit per key of the graph, plus one, is provided). *)
Definition validatePipeline (pipeline : Pipeline) : option (list string) :=
  if (List.length (pipeline_nodes pipeline) =? 0)%nat then Some [msg_batch_no_nodes]
  else
    let errors1 :=
      if existsb (fun n => match node_kind n with
                           | Some k => (k =? "dataLoader")%string
                           | None => false
                           end)
                 (pipeline_nodes pipeline)
      then [] else [msg_batch_no_dataLoader] in
    let graph := cycle_graph (pipeline_nodes pipeline) (pipeline_connections pipeline) in
    match any_cycle (S (List.length graph)) graph (JsMap.keys graph) [] [] with
    | None => None
    | Some cyc =>
        let errors2 := if cyc then [msg_batch_cycle] else [] in
        let nodeIds := map node_key (pipeline_nodes pipeline) in
        let errors3 :=
          if (List.length nodeIds =? List.length (nodup string_dec nodeIds))%nat then []
          else [msg_batch_duplicate] in
        Some (errors1 ++ errors2 ++ errors3)
    end.

(** * Vocabulary of the statements *)

(** ** Graphs and the scheduler *)

(** The number of keys whose in-degree is still positive. *)
Definition positive_keys (inDegree : JsMap.t Z) : nat :=
  List.length (filter (fun kv => (0 <? snd kv)%Z) inDegree).

(** There is a connection from [u] to [v]. *)
Definition edge (connections : list ConnectionData) (u v : string) : Prop :=
  exists c, In c connections /\ source c = u /\ target c = v.

(** Some node reaches itself along one or more connections. *)
Definition cyclic (connections : list ConnectionData) : Prop :=
  exists v, clos_trans string (edge connections) v v.

(** The invariants of the data model: node ids are unique and both ends of
    every connection are nodes of the graph. *)
Definition well_formed (nodes : list NodeData) (connections : list ConnectionData) : Prop :=
  NoDup (map id nodes) /\
  forall c, In c connections -> In (source c) (map id nodes) /\ In (target c) (map id nodes).

(** [x] occurs before [y] in [l]. *)
Definition precedes {A : Type} (x y : A) (l : list A) : Prop :=
  exists l1 l2 l3, l = l1 ++ x :: l2 ++ y :: l3.

(** The targets of the connections that leave [u], in connection order. *)
Definition out_targets (connections : list ConnectionData) (u : string) : list string :=
  map target (filter (fun c => (source c =? u)%string) connections).

(** The number of connections that enter [v]. *)
Definition in_degree (connections : list ConnectionData) (v : string) : Z :=
  Z.of_nat (List.length (filter (fun c => (target c =? v)%string) connections)).

(** The number of connections into [v] whose source is not yet in [done]. *)
Definition remaining (connections : list ConnectionData) (done : list string) (v : string)
  : Z :=
  Z.of_nat (List.length
    (filter (fun c => (target c =? v)%string && negb (includes done (source c))) connections)).

(** The invariant of the [while] loop of [topologicalSort]: the scheduled
    and the queued ids are distinct nodes of the graph; the map holds, for
    every node, the number of its incoming connections whose source is not
    scheduled yet; a node is scheduled or queued exactly when that number is
    zero; the scheduled prefix respects every connection; and the scheduled
    ids followed by the queue extend the initial queue. *)
Record scheduler_inv (nodes : list NodeData) (connections : list ConnectionData)
  (inDegree : JsMap.t Z) (queue : list string) (sorted : list NodeData) : Prop := {
  inv_nodup : NoDup (map id sorted ++ queue);
  inv_sorted : forall n, In n sorted -> In n nodes;
  inv_queue : forall v, In v queue -> In v (map id nodes);
  inv_degree : forall v, In v (map id nodes) ->
      get_or0 inDegree v = remaining connections (map id sorted) v;
  inv_ready : forall v, In v (map id nodes) ->
      (In v (map id sorted ++ queue) <-> remaining connections (map id sorted) v = 0%Z);
  inv_order : forall c, In c connections -> In (target c) (map id sorted) ->
      precedes (source c) (target c) (map id sorted);
  inv_fifo : exists rest,
      map id sorted ++ queue
      = initial_queue (snd (build_graph nodes connections)) ++ rest
}.

(** [walk l]: consecutive elements of [l] are joined by connections. *)
Inductive walk (connections : list ConnectionData) : list string -> Prop :=
| walk_one v : walk connections [v]
| walk_cons u v l :
    edge connections u v -> walk connections (v :: l) -> walk connections (u :: v :: l).

(** ** Sample hosts, nodes and graphs *)

Definition mk_node (i k : string) : NodeData :=
  {| id := i; label := i; kind := k; controls := None; position := (0%float, 0%float) |}.

Definition mk_conn (s so t ti : string) : ConnectionData :=
  {| conn_id := (s ++ "." ++ so ++ "-" ++ t ++ "." ++ ti)%string;
     source := s; target := t; sourceOutput := so; targetInput := ti |}.

(** The chain A -> B -> C, with the nodes listed in the order C, A, B. *)
Definition chain_nodes : list NodeData :=
  [mk_node "C" "scaler"; mk_node "A" "dataLoader"; mk_node "B" "dataSplit"].
Definition chain_connections : list ConnectionData :=
  [mk_conn "A" "data" "B" "data"; mk_conn "B" "X_train" "C" "X_train"].

(** Two independent nodes X and Y. *)
Definition pair_nodes : list NodeData :=
  [mk_node "X" "dataLoader"; mk_node "Y" "dataLoader"].

(** [Number::toString] on the integral doubles below [1e21], which print as
    their decimal digits; the samples print no other number. *)
Definition integral_to_string (x : float) : string :=
  match Prim2SF x with
  | S754_zero _ => "0"
  | S754_finite s m e =>
      let digits (z : Z) := nat_to_string (Z.to_nat z) in
      ((if s then "-" else EmptyString)
       ++ match e with
          | Z0 => digits (Zpos m)
          | Zpos p => digits (Zpos m * 2 ^ Zpos p)%Z
          | Zneg p => digits (Zpos m / 2 ^ Zpos p)%Z
          end)%string
  | S754_infinity false => "Infinity"
  | S754_infinity true => "-Infinity"
  | S754_nan => "NaN"
  end.

(** A browser host with no stored files.  The samples never parse a string
    as a number and never embed a file, so [StringToNumber] and [btoa_utf8]
    are not reached. *)
Definition sample_host : Host :=
  {| NumberToString := integral_to_string;
     StringToNumber := fun _ => PrimFloat.nan;
     hasWindow := true;
     localStorage_getItem := fun _ => None;
     btoa_utf8 := fun s => s;
     now_ko_KR := "2025. 1. 1. 오전 9:00:00" |}.

(** ** Gate-mode validation *)

(** The ML nodes that [generatePythonCode] keeps. *)
Definition ml_nodes (graph : GraphData) : list NodeData :=
  filter (fun n => includes ml_kinds (kind n)) (nodes graph).

(** Some connection enters input [key] of node [nodeId]. *)
Definition has_input (connections : list ConnectionData) (nodeId key : string) : Prop :=
  exists c, In c connections /\ target c = nodeId /\ targetInput c = key.

Definition is_trainer (k : string) : Prop :=
  k = "classifier" \/ k = "regressor" \/ k = "neuralNet".

(** A pipeline with a cycle between two scalers, fed by a data loader. *)
Definition cyclic_graph : GraphData :=
  {| nodes := [mk_node "A" "dataLoader"; mk_node "B" "scaler"; mk_node "C" "scaler"];
     connections := [mk_conn "A" "data" "B" "X_train";
                     mk_conn "B" "X_train" "C" "X_train";
                     mk_conn "C" "X_train" "B" "X_test"] |}.

(** Two classifiers, each with its feature input only. *)
Definition two_trainers_graph : GraphData :=
  {| nodes := [mk_node "A" "dataLoader"; mk_node "K1" "classifier";
               mk_node "K2" "classifier"];
     connections := [mk_conn "A" "data" "K1" "X_train";
                     mk_conn "A" "data" "K2" "X_train"] |}.

(** A data loader feeding a classifier on [X_train] only. *)
Definition half_trainer_graph : GraphData :=
  {| nodes := [mk_node "A" "dataLoader"; mk_node "K" "classifier"];
     connections := [mk_conn "A" "data" "K" "X_train"] |}.

(** A scaler that only has an outgoing connection. *)
Definition source_only_nodes : list NodeData :=
  [mk_node "A" "dataLoader"; mk_node "B" "scaler"; mk_node "C" "scaler"].
Definition source_only_connections : list ConnectionData :=
  [mk_conn "B" "X_train" "C" "X_train"].

(** ** Reading a generated block *)

(** A line is a comment when its text starts with [#]. *)
Definition is_comment (l : line) : bool :=
  match l with
  | Lit s :: _ => String.prefix "#" s
  | _ => false
  end.

Definition comment_only (b : block) : bool := forallb is_comment b.

Definition statements (b : block) : block := filter (fun l => negb (is_comment l)) b.

(** Some literal chunk of the block contains [pat]. *)
Definition mentions (pat : string) (b : block) : bool :=
  existsb (existsb (fun p => match p with Lit s => contains pat s | Sub _ => false end)) b.

(** The pieces that directly follow a literal chunk ending in [pat]: with
    [pat] the text [".fit("], the first argument of every [.fit] call. *)
Fixpoint args_after_line (pat : string) (l : line) : list piece :=
  match l with
  | [] => []
  | Lit s :: ((a :: _) as rest) =>
      (if ends_with pat s then [a] else []) ++ args_after_line pat rest
  | _ :: rest => args_after_line pat rest
  end.

Definition args_after (pat : string) (b : block) : list piece :=
  flat_map (args_after_line pat) b.

(** The lines of a block whose literal text contains [pat]. *)
Definition lines_with (pat : string) (b : block) : block :=
  filter (existsb (fun p => match p with Lit s => contains pat s | Sub _ => false end)) b.

(** The other lines. *)
Definition lines_without (pat : string) (b : block) : block :=
  filter (fun l => negb (existsb (fun p => match p with
                                           | Lit s => contains pat s
                                           | Sub _ => false
                                           end) l)) b.

(** The interpolated values of a block. *)
Definition subs (b : block) : list string :=
  flat_map (fun p => match p with Sub s => [s] | Lit _ => [] end) (List.concat b).

(** The input sockets that the node classes of the editor declare
    ([addInput] in [rete/app-editor.ts]). *)
Definition declared_inputs (k : string) : list string :=
  if (k =? "dataSplit")%string then ["data"]
  else if (k =? "scaler")%string then ["X_train"; "X_test"]
  else if (k =? "featureSelection")%string then ["X_train"; "y_train"]
  else if (k =? "classifier")%string then ["X_train"; "y_train"]
  else if (k =? "regressor")%string then ["X_train"; "y_train"]
  else if (k =? "neuralNet")%string then ["X_train"; "y_train"]
  else if (k =? "evaluate")%string then ["model"; "X_test"; "y_test"; "prediction"]
  else if (k =? "predict")%string then ["model"; "X_test"]
  else if (k =? "hyperparamTune")%string then ["X_train"; "y_train"]
  else [].

(** A scaler between a split and nothing else, fed on [X_train] only. *)
Definition scaler_connections : list ConnectionData :=
  [mk_conn "A" "data" "S" "data"; mk_conn "S" "X_train" "Z" "X_train"].

(** The same scaler fed on [X_train] and on [X_test]. *)
Definition scaler_connections_both : list ConnectionData :=
  [mk_conn "A" "data" "S" "data"; mk_conn "S" "X_train" "Z" "X_train";
   mk_conn "S" "X_test" "Z" "X_test"].

(** A data loader, a split, and a scaler whose only connected input is
    [X_test]. *)
Definition test_only_scaler_graph : GraphData :=
  {| nodes := [mk_node "A" "dataLoader"; mk_node "S" "dataSplit"; mk_node "Z" "scaler"];
     connections := [mk_conn "A" "data" "S" "data"; mk_conn "S" "X_test" "Z" "X_test"] |}.

(** The kinds whose template starts by testing that both inputs exist. *)
Definition strict_kinds : list string :=
  ["featureSelection"; "classifier"; "regressor"; "neuralNet"; "predict"; "hyperparamTune"].

Definition regression_calls : list string :=
  ["mean_absolute_error("; "mean_squared_error("; "np.sqrt(mean_squared_error(";
   "r2_score("].

Definition classification_calls : list string :=
  ["accuracy_score("; "classification_report("; "confusion_matrix("].

(** The metric functions that the literal text of a block calls. *)
Definition metric_calls (b : block) : list string :=
  filter (fun f => mentions f b) (regression_calls ++ classification_calls).

(** The inputs with which an evaluate node emits metric code: [y_test],
    and either [prediction] or both [model] and [X_test]. *)
Definition evaluate_ready (connections : list ConnectionData) (nodeId : string) : Prop :=
  has_input connections nodeId "y_test"
  /\ (has_input connections nodeId "prediction"
      \/ (has_input connections nodeId "model" /\ has_input connections nodeId "X_test")).

(** A regression pipeline whose evaluator receives the regressor's output
    on its [prediction] input. *)
Definition regression_graph : GraphData :=
  {| nodes := [mk_node "A" "dataLoader"; mk_node "S" "dataSplit";
               mk_node "R" "regressor"; mk_node "E" "evaluate"];
     connections := [mk_conn "A" "data" "S" "data";
                     mk_conn "S" "X_train" "R" "X_train";
                     mk_conn "S" "y_train" "R" "y_train";
                     mk_conn "R" "model" "E" "prediction";
                     mk_conn "S" "y_test" "E" "y_test"] |}.

(** The same pipeline with a predict node between the regressor and the
    evaluator. *)
Definition regression_predict_graph : GraphData :=
  {| nodes := [mk_node "A" "dataLoader"; mk_node "S" "dataSplit";
               mk_node "R" "regressor"; mk_node "P" "predict"; mk_node "E" "evaluate"];
     connections := [mk_conn "A" "data" "S" "data";
                     mk_conn "S" "X_train" "R" "X_train";
                     mk_conn "S" "y_train" "R" "y_train";
                     mk_conn "R" "model" "P" "model";
                     mk_conn "S" "X_test" "P" "X_test";
                     mk_conn "P" "prediction" "E" "prediction";
                     mk_conn "S" "y_test" "E" "y_test"] |}.

Definition evaluate_block (graph : GraphData) : block :=
  nodeToCode_tpl sample_host (mk_node "E" "evaluate") (connections graph)
                 (make_nodeMap (ml_nodes graph)) "step" None.

Definition model_evaluate_connections (trainer : string) : list ConnectionData :=
  [mk_conn trainer "model" "E" "model"; mk_conn "S" "X_test" "E" "X_test";
   mk_conn "S" "y_test" "E" "y_test"].

(** ** Controls, names and results *)

(** Two control values that [||] cannot tell apart. *)
Definition same_or_falsy (v v' : JsValue) : Prop :=
  v = v' \/ (truthy v = false /\ truthy v' = false).

(** A split node whose controls hold a zero ratio and an empty column. *)
Definition zero_ratio_split : NodeData :=
  {| id := "S"; label := "Data Split"; kind := "dataSplit";
     controls := Some [("targetColumn", JStr EmptyString); ("ratio", JNum 0%float)];
     position := (0%float, 0%float) |}.

(** The names that the blocks of [generatePythonCode] receive, in schedule
    order. *)
Definition assigned_names (sortedNodes : list NodeData) : list string :=
  map (varName_of (assign_names sortedNodes)) sortedNodes.

(** A pipeline with a classifier, a regressor, a predict node and an
    evaluate node. *)
Definition two_models_graph : GraphData :=
  {| nodes := [mk_node "A" "dataLoader"; mk_node "S" "dataSplit";
               mk_node "K" "classifier"; mk_node "R" "regressor";
               mk_node "P" "predict"; mk_node "E" "evaluate"];
     connections := [mk_conn "A" "data" "S" "data";
                     mk_conn "S" "X_train" "K" "X_train";
                     mk_conn "S" "y_train" "K" "y_train";
                     mk_conn "S" "X_train" "R" "X_train";
                     mk_conn "S" "y_train" "R" "y_train";
                     mk_conn "K" "model" "P" "model";
                     mk_conn "S" "X_test" "P" "X_test";
                     mk_conn "R" "model" "E" "model";
                     mk_conn "S" "X_test" "E" "X_test";
                     mk_conn "S" "y_test" "E" "y_test"] |}.

Definition three_scalers : list NodeData :=
  [mk_node "Z1" "scaler"; mk_node "Z2" "scaler"; mk_node "Z3" "scaler"].

Definition map_result {A B : Type} (f : A -> B) (r : result A) : result B :=
  match r with
  | Ok a => Ok (f a)
  | Throw e => Throw e
  end.

(** ** More vocabulary for the scheduler *)

(** The position of the first occurrence of [x] in [l] (its length when
    [x] does not occur). *)
Fixpoint index_of (x : string) (l : list string) : nat :=
  match l with
  | [] => 0
  | a :: l' => if string_dec a x then 0 else S (index_of x l')
  end.

(** ** More vocabulary for the variable names *)

(** The number of nodes of kind [k] in [l]. *)
Definition occurrences (k : string) (l : list NodeData) : nat :=
  List.length (filter (fun n => (kind n =? k)%string) l).

Definition is_digit (c : ascii) : bool :=
  let n := nat_of_ascii c in ((48 <=? n) && (n <=? 57))%nat.

(** The name of the node of kind [k] that comes after [i] nodes of that
    kind. *)
Definition name_for (k : string) (i : nat) : string :=
  if (i =? 0)%nat then baseName_of k else (baseName_of k ++ nat_to_string (i + 1))%string.

(** [nodeIndex.get(k) || 0] *)
Definition index_or0 (nodeIndex : JsMap.t nat) (k : string) : nat :=
  match JsMap.get nodeIndex k with Some i => i | None => 0 end.

(** ** More vocabulary for the generated code *)

(** The four names on the left of the [train_test_split] assignment in the
    block of a split that received the name [varName]. *)
Definition split_outputs (varName : string) : list string :=
  [ (varName ++ "_X_train")%string; (varName ++ "_X_test")%string;
    (varName ++ "_y_train")%string; (varName ++ "_y_test")%string ].

(** ** More vocabulary for the imports *)

(** The contents of the [Set] of [generateImports], in insertion order,
    before they are joined. *)
Definition import_lines (nodes : list NodeData) : list string :=
  let imports := ["import pandas as pd"; "import numpy as np"] in
  let hasDataLoader := existsb (fun n => (kind n =? "dataLoader")%string) nodes in
  let imports := if hasDataLoader then fold_left set_add ["import io"; "import base64"] imports
                 else imports in
  fold_left (fun acc node => fold_left set_add (imports_of_kind (kind node)) acc)
            nodes imports.

(** The text of [s] before its first opening parenthesis. *)
Fixpoint before_paren (s : string) : string :=
  match s with
  | EmptyString => EmptyString
  | String c s' => if Ascii.eqb c "(" then EmptyString else String c (before_paren s')
  end.

(** The class that a [modelCode] expression instantiates. *)
Definition constructor_of (l : line) : string :=
  match l with
  | Lit s :: _ => before_paren s
  | _ => EmptyString
  end.

(** The [modelCode] of a trainer node, as its template computes it from
    the controls. *)
Definition modelCode_of (h : Host) (node : NodeData) : line :=
  if (kind node =? "classifier")%string then
    classifier_modelCode (js_or (control node "algorithm") (JStr "RandomForest"))
      (ToString h (js_or (control node "n_estimators") (JNum 100%float)))
  else if (kind node =? "regressor")%string then
    regressor_modelCode (js_or (control node "algorithm") (JStr "LinearRegression"))
  else
    [py "MLPClassifier(hidden_layer_sizes=(";
     Sub (ToString h (js_or (control node "layers") (JStr "64,32")));
     py "), max_iter=";
     Sub (ToString h (js_or (control node "epochs") (JNum 50%float)));
     py ", random_state=42)"].

(** ** More vocabulary for the cycle check *)

(** The [for (const neighbor of neighbors)] loop of [hasCycle], with the
    recursive call as a parameter. *)
Definition dfs_each
  (rec : string -> list string -> list string -> option (bool * list string * list string))
  (nodeId : string) :=
  fix each (ns visited recStack : list string) {struct ns}
    : option (bool * list string * list string) :=
    match ns with
    | [] => Some (false, visited, remove string_dec nodeId recStack)
    | neighbor :: ns' =>
        if negb (includes visited neighbor) then
          match rec neighbor visited recStack with
          | Some (false, visited', recStack') => each ns' visited' recStack'
          | other => other
          end
        else if includes recStack neighbor then Some (true, visited, recStack)
        else each ns' visited recStack
    end.

(** [w] is listed among the neighbours of [u]. *)
Definition dfs_edge (graph : JsMap.t (list string)) (u w : string) : Prop :=
  In w (neighbors graph u).

(** The number of keys of the graph that are not visited yet. *)
Definition unvisited (graph : JsMap.t (list string)) (visited : list string) : nat :=
  List.length (filter (fun k => negb (includes visited k)) (JsMap.keys graph)).

(** A node is finished when it is visited and no longer on the stack. *)
Definition finished (visited recStack : list string) (x : string) : Prop :=
  In x visited /\ ~ In x recStack.

(** The invariant of the search: the stack holds visited nodes only, the
    neighbours of a finished node are finished, and no finished node lies
    on a cycle. *)
Record dfs_inv (graph : JsMap.t (list string)) (visited recStack : list string) : Prop := {
  stack_visited : forall x, In x recStack -> In x visited;
  finished_closed : forall b w,
      finished visited recStack b -> dfs_edge graph b w -> finished visited recStack w;
  finished_acyclic : forall b,
      finished visited recStack b -> ~ clos_trans string (dfs_edge graph) b b
}.

(** What a call [hasCycle(u, visited, recStack)] returns: [true] only when
    the graph has a cycle; [false] with the stack restored, [u] visited and
    the invariant kept. *)
Definition dfs_call_ok (graph : JsMap.t (list string))
  (res : option (bool * list string * list string)) (u : string)
  (visited recStack : list string) : Prop :=
  exists b visited' recStack',
    res = Some (b, visited', recStack')
    /\ (b = true -> exists x, clos_trans string (dfs_edge graph) x x)
    /\ (b = false ->
        recStack' = recStack /\ incl visited visited' /\ In u visited'
        /\ dfs_inv graph visited' recStack).

(** ** More vocabulary for the notebook *)

Definition json_field (k : string) (v : json) : option json :=
  match v with
  | JsonObject fields => JsMap.get fields k
  | _ => None
  end.

Definition json_items (v : option json) : list json :=
  match v with
  | Some (JsonArray items) => items
  | _ => []
  end.

Definition json_text (v : json) : string :=
  match v with
  | JsonString s => s
  | _ => EmptyString
  end.

(** The code cells of a notebook. *)
Definition code_cells (notebook : json) : list json :=
  filter (fun cell => match json_field "cell_type" cell with
                      | Some (JsonString t) => (t =? "code")%string
                      | _ => false
                      end)
         (json_items (json_field "cells" notebook)).

(** The text of a cell: its [source] strings, concatenated. *)
Definition cell_text (cell : json) : string :=
  String.concat EmptyString (map json_text (json_items (json_field "source" cell))).

(** ** More vocabulary for identifiers *)

(** The characters of a Python identifier. *)
Definition is_ident_char (c : ascii) : bool := is_alnum c || Ascii.eqb c "_".

Fixpoint all_chars (p : ascii -> bool) (s : string) : bool :=
  match s with
  | EmptyString => true
  | String c s' => p c && all_chars p s'
  end.

(** ** Two of the quick-start templates ([QuickStartTemplates.jsx]) *)

Definition template_node (i k l : string) (x y : float) (c : list (string * JsValue))
  : NodeData :=
  {| id := i; label := l; kind := k; controls := Some c; position := (x, y) |}.

Definition basic_split : NodeData :=
  template_node "node-2" "dataSplit" "Data Split (데이터 분할)" 300%float 100%float
    [("ratio", JNum 0.8%float); ("targetColumn", JStr "target")].

Definition basic_scaler : NodeData :=
  template_node "node-3" "scaler" "Scaler (정규화)" 550%float 50%float
    [("method", JStr "StandardScaler")].

Definition basic_classifier : NodeData :=
  template_node "node-4" "classifier" "Classifier (분류기)" 800%float 100%float
    [("algorithm", JStr "RandomForest"); ("n_estimators", JNum 100%float)].

Definition tuning_node : NodeData :=
  template_node "node-3" "hyperparamTune"
    "Hyperparameter Tuning (하이퍼파라미터 튜닝)" 550%float 100%float [].

(** The template "basic classification": load, split, scale, classify,
    evaluate. *)
Definition template_basic : GraphData :=
  {| nodes :=
       [ template_node "node-1" "dataLoader" "Data Loader (데이터 로더)" 50%float 100%float
           [("fileName", JStr "data.csv")];
         basic_split;
         basic_scaler;
         basic_classifier;
         template_node "node-5" "evaluate" "Evaluate (평가)" 1050%float 100%float [] ];
     connections :=
       [ mk_conn "node-1" "data" "node-2" "data";
         mk_conn "node-2" "X_train" "node-3" "X_train";
         mk_conn "node-3" "X_train" "node-4" "X_train";
         mk_conn "node-2" "y_train" "node-4" "y_train";
         mk_conn "node-4" "model" "node-5" "model";
         mk_conn "node-2" "X_test" "node-5" "X_test";
         mk_conn "node-2" "y_test" "node-5" "y_test" ] |}.

(** The template "hyperparameter tuning": load, split, tune, evaluate. *)
Definition template_tuning : GraphData :=
  {| nodes :=
       [ template_node "node-1" "dataLoader" "Data Loader (데이터 로더)" 50%float 100%float
           [("fileName", JStr "data.csv")];
         basic_split;
         tuning_node;
         template_node "node-4" "evaluate" "Evaluate (평가)" 850%float 100%float [] ];
     connections :=
       [ mk_conn "node-1" "data" "node-2" "data";
         mk_conn "node-2" "X_train" "node-3" "X_train";
         mk_conn "node-2" "y_train" "node-3" "y_train";
         mk_conn "node-3" "model" "node-4" "model";
         mk_conn "node-2" "X_test" "node-4" "X_test";
         mk_conn "node-2" "y_test" "node-4" "y_test" ] |}.

(** ** The node classes of the editor ([rete/app-editor.ts]) *)

(** What a node class fixes in its constructor: the label passed to
    [super], the [kind], and the keys of its input and output sockets, in
    the order of the [addInput] and [addOutput] calls. *)
Record NodeClass : Type := {
  cls_label : string;
  cls_kind : string;
  cls_inputs : list string;
  cls_outputs : list string
}.

Definition DataLoaderNode : NodeClass :=
  {| cls_label := "Data Loader"; cls_kind := "dataLoader";
     cls_inputs := []; cls_outputs := ["data"] |}.
Definition DataSplitNode : NodeClass :=
  {| cls_label := "Data Split"; cls_kind := "dataSplit";
     cls_inputs := ["data"]; cls_outputs := ["X_train"; "y_train"; "X_test"; "y_test"] |}.
Definition ScalerNode : NodeClass :=
  {| cls_label := "Scaler"; cls_kind := "scaler";
     cls_inputs := ["X_train"; "X_test"]; cls_outputs := ["X_train"; "X_test"] |}.
Definition FeatureSelectionNode : NodeClass :=
  {| cls_label := "Feature Selection"; cls_kind := "featureSelection";
     cls_inputs := ["X_train"; "y_train"]; cls_outputs := ["X_train"] |}.
Definition ClassifierNode : NodeClass :=
  {| cls_label := "Classifier"; cls_kind := "classifier";
     cls_inputs := ["X_train"; "y_train"]; cls_outputs := ["model"] |}.
Definition RegressorNode : NodeClass :=
  {| cls_label := "Regressor"; cls_kind := "regressor";
     cls_inputs := ["X_train"; "y_train"]; cls_outputs := ["model"] |}.
Definition NeuralNetNode : NodeClass :=
  {| cls_label := "Neural Network"; cls_kind := "neuralNet";
     cls_inputs := ["X_train"; "y_train"]; cls_outputs := ["model"] |}.
Definition EvaluateNode : NodeClass :=
  {| cls_label := "Evaluate"; cls_kind := "evaluate";
     cls_inputs := ["model"; "X_test"; "y_test"; "prediction"]; cls_outputs := [] |}.
Definition PredictNode : NodeClass :=
  {| cls_label := "Predict"; cls_kind := "predict";
     cls_inputs := ["model"; "X_test"]; cls_outputs := ["prediction"] |}.
Definition HyperparamTuneNode : NodeClass :=
  {| cls_label := "Hyperparameter Tuning"; cls_kind := "hyperparamTune";
     cls_inputs := ["X_train"; "y_train"]; cls_outputs := ["model"] |}.

(** [createNodeByKind]: the new node, or the message of the [Error] thrown
    in the [default] branch. *)
Definition createNodeByKind (kind : string) : NodeClass + string :=
  if (kind =? "dataLoader")%string then inl DataLoaderNode
  else if (kind =? "dataSplit")%string then inl DataSplitNode
  else if (kind =? "scaler")%string then inl ScalerNode
  else if (kind =? "featureSelection")%string then inl FeatureSelectionNode
  else if (kind =? "classifier")%string then inl ClassifierNode
  else if (kind =? "regressor")%string then inl RegressorNode
  else if (kind =? "neuralNet")%string then inl NeuralNetNode
  else if (kind =? "evaluate")%string then inl EvaluateNode
  else if (kind =? "predict")%string then inl PredictNode
  else if (kind =? "hyperparamTune")%string then inl HyperparamTuneNode
  else inr ("Unknown node kind: " ++ kind)%string.

(** [labelToKind]: [None] is [undefined]. *)
Definition labelToKind (label : string) : option string :=
  if includes ["데이터 로더"; "Data Loader"; "DataLoader"] label then Some "dataLoader"
  else if includes ["데이터 분할"; "Data Split"; "DataSplit"] label then Some "dataSplit"
  else if includes ["정규화"; "Scaler"] label then Some "scaler"
  else if includes ["피처 선택"; "Feature Selection"; "FeatureSelection"] label
  then Some "featureSelection"
  else if includes ["분류기"; "Classifier"] label then Some "classifier"
  else if includes ["회귀"; "Regressor"] label then Some "regressor"
  else if includes ["신경망"; "Neural Network"; "NeuralNet"] label then Some "neuralNet"
  else if includes ["평가"; "Evaluate"] label then Some "evaluate"
  else if includes ["예측"; "Predict"] label then Some "predict"
  else if includes ["하이퍼파라미터 튜닝"; "Hyperparameter Tuning"; "HyperparamTune"] label
  then Some "hyperparamTune"
  else None.

(** The [kind] that [exportGraph] writes: [node.kind || labelToKind(node.label)]. *)
Definition exported_kind (c : NodeClass) : option string :=
  if (cls_kind c =? EmptyString)%string then labelToKind (cls_label c)
  else Some (cls_kind c).

(** * Properties *)

(** ** Lists and maps *)

Lemma includes_In (l : list string) (s : string) : includes l s = true <-> In s l.
Proof.
  unfold includes. rewrite existsb_exists. split.
  - intros [x [Hx He]]. apply String.eqb_eq in He. now subst.
  - intros H. exists s. split; [assumption | apply String.eqb_refl].
Qed.

Lemma includes_false (l : list string) (s : string) : includes l s = false <-> ~ In s l.
Proof.
  rewrite <- includes_In. destruct (includes l s); split; intros; congruence.
Qed.

Lemma includes_app (l1 l2 : list string) (s : string) :
  includes (l1 ++ l2) s = includes l1 s || includes l2 s.
Proof. unfold includes. apply existsb_app. Qed.

Module JsMapFacts.
Import JsMap.

Section Facts.
Context {V : Type}.
Implicit Types (m : t V) (k : string) (v : V).

Lemma get_set_eq m k v : get (set m k v) k = Some v.
Proof.
  induction m as [|[k' v'] m IH]; simpl.
  - now rewrite String.eqb_refl.
  - destruct (String.eqb_spec k' k) as [->|Hne]; simpl.
    + now rewrite String.eqb_refl.
    + destruct (String.eqb_spec k' k); [contradiction | exact IH].
Qed.

Lemma get_set_ne m k k' v : k <> k' -> get (set m k v) k' = get m k'.
Proof.
  intros Hne. induction m as [|[k0 v0] m IH]; simpl.
  - destruct (String.eqb_spec k k'); [contradiction | reflexivity].
  - destruct (String.eqb_spec k0 k) as [->|Hk]; simpl.
    + destruct (String.eqb_spec k k'); [contradiction | reflexivity].
    + destruct (String.eqb_spec k0 k'); [reflexivity | exact IH].
Qed.

Lemma get_Some_In m k v : get m k = Some v -> In k (keys m).
Proof.
  induction m as [|[k' v'] m IH]; simpl; [discriminate|].
  destruct (String.eqb_spec k' k) as [->|Hne]; [now left | right; auto].
Qed.

Lemma get_None_notin m k : get m k = None <-> ~ In k (keys m).
Proof.
  induction m as [|[k' v'] m IH]; simpl; [tauto|].
  destruct (String.eqb_spec k' k) as [->|Hne].
  - split; [discriminate | intros H; exfalso; apply H; now left].
  - rewrite IH. tauto.
Qed.

Lemma In_keys_get m k : In k (keys m) -> exists v, get m k = Some v.
Proof.
  intros H. destruct (get m k) as [v|] eqn:E; [now exists v|].
  apply get_None_notin in E. contradiction.
Qed.

Lemma keys_set_in m k v : In k (keys m) -> keys (set m k v) = keys m.
Proof.
  induction m as [|[k' v'] m IH]; simpl; [tauto|].
  intros H. destruct (String.eqb_spec k' k) as [->|Hne]; simpl; [reflexivity|].
  f_equal. apply IH. destruct H; [contradiction | assumption].
Qed.

Lemma keys_set_notin m k v : ~ In k (keys m) -> keys (set m k v) = keys m ++ [k].
Proof.
  induction m as [|[k' v'] m IH]; simpl; [reflexivity|].
  intros H. destruct (String.eqb_spec k' k) as [->|Hne]; simpl.
  - exfalso. apply H. now left.
  - f_equal. apply IH. tauto.
Qed.

Lemma length_set_in m k v : In k (keys m) -> List.length (set m k v) = List.length m.
Proof.
  intros H. pose proof (f_equal (@List.length _) (keys_set_in m k v H)) as E.
  unfold keys in E. now rewrite !length_map in E.
Qed.

(** The shape of an update at a key that is present. *)
Lemma set_split m k v old :
  get m k = Some old ->
  exists m1 m2, m = m1 ++ (k, old) :: m2 /\ set m k v = m1 ++ (k, v) :: m2.
Proof.
  induction m as [|[k' v'] m IH]; simpl; [discriminate|].
  destruct (String.eqb_spec k' k) as [->|Hne].
  - intros [= ->]. now exists [], m.
  - intros H. destruct (IH H) as (m1 & m2 & -> & E).
    exists ((k', v') :: m1), m2. simpl. now rewrite E.
Qed.

Lemma set_absent m k v : get m k = None -> set m k v = m ++ [(k, v)].
Proof.
  induction m as [|[k' v'] m IH]; simpl; [reflexivity|].
  destruct (String.eqb_spec k' k) as [->|Hne]; [discriminate|].
  intros H. now rewrite IH.
Qed.

End Facts.
End JsMapFacts.
Import JsMapFacts.

Lemma get_or0_set_eq (d : JsMap.t Z) (k : string) (z : Z) :
  get_or0 (JsMap.set d k z) k = z.
Proof. unfold get_or0. now rewrite get_set_eq. Qed.

Lemma get_or0_set_ne (d : JsMap.t Z) (k k' : string) (z : Z) :
  k <> k' -> get_or0 (JsMap.set d k z) k' = get_or0 d k'.
Proof. intros H. unfold get_or0. now rewrite get_set_ne. Qed.

(** ** The scheduler terminates *)

Lemma positive_keys_app (a b : JsMap.t Z) :
  positive_keys (a ++ b) = positive_keys a + positive_keys b.
Proof. unfold positive_keys. now rewrite filter_app, length_app. Qed.

(** A [relax] step moves a key from "positive" to "queued" or leaves both
    counts alone. *)
Lemma relax_measure (inDegree : JsMap.t Z) (queue : list string) (x : string) :
  List.length (snd (relax (inDegree, queue) x)) + positive_keys (fst (relax (inDegree, queue) x))
  = List.length queue + positive_keys inDegree.
Proof.
  unfold relax, get_or0.
  destruct (JsMap.get inDegree x) as [old|] eqn:E.
  - destruct (set_split inDegree x (old - 1)%Z old E) as (m1 & m2 & Hm & Hs).
    cbn [fst snd]. rewrite Hs, Hm, !positive_keys_app.
    change ((x, (old - 1)%Z) :: m2) with ([(x, (old - 1)%Z)] ++ m2).
    change ((x, old) :: m2) with ([(x, old)] ++ m2).
    rewrite !positive_keys_app. unfold positive_keys at 2 5. cbn [filter snd].
    destruct (Z.eqb_spec (old - 1) 0) as [H0|H0].
    + replace old with 1%Z by lia. cbn. rewrite length_app. cbn. lia.
    + destruct (Z.ltb_spec 0 (old - 1)), (Z.ltb_spec 0 old); cbn; lia.
  - cbn [fst snd]. rewrite (set_absent _ _ _ E), positive_keys_app. cbn. lia.
Qed.

Lemma fold_relax_measure (l : list string) (inDegree : JsMap.t Z) (queue : list string) :
  List.length (snd (fold_left relax l (inDegree, queue)))
  + positive_keys (fst (fold_left relax l (inDegree, queue)))
  = List.length queue + positive_keys inDegree.
Proof.
  revert inDegree queue. induction l as [|x l IH]; intros; [reflexivity|].
  cbn [fold_left]. destruct (relax (inDegree, queue) x) as [d1 q1] eqn:E.
  rewrite IH. pose proof (relax_measure inDegree queue x) as H.
  rewrite E in H. exact H.
Qed.

Lemma kahn_loop_fuel graph nodeMap (fuel : nat) :
  forall inDegree queue sorted,
    List.length queue + positive_keys inDegree <= fuel ->
    exists r, kahn_loop graph nodeMap fuel inDegree queue sorted = Some r.
Proof.
  induction fuel as [|fuel IH]; intros d q s Hm.
  - destruct q; [now eexists | cbn in Hm; lia].
  - destruct q as [|u q]; [now eexists|]. cbn [kahn_loop].
    pose proof (fold_relax_measure (neighbors graph u) d q) as Hf.
    destruct (fold_left relax (neighbors graph u) (d, q)) as [d' q'].
    cbn [fst snd] in Hf. apply IH. cbn in Hm. lia.
Qed.

Lemma initial_queue_measure (inDegree : JsMap.t Z) :
  List.length (initial_queue inDegree) + positive_keys inDegree <= List.length inDegree.
Proof.
  unfold initial_queue, positive_keys. rewrite length_map.
  induction inDegree as [|[k z] d IH]; cbn [filter snd List.length]; [lia|].
  destruct (Z.eqb_spec z 0), (Z.ltb_spec 0 z); cbn [List.length]; lia.
Qed.

(** The loop of [topologicalSort] ends with the fuel it is given. *)
Lemma kahn_loop_total (nodes : list NodeData) (connections : list ConnectionData) :
  exists r,
    kahn_loop (fst (build_graph nodes connections)) (make_nodeMap nodes)
              (List.length (snd (build_graph nodes connections)))
              (snd (build_graph nodes connections))
              (initial_queue (snd (build_graph nodes connections))) [] = Some r
    /\ topologicalSort nodes connections = r.
Proof.
  unfold topologicalSort.
  destruct (build_graph nodes connections) as [g d]. cbn [fst snd].
  destruct (kahn_loop_fuel g (make_nodeMap nodes) (List.length d) d (initial_queue d) [])
    as [r Hr]; [apply initial_queue_measure|].
  exists r. now rewrite Hr.
Qed.

(** ** What [build_graph] and [make_nodeMap] compute *)

Lemma init_graph_fold_get (ns : list NodeData) :
  forall (st : JsMap.t (list string) * JsMap.t Z) (k : string),
    let st' := fold_left (fun st node =>
                 (JsMap.set (fst st) (id node) [], JsMap.set (snd st) (id node) 0%Z)) ns st in
    JsMap.get (fst st') k = (if includes (map id ns) k then Some [] else JsMap.get (fst st) k)
    /\ JsMap.get (snd st') k = (if includes (map id ns) k then Some 0%Z else JsMap.get (snd st) k).
Proof.
  induction ns as [|a ns IH]; intros st k; [now split|].
  cbn [fold_left map]. specialize (IH (JsMap.set (fst st) (id a) [], JsMap.set (snd st) (id a) 0%Z) k).
  cbn zeta in *. cbn [fst snd] in IH. destruct IH as [IH1 IH2]. rewrite IH1, IH2.
  unfold includes. cbn [existsb].
  destruct (existsb (fun x => (x =? k)%string) (map id ns)); rewrite ?orb_true_r; [now split|].
  rewrite orb_false_r. destruct (String.eqb_spec (id a) k) as [->|Hne].
  - now rewrite !get_set_eq.
  - now rewrite !get_set_ne.
Qed.

Lemma init_graph_fold_keys (ns : list NodeData) :
  forall (st : JsMap.t (list string) * JsMap.t Z),
    NoDup (JsMap.keys (snd st) ++ map id ns) ->
    JsMap.keys (snd (fold_left (fun st node =>
                 (JsMap.set (fst st) (id node) [], JsMap.set (snd st) (id node) 0%Z)) ns st))
    = JsMap.keys (snd st) ++ map id ns.
Proof.
  induction ns as [|a ns IH]; intros st Hnd; cbn [fold_left map].
  - now rewrite app_nil_r.
  - assert (Hnot : ~ In (id a) (JsMap.keys (snd st))).
    { intros Hin. apply NoDup_remove_2 in Hnd. apply Hnd, in_or_app. now left. }
    rewrite IH; cbn [snd]; rewrite (keys_set_notin _ _ _ Hnot), <- app_assoc; [reflexivity|].
    exact Hnd.
Qed.

Lemma add_connection_fold (cs : list ConnectionData) :
  forall (g : JsMap.t (list string)) (d : JsMap.t Z),
    let st' := fold_left add_connection cs (g, d) in
    (forall v, get_or0 (snd st') v = (get_or0 d v + in_degree cs v)%Z)
    /\ (forall u l, JsMap.get g u = Some l ->
                    JsMap.get (fst st') u = Some (l ++ out_targets cs u))
    /\ ((forall c, In c cs -> In (target c) (JsMap.keys d)) ->
        JsMap.keys (snd st') = JsMap.keys d).
Proof.
  induction cs as [|c cs IH]; intros g d; cbn zeta.
  - cbn. repeat split; intros.
    + unfold in_degree. cbn. lia.
    + now rewrite app_nil_r.
  - cbn [fold_left]. unfold add_connection at 2 4 6.
    set (g1 := match JsMap.get g (source c) with
               | Some targets => JsMap.set g (source c) (targets ++ [target c])
               | None => g end).
    set (d1 := JsMap.set d (target c) (get_or0 d (target c) + 1)%Z).
    specialize (IH g1 d1). cbn zeta in IH. destruct IH as (IHd & IHg & IHk).
    repeat split.
    + intros v. rewrite IHd. unfold in_degree. cbn [filter].
      destruct (String.eqb_spec (target c) v) as [E|Hne].
      * subst d1. rewrite E, get_or0_set_eq. cbn [List.length]. lia.
      * subst d1. rewrite get_or0_set_ne by assumption. lia.
    + intros u l Hu. unfold out_targets. cbn [filter].
      destruct (String.eqb_spec (source c) u) as [E|Hne].
      * assert (Hg1 : JsMap.get g1 u = Some (l ++ [target c])).
        { subst g1. rewrite E, Hu. apply get_set_eq. }
        rewrite (IHg u _ Hg1). cbn [map]. now rewrite <- app_assoc.
      * rewrite (IHg u l); [reflexivity|]. subst g1.
        destruct (JsMap.get g (source c)); [now rewrite get_set_ne | assumption].
    + intros Hin. rewrite IHk.
      * subst d1. apply keys_set_in, Hin. now left.
      * intros c' Hc'. subst d1. rewrite keys_set_in; apply Hin; [now right | now left].
Qed.

Lemma make_nodeMap_fold (ns : list NodeData) :
  forall (m : JsMap.t NodeData) (u : string),
    (In u (map id ns) ->
     exists n, JsMap.get (fold_left (fun m n => JsMap.set m (id n) n) ns m) u = Some n
               /\ id n = u /\ In n ns)
    /\ (~ In u (map id ns) ->
        JsMap.get (fold_left (fun m n => JsMap.set m (id n) n) ns m) u = JsMap.get m u).
Proof.
  induction ns as [|a ns IH]; intros m u; cbn [fold_left map].
  - split; [intros [] | reflexivity].
  - destruct (IH (JsMap.set m (id a) a) u) as [IH1 IH2]. split.
    + intros Hin. destruct (in_dec string_dec u (map id ns)) as [Hu|Hu].
      * destruct (IH1 Hu) as (n & Hn & Hid & Hnin). exists n. repeat split; auto. now right.
      * destruct Hin as [<-|Hin]; [|contradiction].
        exists a. rewrite (IH2 Hu), get_set_eq. repeat split. now left.
    + intros Hnot. rewrite IH2 by (intros H; apply Hnot; now right).
      apply get_set_ne. intros E. apply Hnot. now left.
Qed.

Section BuiltGraph.
Variable nodes : list NodeData.
Variable connections : list ConnectionData.
Hypothesis Hwf : well_formed nodes connections.

Lemma built_neighbors (u : string) :
  In u (map id nodes) ->
  neighbors (fst (build_graph nodes connections)) u = out_targets connections u.
Proof.
  intros Hu. unfold build_graph, neighbors.
  destruct (init_graph nodes) as [g d] eqn:E.
  pose proof (init_graph_fold_get nodes ([], []) u) as [Hg _]. cbn zeta in Hg.
  fold (init_graph nodes) in Hg. rewrite E in Hg. cbn [fst] in Hg.
  apply includes_In in Hu. rewrite Hu in Hg.
  destruct (add_connection_fold connections g d) as (_ & H & _).
  now rewrite (H u [] Hg).
Qed.

Lemma built_in_degree (v : string) :
  In v (map id nodes) ->
  get_or0 (snd (build_graph nodes connections)) v = in_degree connections v.
Proof.
  intros Hv. unfold build_graph.
  destruct (init_graph nodes) as [g d] eqn:E.
  destruct (add_connection_fold connections g d) as (H & _ & _). rewrite H.
  pose proof (init_graph_fold_get nodes ([], []) v) as [_ Hd]. cbn zeta in Hd.
  fold (init_graph nodes) in Hd. rewrite E in Hd. cbn [snd] in Hd.
  apply includes_In in Hv. rewrite Hv in Hd. unfold get_or0. rewrite Hd. lia.
Qed.

Lemma built_keys : JsMap.keys (snd (build_graph nodes connections)) = map id nodes.
Proof.
  unfold build_graph. destruct (init_graph nodes) as [g d] eqn:E.
  assert (Hk : JsMap.keys d = map id nodes).
  { pose proof (init_graph_fold_keys nodes ([], [])) as H. cbn [snd JsMap.keys map app] in H.
    fold (init_graph nodes) in H. rewrite E in H. apply H, Hwf. }
  destruct (add_connection_fold connections g d) as (_ & _ & H). rewrite H; [exact Hk|].
  intros c Hc. rewrite Hk. now apply Hwf.
Qed.

Lemma built_nodeMap (u : string) :
  In u (map id nodes) ->
  exists n, JsMap.get (make_nodeMap nodes) u = Some n /\ id n = u /\ In n nodes.
Proof. intros Hu. now apply (make_nodeMap_fold nodes [] u). Qed.

End BuiltGraph.

(** ** Remaining in-degrees *)

Lemma remaining_nil connections v : remaining connections [] v = in_degree connections v.
Proof.
  unfold remaining, in_degree. do 2 f_equal. apply filter_ext. intros c.
  cbn. now rewrite andb_true_r.
Qed.

Lemma remaining_snoc_nat connections done u v :
  ~ In u done ->
  List.length (filter (fun c => (target c =? v)%string
                                && negb (includes (done ++ [u]) (source c))) connections)
  + count_occ string_dec (out_targets connections u) v
  = List.length (filter (fun c => (target c =? v)%string
                                  && negb (includes done (source c))) connections).
Proof.
  intros Hu. unfold out_targets.
  induction connections as [|c cs IH]; [reflexivity|].
  cbn [filter]. rewrite includes_app. cbn [includes existsb]. rewrite orb_false_r.
  rewrite (String.eqb_sym u (source c)).
  destruct (String.eqb_spec (source c) u) as [E|Hne].
  - assert (Hd : includes done (source c) = false) by (rewrite E; now apply includes_false).
    rewrite Hd, orb_true_r. cbn [negb andb map]. rewrite andb_false_r, andb_true_r.
    destruct (String.eqb_spec (target c) v) as [Et|Hnt]; cbn [List.length].
    + rewrite count_occ_cons_eq by assumption. lia.
    + rewrite count_occ_cons_neq by assumption. exact IH.
  - rewrite orb_false_r.
    destruct ((target c =? v)%string && negb (includes done (source c)));
      cbn [List.length]; lia.
Qed.

Lemma remaining_snoc connections done u v :
  ~ In u done ->
  remaining connections (done ++ [u]) v
  = (remaining connections done v
     - Z.of_nat (count_occ string_dec (out_targets connections u) v))%Z.
Proof.
  intros Hu. unfold remaining. pose proof (remaining_snoc_nat connections done u v Hu). lia.
Qed.

Lemma remaining_zero connections done v :
  remaining connections done v = 0%Z ->
  forall c, In c connections -> target c = v -> In (source c) done.
Proof.
  unfold remaining. intros H c Hc Ht.
  destruct (in_dec string_dec (source c) done) as [Hin|Hnot]; [assumption|].
  assert (Hf : In c (filter (fun c => (target c =? v)%string
                                      && negb (includes done (source c))) connections)).
  { apply filter_In. split; [assumption|].
    apply includes_false in Hnot. rewrite Hnot, Ht, String.eqb_refl. reflexivity. }
  destruct (filter _ connections); [destruct Hf | cbn in H; lia].
Qed.

Lemma remaining_nonzero connections done v :
  remaining connections done v <> 0%Z ->
  exists c, In c connections /\ target c = v /\ ~ In (source c) done.
Proof.
  unfold remaining. intros H.
  destruct (filter _ connections) as [|c l] eqn:E; [now cbn in H|].
  assert (Hc : In c (filter (fun c => (target c =? v)%string
                                      && negb (includes done (source c))) connections))
    by (rewrite E; now left).
  apply filter_In in Hc. destruct Hc as [Hc Hp]. apply andb_prop in Hp.
  destruct Hp as [Ht Hs]. exists c. repeat split; [assumption | now apply String.eqb_eq |].
  apply includes_false. now destruct (includes done (source c)).
Qed.

Lemma in_out_targets connections u v :
  In v (out_targets connections u) <-> edge connections u v.
Proof.
  unfold out_targets, edge. rewrite in_map_iff. split.
  - intros (c & Ht & Hc). apply filter_In in Hc. destruct Hc as [Hc Hs].
    exists c. repeat split; [assumption | now apply String.eqb_eq | assumption].
  - intros (c & Hc & Hs & Ht). exists c. split; [assumption|].
    apply filter_In. split; [assumption | now apply String.eqb_eq].
Qed.

(** ** One pass over the neighbours *)

Lemma relax_fold (l : list string) :
  forall (inDegree : JsMap.t Z) (queue : list string),
    (forall v, In v l -> (Z.of_nat (count_occ string_dec l v) <= get_or0 inDegree v)%Z) ->
    exists added,
      snd (fold_left relax l (inDegree, queue)) = queue ++ added
      /\ NoDup added
      /\ (forall v, In v added <->
                    In v l /\ get_or0 inDegree v = Z.of_nat (count_occ string_dec l v))
      /\ (forall v, get_or0 (fst (fold_left relax l (inDegree, queue))) v
                    = (get_or0 inDegree v - Z.of_nat (count_occ string_dec l v))%Z).
Proof.
  induction l as [|x l IH]; intros d q Hle.
  - exists []. cbn. rewrite app_nil_r.
    split; [reflexivity|]. split; [constructor|]. split; [|intros; lia].
    intros v. split; [intros [] | intros [[] _]].
  - cbn [fold_left]. unfold relax at 2 4.
    set (g := get_or0 d x). set (d1 := JsMap.set d x (g - 1)%Z).
    set (q1 := if (g - 1 =? 0)%Z then q ++ [x] else q).
    assert (Hgx : (1 + Z.of_nat (count_occ string_dec l x) <= g)%Z).
    { specialize (Hle x (or_introl eq_refl)). rewrite count_occ_cons_eq in Hle by reflexivity.
      subst g. lia. }
    assert (Hd1 : forall v, get_or0 d1 v = if string_dec x v then (g - 1)%Z else get_or0 d v).
    { intros v. subst d1. destruct (string_dec x v) as [<-|Hne].
      - apply get_or0_set_eq. - now apply get_or0_set_ne. }
    destruct (IH d1 q1) as (added & Hq & Hnd & Hin & Hget).
    { intros v Hv. rewrite Hd1. destruct (string_dec x v) as [<-|Hne]; [lia|].
      specialize (Hle v (or_intror Hv)). rewrite count_occ_cons_neq in Hle by assumption.
      exact Hle. }
    assert (Hcount : forall v, Z.of_nat (count_occ string_dec (x :: l) v)
                     = ((if string_dec x v then 1 else 0)
                        + Z.of_nat (count_occ string_dec l v))%Z).
    { intros v. destruct (string_dec x v) as [E|Hne].
      - rewrite count_occ_cons_eq by assumption. lia.
      - rewrite count_occ_cons_neq by assumption. lia. }
    assert (Hxl : forall v, In v l <-> (0 < Z.of_nat (count_occ string_dec l v))%Z).
    { intros v. rewrite (count_occ_In string_dec). lia. }
    destruct (Z.eqb_spec (g - 1) 0) as [Hz|Hnz].
    + exists (x :: added). subst q1. rewrite Hq, <- app_assoc. split; [reflexivity|].
      assert (Hxa : ~ In x added).
      { intros Hx. apply Hin in Hx. destruct Hx as [Hx He]. rewrite Hd1 in He.
        apply Hxl in Hx. destruct (string_dec x x); [lia | congruence]. }
      split; [now constructor|]. split.
      * intros v. rewrite Hcount. cbn [In]. rewrite Hin, Hd1.
        destruct (string_dec x v) as [E|Hne].
        -- subst v. fold g. split; [intros _ | now left].
           split; [now left | lia].
        -- split.
           ++ intros [E|[Hv He]]; [contradiction|]. split; [now right | lia].
           ++ intros [[E|Hv] He]; [contradiction|]. right. split; [assumption | lia].
      * intros v. rewrite Hget, Hd1, Hcount. fold g. destruct (string_dec x v); subst; lia.
    + exists added. subst q1. split; [exact Hq|]. split; [exact Hnd|]. split.
      * intros v. rewrite Hcount. cbn [In]. rewrite Hin, Hd1.
        destruct (string_dec x v) as [E|Hne].
        -- subst v. fold g. split.
           ++ intros [Hv He]. split; [now right | lia].
           ++ intros [_ He]. split; [apply Hxl; lia | lia].
        -- split.
           ++ intros [Hv He]. split; [now right | lia].
           ++ intros [[E|Hv] He]; [contradiction|]. split; [assumption | lia].
      * intros v. rewrite Hget, Hd1, Hcount. fold g. destruct (string_dec x v); subst; lia.
Qed.

(** ** A finite graph in which every node has a predecessor has a cycle *)

Lemma walk_suffix connections (l1 l2 : list string) :
  l2 <> [] -> walk connections (l1 ++ l2) -> walk connections l2.
Proof.
  intros Hne. induction l1 as [|a l1 IH]; intros H; [exact H|].
  apply IH. cbn in H. inversion H as [v Hv|u v l He Hw Hl].
  - destruct l1; [contradiction Hne; now destruct l2 | discriminate].
  - exact Hw.
Qed.

Lemma walk_clos_trans connections (l : list string) :
  forall x y, walk connections (x :: l ++ [y]) -> clos_trans string (edge connections) x y.
Proof.
  induction l as [|a l IH]; intros x y H; inversion H as [|u v l' He Hw]; subst.
  - now apply t_step.
  - eapply t_trans; [apply t_step; exact He | now apply IH].
Qed.

Lemma walk_prefix connections (l1 l2 : list string) :
  l1 <> [] -> walk connections (l1 ++ l2) -> walk connections l1.
Proof.
  revert l2. induction l1 as [|a l1 IH]; intros l2 Hne H; [contradiction|].
  destruct l1 as [|b l1]; [constructor|].
  cbn in H. inversion H as [|u v l He Hw]; subst.
  constructor; [assumption|]. apply (IH l2); [discriminate | exact Hw].
Qed.

Lemma backward_walk connections (U : list string) :
  (forall v, In v U -> exists u, In u U /\ edge connections u v) ->
  forall n v, In v U ->
    exists l, walk connections l /\ List.length l = S n /\ (forall x, In x l -> In x U).
Proof.
  intros Hpred n. induction n as [|n IH]; intros v Hv.
  - exists [v]. repeat split; [constructor|]. intros x [<-|[]]. exact Hv.
  - destruct (IH v Hv) as (l & Hw & Hlen & Hin).
    destruct l as [|a l]; [discriminate|].
    destruct (Hpred a (Hin a (or_introl eq_refl))) as (u & Hu & He).
    exists (u :: a :: l). repeat split.
    + now constructor.
    + cbn in *. lia.
    + intros x [<-|Hx]; [exact Hu | now apply Hin].
Qed.

Lemma no_source_cyclic connections (U : list string) :
  U <> [] ->
  (forall v, In v U -> exists u, In u U /\ edge connections u v) ->
  cyclic connections.
Proof.
  intros Hne Hpred. destruct U as [|v0 U0] eqn:EU; [contradiction|]. rewrite <- EU in *.
  assert (Hv0 : In v0 U) by (rewrite EU; now left).
  destruct (backward_walk connections U Hpred (List.length U) v0 Hv0) as (l & Hw & Hlen & Hin).
  assert (Hdup : ~ NoDup l).
  { intros Hnd. pose proof (NoDup_incl_length Hnd Hin). lia. }
  apply ListDec.not_NoDup in Hdup;
    [|intros x y; destruct (string_dec x y); [now left | now right]].
  destruct Hdup as (a & l1 & l2 & l3 & ->).
  exists a. apply (walk_clos_trans connections l2).
  apply walk_suffix in Hw; [|discriminate].
  change (a :: l2 ++ a :: l3) with ((a :: l2) ++ a :: l3) in Hw.
  replace ((a :: l2) ++ a :: l3) with ((a :: l2 ++ [a]) ++ l3) in Hw
    by (cbn; now rewrite <- app_assoc).
  apply walk_prefix in Hw; [exact Hw | discriminate].
Qed.

(** ** The loop invariant of the scheduler *)

Lemma precedes_app_r {A : Type} (x y : A) (l l' : list A) :
  precedes x y l -> precedes x y (l ++ l').
Proof.
  intros (l1 & l2 & l3 & ->). exists l1, l2, (l3 ++ l').
  now rewrite <- !app_assoc, <- !app_comm_cons, <- app_assoc.
Qed.

Lemma NoDup_map_inj {A B : Type} (f : A -> B) (l : list A) :
  NoDup (map f l) -> forall x y, In x l -> In y l -> f x = f y -> x = y.
Proof.
  induction l as [|a l IH]; cbn; intros Hnd x y Hx Hy E; [contradiction|].
  inversion Hnd as [|? ? Hnot Hnd']; subst.
  destruct Hx as [<-|Hx], Hy as [<-|Hy]; auto.
  - exfalso. apply Hnot. rewrite E. now apply in_map.
  - exfalso. apply Hnot. rewrite <- E. now apply in_map.
Qed.

Lemma initial_queue_filter (inDegree : JsMap.t Z) :
  NoDup (JsMap.keys inDegree) ->
  initial_queue inDegree
  = filter (fun k => (get_or0 inDegree k =? 0)%Z) (JsMap.keys inDegree).
Proof.
  unfold initial_queue, JsMap.keys, get_or0.
  induction inDegree as [|[k z] d IH]; intros Hnd; [reflexivity|].
  cbn [map filter fst snd JsMap.get] in *. rewrite String.eqb_refl.
  inversion Hnd as [|? ? Hnot Hnd']; subst.
  assert (E : filter (fun k0 => (match (if (k =? k0)%string then Some z else JsMap.get d k0)
                                 with Some d0 => d0 | None => 0 end =? 0)%Z) (map fst d)
              = filter (fun k0 => (match JsMap.get d k0 with Some d0 => d0 | None => 0 end
                                   =? 0)%Z) (map fst d)).
  { apply filter_ext_in. intros k0 Hk0.
    destruct (String.eqb_spec k k0) as [->|Hne]; [contradiction | reflexivity]. }
  rewrite E. destruct (z =? 0)%Z; cbn [map fst]; now rewrite IH.
Qed.

Section Scheduler.
Variable nodes : list NodeData.
Variable connections : list ConnectionData.
Hypothesis Hwf : well_formed nodes connections.

Let graph := fst (build_graph nodes connections).
Let nodeMap := make_nodeMap nodes.
Let queue0 := initial_queue (snd (build_graph nodes connections)).

Lemma queue0_filter :
  queue0 = filter (fun v => (in_degree connections v =? 0)%Z) (map id nodes).
Proof.
  subst queue0. rewrite initial_queue_filter; rewrite (built_keys nodes connections Hwf).
  - apply filter_ext_in. intros v Hv. now rewrite (built_in_degree nodes connections v Hv).
  - apply Hwf.
Qed.

Lemma inv_initial :
  scheduler_inv nodes connections (snd (build_graph nodes connections)) queue0 [].
Proof.
  pose proof queue0_filter as Hq. constructor; cbn [map app].
  - rewrite Hq. apply NoDup_filter, Hwf.
  - intros n [].
  - intros v Hv. rewrite Hq in Hv. now apply filter_In in Hv.
  - intros v Hv. rewrite remaining_nil. now apply built_in_degree.
  - intros v Hv. rewrite remaining_nil, Hq, filter_In. rewrite Z.eqb_eq. tauto.
  - intros c _ [].
  - exists []. now rewrite app_nil_r.
Qed.

Lemma inv_step inDegree u queue sorted n :
  scheduler_inv nodes connections inDegree (u :: queue) sorted ->
  id n = u -> In n nodes ->
  scheduler_inv nodes connections
    (fst (fold_left relax (out_targets connections u) (inDegree, queue)))
    (snd (fold_left relax (out_targets connections u) (inDegree, queue)))
    (sorted ++ [n]).
Proof.
  intros [Hnd Hs Hq Hdeg Hready Hord Hfifo] Hid Hn.
  set (done := map id sorted) in *.
  assert (Hu : ~ In u done).
  { apply NoDup_remove_2 in Hnd. intros H. apply Hnd, in_or_app. now left. }
  assert (Htgt : forall v, In v (out_targets connections u) -> In v (map id nodes)).
  { intros v Hv. apply in_out_targets in Hv. destruct Hv as (c & Hc & _ & <-).
    now apply Hwf. }
  assert (Hcnt : forall v, (0 <= Z.of_nat (count_occ string_dec (out_targets connections u) v)
                            <= remaining connections done v)%Z).
  { intros v. unfold remaining.
    pose proof (remaining_snoc_nat connections done u v Hu). lia. }
  destruct (relax_fold (out_targets connections u) inDegree queue)
    as (added & Eq & Hadd_nd & Hadd & Hget).
  { intros v Hv. rewrite Hdeg by auto. apply Hcnt. }
  rewrite Eq.
  assert (Hmap : map id (sorted ++ [n]) = done ++ [u]).
  { rewrite map_app. cbn. now rewrite Hid. }
  assert (Hadd_new : forall v, In v added -> ~ In v (done ++ u :: queue)).
  { intros v Hv Hin. apply Hadd in Hv. destruct Hv as [Hv He].
    rewrite Hdeg in He by auto. apply Hready in Hin; [|auto].
    apply (count_occ_In string_dec) in Hv. lia. }
  assert (E1 : (done ++ [u]) ++ queue ++ added = (done ++ u :: queue) ++ added).
  { rewrite <- !app_assoc. reflexivity. }
  constructor; rewrite ?Hmap, ?E1.
  - apply NoDup_app; [exact Hnd | exact Hadd_nd|].
    intros a Ha Ha'. now apply (Hadd_new a).
  - intros x Hx. apply in_app_or in Hx. destruct Hx as [Hx|[<-|[]]]; auto.
  - intros v Hv. apply in_app_or in Hv. destruct Hv as [Hv|Hv].
    + apply Hq. now right.
    + apply Htgt. now apply Hadd.
  - intros v Hv. rewrite Hget, Hdeg by assumption. now rewrite remaining_snoc.
  - intros v Hv. rewrite remaining_snoc by assumption. specialize (Hcnt v).
    specialize (Hready v Hv). split.
    + intros Hin. apply in_app_or in Hin. destruct Hin as [Hin|Hin].
      * apply Hready in Hin. lia.
      * apply Hadd in Hin. destruct Hin as [_ He]. rewrite Hdeg in He by assumption. lia.
    + intros Hz. apply in_or_app.
      destruct (Z.eq_dec (remaining connections done v) 0) as [E|E].
      * left. now apply Hready.
      * right. apply Hadd. split.
        -- apply (count_occ_In string_dec). lia.
        -- rewrite Hdeg by assumption. lia.
  - intros c Hc Ht. apply in_app_or in Ht. destruct Ht as [Ht|[Ht|[]]].
    + apply precedes_app_r. now apply Hord.
    + assert (Hru : remaining connections done u = 0%Z).
      { apply Hready; [apply Hq; now left | apply in_or_app; right; now left]. }
      pose proof (remaining_zero connections done u Hru c Hc (eq_sym Ht)) as Hsrc.
      apply in_split in Hsrc. destruct Hsrc as (l1 & l2 & E).
      exists l1, l2, []. rewrite E, <- Ht, <- app_assoc. reflexivity.
  - destruct Hfifo as [rest Hrest]. exists (rest ++ added).
    now rewrite Hrest, app_assoc.
Qed.

Lemma kahn_loop_inv (fuel : nat) :
  forall inDegree queue sorted r,
    scheduler_inv nodes connections inDegree queue sorted ->
    kahn_loop graph nodeMap fuel inDegree queue sorted = Some r ->
    exists inDegree', scheduler_inv nodes connections inDegree' [] r.
Proof.
  induction fuel as [|fuel IH]; intros d q s r Hinv Hr.
  - destruct q; [|discriminate]. injection Hr as <-. now exists d.
  - destruct q as [|u q]; [injection Hr as <-; now exists d|].
    cbn [kahn_loop] in Hr.
    assert (Hu : In u (map id nodes)) by (apply (inv_queue _ _ _ _ _ Hinv); now left).
    destruct (built_nodeMap nodes u Hu) as (n & Hget & Hid & Hn).
    subst nodeMap. rewrite Hget in Hr.
    subst graph. rewrite (built_neighbors nodes connections u Hu) in Hr.
    pose proof (inv_step d u q s n Hinv Hid Hn) as Hstep.
    destruct (fold_left relax (out_targets connections u) (d, q)) as [d' q'].
    cbn [fst snd] in Hstep. exact (IH d' q' (s ++ [n]) r Hstep Hr).
Qed.

(** What the invariant gives when the queue is empty and the graph has no
    cycle. *)
Lemma inv_final inDegree r :
  ~ cyclic connections ->
  scheduler_inv nodes connections inDegree [] r ->
  Permutation r nodes
  /\ (forall c, In c connections -> precedes (source c) (target c) (map id r))
  /\ exists rest, map id r = queue0 ++ rest.
Proof.
  intros Hacyc [Hnd Hs _ _ Hready Hord Hfifo]. rewrite app_nil_r in *.
  assert (Hall : forall v, In v (map id nodes) -> In v (map id r)).
  { set (U := filter (fun v => negb (includes (map id r) v)) (map id nodes)).
    assert (HU : forall v, In v U <-> In v (map id nodes) /\ ~ In v (map id r)).
    { intros v. unfold U. rewrite filter_In, negb_true_iff, includes_false. tauto. }
    destruct U as [|v0 U0] eqn:EU.
    - intros v Hv. destruct (in_dec string_dec v (map id r)) as [H|H]; [exact H|].
      exfalso. apply (proj2 (HU v)). now split.
    - exfalso. apply Hacyc. apply (no_source_cyclic connections (v0 :: U0)); [discriminate|].
      intros v Hv. apply HU in Hv. destruct Hv as [Hv Hnot].
      destruct (remaining_nonzero connections (map id r) v) as (c & Hc & Ht & Hsrc).
      { intros Hz. apply Hnot. now apply Hready. }
      exists (source c). split.
      + apply HU. split; [now apply Hwf | exact Hsrc].
      + now exists c. }
  split; [|split].
  - apply NoDup_Permutation.
    + now apply NoDup_map_inv in Hnd.
    + destruct Hwf as [H _]. now apply NoDup_map_inv in H.
    + intros n. split; [apply Hs|]. intros Hn.
      pose proof (Hall (id n) (in_map id nodes n Hn)) as Hin.
      apply in_map_iff in Hin. destruct Hin as (n' & E & Hn').
      destruct Hwf as [Hnodup _].
      now rewrite <- (NoDup_map_inj id nodes Hnodup n' n (Hs n' Hn') Hn E).
  - intros c Hc. apply Hord; [assumption|]. apply Hall. now apply Hwf.
  - exact Hfifo.
Qed.

End Scheduler.

Lemma ranked_acyclic connections (rank : string -> nat) :
  (forall c, In c connections -> rank (source c) < rank (target c)) ->
  ~ cyclic connections.
Proof.
  intros Hrank [v Hv].
  assert (H : forall x y, clos_trans string (edge connections) x y -> rank x < rank y).
  { intros x y Hxy. induction Hxy as [x y (c & Hc & <- & <-)|x y z _ IH1 _ IH2].
    - now apply Hrank.
    - lia. }
  specialize (H v v Hv). lia.
Qed.

(** C2: on a well-formed graph without a cycle, [topologicalSort] returns
    a permutation of the nodes in which the source of every connection comes
    before its target, and which starts with the zero-in-degree nodes in
    insertion order (the seed of the FIFO queue).  The chain A -> B -> C
    listed as C, A, B is scheduled as A, B, C, and two independent nodes
    keep their insertion order. *)
Theorem topologicalSort_kahn :
  (forall nodes connections,
      well_formed nodes connections ->
      ~ cyclic connections ->
      Permutation (topologicalSort nodes connections) nodes
      /\ (forall c, In c connections ->
                    precedes (source c) (target c)
                             (map id (topologicalSort nodes connections)))
      /\ exists rest,
          map id (topologicalSort nodes connections)
          = filter (fun v => (in_degree connections v =? 0)%Z) (map id nodes) ++ rest)
  /\ map id (topologicalSort chain_nodes chain_connections) = ["A"; "B"; "C"]
  /\ map id (topologicalSort pair_nodes []) = ["X"; "Y"].
Proof.
  split; [|split; reflexivity].
  intros nodes connections Hwf Hacyc.
  destruct (kahn_loop_total nodes connections) as (r & Hr & ->).
  destruct (kahn_loop_inv nodes connections Hwf _ _ _ _ r
              (inv_initial nodes connections Hwf) Hr) as [d Hinv].
  rewrite <- (queue0_filter nodes connections Hwf).
  exact (inv_final nodes connections Hwf d r Hacyc Hinv).
Qed.

Lemma topologicalSort_kahn_witness :
  well_formed chain_nodes chain_connections
  /\ ~ cyclic chain_connections
  /\ Permutation (topologicalSort chain_nodes chain_connections) chain_nodes.
Proof.
  assert (Hwf : well_formed chain_nodes chain_connections).
  { split.
    - cbn. repeat constructor; cbn; intuition discriminate.
    - intros c [<-|[<-|[]]]; cbn; intuition. }
  assert (Hacyc : ~ cyclic chain_connections).
  { apply (ranked_acyclic _ (fun s => if (s =? "A")%string then 0
                                      else if (s =? "B")%string then 1 else 2)).
    intros c [<-|[<-|[]]]; cbn; lia. }
  split; [exact Hwf|]. split; [exact Hacyc|].
  exact (proj1 (proj1 topologicalSort_kahn chain_nodes chain_connections Hwf Hacyc)).
Defined.

(** The invariants of the data model are needed: a connection whose source
    is not a node of the graph leaves its target unscheduled, and of two
    nodes with one id only one is scheduled. *)
Remark ill_formed_graphs_lose_nodes :
  topologicalSort [mk_node "B" "scaler"] [mk_conn "X" "data" "B" "X_train"] = []
  /\ topologicalSort [mk_node "A" "dataLoader"; mk_node "A" "scaler"] []
     = [mk_node "A" "scaler"].
Proof. split; reflexivity. Qed.

(** ** Gate-mode validation *)

Lemma find_input_None connections nodeId key :
  find_input connections nodeId key = None <-> ~ has_input connections nodeId key.
Proof.
  unfold find_input, has_input. split.
  - intros H (c & Hc & Ht & Hi).
    pose proof (find_none _ _ H c Hc) as Hf. cbn in Hf.
    rewrite Ht, Hi, !String.eqb_refl in Hf. discriminate.
  - intros H. destruct (find _ connections) as [c|] eqn:E; [|reflexivity].
    apply find_some in E. destruct E as [Hc Hp]. apply andb_prop in Hp.
    destruct Hp as [Ht Hi]. apply String.eqb_eq in Ht, Hi. exfalso. apply H. now exists c.
Qed.

Lemma classic_has_input connections nodeId key :
  has_input connections nodeId key \/ ~ has_input connections nodeId key.
Proof.
  destruct (find_input connections nodeId key) eqn:E.
  - left. unfold find_input in E. apply find_some in E. destruct E as [Hc Hp].
    apply andb_prop in Hp. destruct Hp as [Ht Hi]. apply String.eqb_eq in Ht, Hi.
    now exists c.
  - right. now apply find_input_None.
Qed.

Lemma incoming_some connections nodeId key :
  existsb (fun c => (targetInput c =? key)%string)
          (filter (fun c => (target c =? nodeId)%string) connections) = true
  <-> has_input connections nodeId key.
Proof.
  unfold has_input. rewrite existsb_exists. split.
  - intros (c & Hc & Hi). apply filter_In in Hc. destruct Hc as [Hc Ht].
    exists c. repeat split; [assumption | now apply String.eqb_eq..].
  - intros (c & Hc & Ht & Hi). exists c. split.
    + apply filter_In. split; [assumption | now apply String.eqb_eq].
    + now apply String.eqb_eq.
Qed.

Lemma is_trainer_includes k :
  is_trainer k -> includes ["classifier"; "regressor"; "neuralNet"] k = true.
Proof. intros [-> | [-> | ->]]; reflexivity. Qed.

Lemma is_trainer_ml k : is_trainer k -> includes ml_kinds k = true.
Proof. intros [-> | [-> | ->]]; reflexivity. Qed.

(** A trainer that lacks one of its two inputs fails the third check. *)
Lemma check_required_trainer connections n :
  is_trainer (kind n) ->
  ~ has_input connections (id n) "X_train" \/ ~ has_input connections (id n) "y_train" ->
  check_required connections n = Some (PipelineValidationError (msg_model (label n))).
Proof.
  intros Hk Hmiss. unfold check_required.
  assert (Hns : (kind n =? "dataSplit")%string = false)
    by (destruct Hk as [-> | [-> | ->]]; reflexivity).
  rewrite Hns, (is_trainer_includes _ Hk). cbn [andb].
  assert (E : negb (existsb (fun c => (targetInput c =? "X_train")%string)
                      (filter (fun c => (target c =? id n)%string) connections))
              || negb (existsb (fun c => (targetInput c =? "y_train")%string)
                         (filter (fun c => (target c =? id n)%string) connections)) = true).
  { apply orb_true_iff. destruct Hmiss as [H|H]; [left | right];
      apply negb_true_iff; rewrite <- incoming_some in H;
      now destruct (existsb _ _). }
  now rewrite E.
Qed.

(** The loop of the third check stops at the first node that fails. *)
Lemma check_all_required_first connections l1 n l2 e :
  (forall m, In m l1 -> check_required connections m = None) ->
  check_required connections n = Some e ->
  check_all_required connections (l1 ++ n :: l2) = Throw e.
Proof.
  intros Hpass Hn. induction l1 as [|a l1 IH]; cbn [app check_all_required].
  - now rewrite Hn.
  - rewrite (Hpass a (or_introl eq_refl)). apply IH. intros m Hm. apply Hpass. now right.
Qed.

Lemma check_all_required_throws connections ns n e :
  In n ns -> check_required connections n = Some e ->
  exists e', check_all_required connections ns = Throw e'.
Proof.
  intros Hin Hn. induction ns as [|a ns IH]; [destruct Hin|].
  cbn [check_all_required]. destruct (check_required connections a) as [e'|] eqn:E.
  - now exists e'.
  - destruct Hin as [->|Hin]; [congruence | now apply IH].
Qed.

(** The shape of a run of [generatePythonCode]: it either throws before
    the validator, throws in the validator, or passes through the three
    stages once each. *)
Lemma generatePythonCode_cases h graph :
  (exists e, generatePythonCode h graph = ([], Throw e))
  \/ (exists e, validatePipelineStructure (ml_nodes graph) (connections graph) = Throw e
                /\ generatePythonCode h graph = ([Validator], Throw e))
  \/ (validatePipelineStructure (ml_nodes graph) (connections graph) = Ok tt
      /\ exists code,
          generatePythonCode h graph = ([Validator; Scheduler; CodeGenerator], Ok code)).
Proof.
  unfold generatePythonCode. fold (ml_nodes graph).
  destruct (List.length (nodes graph) =? 0)%nat; [left; now eexists|].
  destruct (List.length (ml_nodes graph) =? 0)%nat; [left; now eexists|].
  destruct (validatePipelineStructure (ml_nodes graph) (connections graph)) as [[]|e].
  - right. right. split; [reflexivity|]. eexists. reflexivity.
  - right. left. exists e. split; reflexivity.
Qed.

Lemma validate_Ok_required ns connections :
  validatePipelineStructure ns connections = Ok tt ->
  check_all_required connections ns = Ok tt.
Proof.
  unfold validatePipelineStructure.
  destruct (negb _); [discriminate|]. destruct (0 <? _)%nat; [discriminate | tauto].
Qed.

Lemma orphanedNodes_In ns connections n :
  In n (orphanedNodes ns connections) <->
  In n ns /\ kind n <> "dataLoader"
  /\ forall c, In c connections -> source c <> id n /\ target c <> id n.
Proof.
  unfold orphanedNodes. rewrite filter_In, andb_true_iff, !negb_true_iff.
  rewrite String.eqb_neq, includes_false. unfold connectedNodes. rewrite in_flat_map.
  split; intros (Hn & Hk & Hc); repeat split; auto.
  - intros E. apply Hc. exists c. cbn. auto.
  - intros E. apply Hc. exists c. cbn. auto.
  - intros (c & Hin & [E|[E|[]]]); destruct (Hc c Hin); congruence.
Qed.

(** C1: gate-mode validation has no cycle check.  On [cyclic_graph], whose
    connections B -> C -> B form a cycle, [validatePipelineStructure]
    succeeds, [generatePythonCode] enters the scheduler and the code
    generator and returns a script, and the scheduler keeps node A only;
    the validator of the editor page reports the cycle on the same graph. *)
Theorem gate_mode_accepts_cycle :
  forall h,
    cyclic (connections cyclic_graph)
    /\ validatePipelineStructure (ml_nodes cyclic_graph) (connections cyclic_graph) = Ok tt
    /\ stages (generatePythonCode h cyclic_graph) = [Validator; Scheduler; CodeGenerator]
    /\ (exists code, outcome (generatePythonCode h cyclic_graph) = Ok code)
    /\ map id (topologicalSort (ml_nodes cyclic_graph) (connections cyclic_graph)) = ["A"]
    /\ validatePipeline cyclic_graph = Some [msg_batch_cycle].
Proof.
  intros h. split; [|split; [reflexivity|]].
  - exists "B". apply t_trans with "C"; apply t_step.
    + exists (mk_conn "B" "X_train" "C" "X_train"). cbn. auto.
    + exists (mk_conn "C" "X_train" "B" "X_test"). cbn. auto.
  - destruct (generatePythonCode_cases h cyclic_graph) as [[e H]|[(e & Hv & H)|(Hv & code & H)]].
    + discriminate H.
    + discriminate Hv.
    + rewrite H. split; [reflexivity|]. split; [now exists code|].
      split; vm_compute; reflexivity.
Qed.

(** C4, as stated, fails: the second classifier lacks its [y_train] input,
    yet the error that is raised names the first classifier only. *)
Lemma gate_error_names_first_only :
  In (mk_node "K2" "classifier") (nodes two_trainers_graph)
  /\ ~ has_input (connections two_trainers_graph) "K2" "y_train"
  /\ exists message,
      outcome (generatePythonCode sample_host two_trainers_graph)
      = Throw (PipelineValidationError message)
      /\ contains "K1" message = true
      /\ contains "K2" message = false.
Proof.
  split; [cbn; auto|]. split.
  - intros (c & [<-|[<-|[]]] & Ht & Hi); discriminate.
  - eexists. split; [vm_compute; reflexivity|]. split; vm_compute; reflexivity.
Qed.

(** C4 (amended): when gate-mode validation fails, [generatePythonCode]
    throws without entering the scheduler or the code generator.  A trainer
    node that lacks [X_train] or [y_train] always makes it throw; the error
    is the one that names this node (by its label, saying that both inputs
    are needed) when a data loader exists, no node is unconnected and no ML
    node listed before it fails the required-input check. *)
Theorem gate_failure_aborts :
  forall h graph,
    (forall e,
        validatePipelineStructure (ml_nodes graph) (connections graph) = Throw e ->
        exists e', generatePythonCode h graph = ([], Throw e')
                   \/ generatePythonCode h graph = ([Validator], Throw e'))
    /\ (forall n,
           In n (nodes graph) ->
           is_trainer (kind n) ->
           ~ has_input (connections graph) (id n) "X_train"
           \/ ~ has_input (connections graph) (id n) "y_train" ->
           (exists e', generatePythonCode h graph = ([], Throw e')
                       \/ generatePythonCode h graph = ([Validator], Throw e'))
           /\ (forall l1 l2,
                  ml_nodes graph = l1 ++ n :: l2 ->
                  existsb (fun m => (kind m =? "dataLoader")%string) (ml_nodes graph) = true ->
                  orphanedNodes (ml_nodes graph) (connections graph) = [] ->
                  (forall m, In m l1 -> check_required (connections graph) m = None) ->
                  generatePythonCode h graph
                  = ([Validator], Throw (PipelineValidationError (msg_model (label n)))))).
Proof.
  intros h graph.
  assert (Hthrow : forall e,
             validatePipelineStructure (ml_nodes graph) (connections graph) = Throw e ->
             exists e', generatePythonCode h graph = ([], Throw e')
                        \/ generatePythonCode h graph = ([Validator], Throw e')).
  { intros e He.
    destruct (generatePythonCode_cases h graph) as [[e' H]|[(e' & Hv & H)|(Hv & _)]].
    - exists e'. now left.
    - exists e'. now right.
    - congruence. }
  split; [exact Hthrow|]. intros n Hn Hk Hmiss.
  pose proof (check_required_trainer (connections graph) n Hk Hmiss) as Hreq.
  assert (Hml : In n (ml_nodes graph)).
  { apply filter_In. split; [exact Hn | now apply is_trainer_ml]. }
  split.
  - destruct (validatePipelineStructure (ml_nodes graph) (connections graph)) as [[]|e] eqn:Hv.
    + apply validate_Ok_required in Hv.
      destruct (check_all_required_throws _ _ _ _ Hml Hreq) as [e' He']. congruence.
    + now apply (Hthrow e).
  - intros l1 l2 Hsplit Hdl Horph Hpass.
    assert (Hv : validatePipelineStructure (ml_nodes graph) (connections graph)
                 = Throw (PipelineValidationError (msg_model (label n)))).
    { unfold validatePipelineStructure. rewrite Hdl, Horph. cbn [negb List.length Nat.ltb Nat.leb].
      rewrite Hsplit. now apply check_all_required_first. }
    unfold generatePythonCode. fold (ml_nodes graph). rewrite Hv.
    destruct (nodes graph) as [|a ns] eqn:En; [destruct Hn|]. cbn [List.length Nat.eqb].
    rewrite Hsplit, length_app. cbn [List.length]. rewrite Nat.add_succ_r. reflexivity.
Qed.

Lemma gate_failure_aborts_witness :
  generatePythonCode sample_host half_trainer_graph
  = ([Validator], Throw (PipelineValidationError (msg_model "K"))).
Proof.
  refine (proj2 (proj2 (gate_failure_aborts sample_host half_trainer_graph)
                   (mk_node "K" "classifier") _ _ _)
            [mk_node "A" "dataLoader"] [] _ _ _ _).
  - cbn. auto.
  - left. reflexivity.
  - right. intros (c & [<-|[]] & Ht & Hi). discriminate.
  - reflexivity.
  - reflexivity.
  - reflexivity.
  - intros m [<-|[]]. reflexivity.
Defined.

(** C5, as stated, fails: node B is not an entry node and has no incoming
    connection, yet it is not reported as an orphan and validation passes. *)
Lemma outgoing_only_node_is_no_orphan :
  In (mk_node "B" "scaler") source_only_nodes
  /\ kind (mk_node "B" "scaler") <> "dataLoader"
  /\ (forall c, In c source_only_connections -> target c <> id (mk_node "B" "scaler"))
  /\ ~ In (mk_node "B" "scaler") (orphanedNodes source_only_nodes source_only_connections)
  /\ validatePipelineStructure source_only_nodes source_only_connections = Ok tt.
Proof.
  split; [cbn; auto|]. split; [discriminate|]. split.
  - intros c [<-|[]]. discriminate.
  - split; [intros []|reflexivity].
Qed.

(** C5 (amended): the checks run in the order data-loader presence,
    unconnected nodes, required inputs, and the first failure is the one
    thrown; a node is reported as unconnected exactly when it is not a data
    loader and is neither the source nor the target of any connection, so a
    non-entry node with an incoming connection passes that check. *)
Theorem gate_check_order :
  forall ns connections,
    let hasDataLoader := existsb (fun n => (kind n =? "dataLoader")%string) ns in
    let orphans := orphanedNodes ns connections in
    (hasDataLoader = false ->
     validatePipelineStructure ns connections
     = Throw (PipelineValidationError msg_no_dataLoader))
    /\ (hasDataLoader = true -> orphans <> [] ->
        validatePipelineStructure ns connections
        = Throw (PipelineValidationError (msg_orphans (map label orphans))))
    /\ (hasDataLoader = true -> orphans = [] ->
        validatePipelineStructure ns connections = check_all_required connections ns)
    /\ (forall l1 n l2 e,
           ns = l1 ++ n :: l2 ->
           (forall m, In m l1 -> check_required connections m = None) ->
           check_required connections n = Some e ->
           check_all_required connections ns = Throw e)
    /\ (forall n,
           In n orphans <->
           In n ns /\ kind n <> "dataLoader"
           /\ forall c, In c connections -> source c <> id n /\ target c <> id n)
    /\ (forall n c, In n ns -> In c connections -> target c = id n -> ~ In n orphans).
Proof.
  intros ns connections hasDataLoader orphans. unfold validatePipelineStructure.
  fold hasDataLoader. fold orphans.
  split; [|split; [|split; [|split; [|split]]]].
  - intros ->. reflexivity.
  - intros -> Hne. destruct orphans; [contradiction | reflexivity].
  - intros -> ->. reflexivity.
  - intros l1 n l2 e -> Hpass Hn. now apply check_all_required_first.
  - intros n. apply orphanedNodes_In.
  - intros n c Hn Hc Ht Ho. apply orphanedNodes_In in Ho.
    destruct Ho as (_ & _ & H). destruct (H c Hc). congruence.
Qed.

Lemma gate_check_order_witness :
  validatePipelineStructure (nodes half_trainer_graph) (connections half_trainer_graph)
  = Throw (PipelineValidationError (msg_model "K")).
Proof.
  destruct (gate_check_order (nodes half_trainer_graph) (connections half_trainer_graph))
    as (_ & _ & Hthird & Hfirst & _).
  rewrite Hthird by reflexivity.
  apply (Hfirst [mk_node "A" "dataLoader"] (mk_node "K" "classifier") []).
  - reflexivity.
  - intros m [<-|[]]. reflexivity.
  - reflexivity.
Defined.

(** ** The scaler *)



(** ** Missing inputs *)

(** C3, as stated, fails: the scaler declares the input [X_train], nothing
    is connected to it, the graph passes gate-mode validation, and the
    scaler's block is ordinary code that fits on the guessed variable
    [data]. *)
Lemma unconnected_scaler_guesses_data :
  let b := nodeToCode_tpl sample_host (mk_node "Z" "scaler")
             (connections test_only_scaler_graph)
             (make_nodeMap (ml_nodes test_only_scaler_graph)) "scaler"
             (Some [("A", "data"); ("S", "split"); ("Z", "scaler")]) in
  In "X_train" (declared_inputs "scaler")
  /\ ~ has_input (connections test_only_scaler_graph) "Z" "X_train"
  /\ validatePipelineStructure (ml_nodes test_only_scaler_graph)
       (connections test_only_scaler_graph) = Ok tt
  /\ comment_only b = false
  /\ args_after ".fit_transform(" b = [Sub "data"].
Proof.
  cbv zeta. split; [cbn; auto|]. split.
  - intros (c & [<-|[<-|[]]] & Ht & Hi); discriminate.
  - repeat split.
Qed.

(** C3 (amended): for a feature-selection, classifier, regressor,
    neural-network, predict or tuning node, a declared input without a
    connection turns the whole block into a warning comment; for an
    evaluate node the same holds when [y_test] is missing, or when
    [prediction] is missing together with [model] or [X_test].  A split
    whose [data] input and a scaler whose [X_train] input is not connected
    emit their usual code with the variable name [data] in place of the
    producer; a scaler without [X_test] and an evaluate node with
    [prediction] and [y_test] emit code, not a warning, whatever their
    other inputs. *)
Theorem missing_input_notice :
  forall h node connections nodeMap varName varNameMap,
    let b := nodeToCode_tpl h node connections nodeMap varName varNameMap in
    (forall i,
        In (kind node) strict_kinds ->
        In i (declared_inputs (kind node)) ->
        ~ has_input connections (id node) i ->
        comment_only b = true /\ mentions "# WARNING" b = true)
    /\ (kind node = "evaluate" ->
        ~ has_input connections (id node) "y_test"
        \/ (~ has_input connections (id node) "prediction"
            /\ (~ has_input connections (id node) "model"
                \/ ~ has_input connections (id node) "X_test")) ->
        comment_only b = true /\ mentions "# WARNING" b = true)
    /\ (kind node = "dataSplit" ->
        ~ has_input connections (id node) "data" ->
        comment_only b = false /\ args_after "X_all = " b = [Sub "data"])
    /\ (kind node = "scaler" ->
        ~ has_input connections (id node) "X_train" ->
        comment_only b = false /\ args_after ".fit_transform(" b = [Sub "data"])
    /\ (kind node = "scaler" ->
        ~ has_input connections (id node) "X_test" ->
        comment_only b = false /\ mentions "# WARNING" b = false)
    /\ (kind node = "evaluate" ->
        has_input connections (id node) "prediction" ->
        has_input connections (id node) "y_test" ->
        comment_only b = false /\ mentions "# WARNING" b = false).
Proof.
  intros h node connections nodeMap varName varNameMap b. subst b.
  unfold nodeToCode_tpl. split; [|split; [|split; [|split; [|split]]]].
  - intros i Hk Hi Hno. apply find_input_None in Hno.
    cbn in Hk. destruct Hk as [Hk|[Hk|[Hk|[Hk|[Hk|[Hk|[]]]]]]]; rewrite <- Hk in *;
      cbn [String.eqb Ascii.eqb Bool.eqb];
      cbn in Hi; destruct Hi as [<-|[<-|[]]];
      unfold code_featureSelection, code_classifier, code_regressor, code_neuralNet,
        code_predict, code_hyperparamTune;
      rewrite Hno;
      match goal with
      | |- context [find_input connections (id node) ?k] =>
          destruct (find_input connections (id node) k)
      end; split; reflexivity.
  - intros Hk Hmiss. rewrite Hk. cbn [String.eqb Ascii.eqb Bool.eqb]. unfold code_evaluate.
    destruct Hmiss as [Hy|[Hp Hmx]].
    + apply find_input_None in Hy. rewrite Hy.
      destruct (find_input connections (id node) "prediction"),
        (find_input connections (id node) "model"),
        (find_input connections (id node) "X_test"); split; reflexivity.
    + apply find_input_None in Hp. rewrite Hp.
      destruct Hmx as [Hm|Hx]; [apply find_input_None in Hm; rewrite Hm
                               | apply find_input_None in Hx; rewrite Hx];
        destruct (find_input connections (id node) "model"),
          (find_input connections (id node) "X_test"),
          (find_input connections (id node) "y_test"); split; reflexivity.
  - intros Hk Hno. apply find_input_None in Hno. rewrite Hk.
    cbn [String.eqb Ascii.eqb Bool.eqb]. unfold code_dataSplit, getSourceVarName.
    rewrite Hno. split; reflexivity.
  - intros Hk Hno. apply find_input_None in Hno. rewrite Hk.
    cbn [String.eqb Ascii.eqb Bool.eqb]. unfold code_scaler, getSourceOutputVar.
    rewrite Hno. destruct (find_input connections (id node) "X_test"); split; reflexivity.
  - intros Hk Hno. apply find_input_None in Hno. rewrite Hk.
    cbn [String.eqb Ascii.eqb Bool.eqb]. unfold code_scaler. rewrite Hno. split; reflexivity.
  - intros Hk Hp Hy. rewrite Hk. cbn [String.eqb Ascii.eqb Bool.eqb]. unfold code_evaluate.
    destruct (find_input connections (id node) "prediction") eqn:Ep;
      [|apply find_input_None in Ep; contradiction].
    destruct (find_input connections (id node) "y_test") eqn:Ey;
      [|apply find_input_None in Ey; contradiction].
    destruct (find_input connections (id node) "model"),
      (find_input connections (id node) "X_test"),
      (isRegression nodeMap _); split; reflexivity.
Qed.

Lemma missing_input_notice_witness :
  comment_only (nodeToCode_tpl sample_host (mk_node "K" "classifier")
                  (connections half_trainer_graph) [] "model" None) = true.
Proof.
  refine (proj1 (proj1 (missing_input_notice sample_host (mk_node "K" "classifier")
                          (connections half_trainer_graph) [] "model" None)
                   "y_train" _ _ _)).
  - cbn. auto.
  - cbn. auto.
  - intros (c & [<-|[]] & Ht & Hi). discriminate.
Defined.

(** ** The evaluator *)




(** ** The split *)

Lemma js_or_same_or_falsy v v' d : same_or_falsy v v' -> js_or v d = js_or v' d.
Proof. unfold js_or. intros [->|[-> ->]]; reflexivity. Qed.

(** C10: in the block of a split node, a falsy [ratio] (absent, [0], ...)
    gives [test_size=0.20], the value that the default [0.8] gives, and a
    falsy [targetColumn] (absent, the empty string, ...) gives [target];
    two split nodes whose controls differ only by falsy values produce the
    same block.  Without the default, a ratio of [0] would print as
    [1.00]. *)
Theorem dataSplit_falsy_is_default :
  forall h node connections nodeMap varName varNameMap,
    kind node = "dataSplit" ->
    let b := nodeToCode_tpl h node connections nodeMap varName varNameMap in
    (truthy (control node "ratio") = false ->
     args_after "test_size=" b = [Sub "0.20"])
    /\ (truthy (control node "targetColumn") = false ->
        args_after "# Target column: '" b = [Sub "target"]
        /\ args_after ".drop('" b = [Sub "target"]
        /\ args_after "['" b = [Sub "target"])
    /\ (forall node',
           id node' = id node -> kind node' = kind node ->
           same_or_falsy (control node' "ratio") (control node "ratio") ->
           same_or_falsy (control node' "targetColumn") (control node "targetColumn") ->
           nodeToCode_tpl h node' connections nodeMap varName varNameMap = b)
    /\ toFixed2 h (PrimFloat.sub 1 (ToNumber h (JNum 0))) = "1.00".
Proof.
  intros h node connections nodeMap varName varNameMap Hk b. subst b.
  unfold nodeToCode_tpl. rewrite Hk. cbn [String.eqb Ascii.eqb Bool.eqb].
  unfold code_dataSplit. split; [|split; [|split]].
  - intros Hr. unfold js_or. rewrite Hr. reflexivity.
  - intros Ht. unfold js_or. rewrite Ht. repeat split.
  - intros node' Hid Hkind Hr Ht. rewrite Hkind. cbn [String.eqb Ascii.eqb Bool.eqb].
    unfold code_dataSplit.
    now rewrite Hid, (js_or_same_or_falsy _ _ _ Hr), (js_or_same_or_falsy _ _ _ Ht).
  - reflexivity.
Qed.

Lemma dataSplit_falsy_is_default_witness :
  args_after "test_size="
    (nodeToCode_tpl sample_host zero_ratio_split [] [] "split" None) = [Sub "0.20"]
  /\ nodeToCode_tpl sample_host (mk_node "S" "dataSplit") [] [] "split" None
     = nodeToCode_tpl sample_host zero_ratio_split [] [] "split" None.
Proof.
  pose proof (dataSplit_falsy_is_default sample_host zero_ratio_split [] [] "split" None
                eq_refl) as (Hratio & _ & Hsame & _).
  split.
  - apply Hratio. reflexivity.
  - apply Hsame; [reflexivity | reflexivity | right; split; reflexivity
                  | right; split; reflexivity].
Defined.

(** ** Variable names *)

(** C8: the name of a node is the short name of its kind, bare for the
    first node of that kind and followed by the occurrence number for the
    later ones (three scalers are [scaler], [scaler2], [scaler3]).  The
    counter is kept per kind while the short name is shared by several
    kinds, so the names are not pairwise distinct: in [two_models_graph],
    which passes validation, the classifier and the regressor are both
    [model], and the predict and evaluate nodes are both [step]. *)
Theorem assigned_names_collide :
  (forall node nodeIndex,
      let index := match JsMap.get nodeIndex (kind node) with Some i => i | None => 0 end in
      fst (getSimpleVarName node nodeIndex)
      = (if (index =? 0)%nat then baseName_of (kind node)
         else (baseName_of (kind node) ++ nat_to_string (index + 1))%string)
      /\ JsMap.get (snd (getSimpleVarName node nodeIndex)) (kind node) = Some (index + 1))
  /\ assigned_names three_scalers = ["scaler"; "scaler2"; "scaler3"]
  /\ validatePipelineStructure (ml_nodes two_models_graph) (connections two_models_graph)
     = Ok tt
  /\ map id (topologicalSort (ml_nodes two_models_graph) (connections two_models_graph))
     = ["A"; "S"; "K"; "R"; "P"; "E"]
  /\ assigned_names (topologicalSort (ml_nodes two_models_graph)
                       (connections two_models_graph))
     = ["data"; "split"; "model"; "model"; "step"; "step"]
  /\ ~ NoDup (assigned_names (topologicalSort (ml_nodes two_models_graph)
                                (connections two_models_graph))).
Proof.
  split; [|split; [|split; [|split; [|split]]]]; try (vm_compute; reflexivity).
  - intros node nodeIndex. cbn zeta. unfold getSimpleVarName. cbn [fst snd].
    split; [reflexivity | apply get_set_eq].
  - intros H. vm_compute in H.
    inversion H as [|x l Hx Hl]; subst. inversion Hl as [|x l Hx' Hl']; subst.
    inversion Hl' as [|x l Hm _]; subst. apply Hm. now left.
Qed.

(** ** The exporters *)

(** C9: each exporter runs [generatePythonCode] once and formats its
    result: its stages are those of that one run (the validator and the
    scheduler are entered at most once), a failure is passed on unchanged,
    and the exported text is a function of the generated code, the pipeline
    name and the timestamp only, so two graphs with the same generated code
    export the same notebook and the same script. *)
Theorem exporters_format_generated_code :
  forall h graph pipelineName,
    let run := generatePythonCode h graph in
    let name := name_or_default pipelineName in
    generateJupyterNotebook h graph pipelineName
    = (stages run,
       map_result (fun code => stringify EmptyString (notebook_of (now_ko_KR h) name code))
                  (outcome run))
    /\ generatePythonScript h graph pipelineName
       = (stages run,
          map_result (fun code => (script_header (now_ko_KR h) name ++ code)%string)
                     (outcome run))
    /\ (stages run = [] \/ stages run = [Validator]
        \/ stages run = [Validator; Scheduler; CodeGenerator])
    /\ (forall graph',
           outcome (generatePythonCode h graph') = outcome run ->
           outcome (generateJupyterNotebook h graph' pipelineName)
           = outcome (generateJupyterNotebook h graph pipelineName)
           /\ outcome (generatePythonScript h graph' pipelineName)
              = outcome (generatePythonScript h graph pipelineName)).
Proof.
  intros h graph pipelineName run name.
  assert (Hnb : forall g, generateJupyterNotebook h g pipelineName
                          = (stages (generatePythonCode h g),
                             map_result (fun code => stringify EmptyString
                                                       (notebook_of (now_ko_KR h) name code))
                                        (outcome (generatePythonCode h g)))).
  { intros g. unfold generateJupyterNotebook, bind, ret, stages, outcome.
    destruct (generatePythonCode h g) as [log [code|e]]; cbn; now rewrite ?app_nil_r. }
  assert (Hsc : forall g, generatePythonScript h g pipelineName
                          = (stages (generatePythonCode h g),
                             map_result (fun code => (script_header (now_ko_KR h) name
                                                      ++ code)%string)
                                        (outcome (generatePythonCode h g)))).
  { intros g. unfold generatePythonScript, bind, ret, stages, outcome.
    destruct (generatePythonCode h g) as [log [code|e]]; cbn; now rewrite ?app_nil_r. }
  split; [apply Hnb|]. split; [apply Hsc|]. split.
  - subst run.
    destruct (generatePythonCode_cases h graph) as [[e H]|[(e & _ & H)|(_ & code & H)]];
      rewrite H; cbn; auto.
  - intros graph' Hsame. rewrite !Hnb, !Hsc. unfold outcome at 1 3 5 7. cbn [snd].
    fold run. now rewrite Hsame.
Qed.

(** * Further properties of the compiler *)

(** ** The scheduler on arbitrary input *)

Lemma set_keys_NoDup {V : Type} (m : JsMap.t V) (k : string) (v : V) :
  NoDup (JsMap.keys m) -> NoDup (JsMap.keys (JsMap.set m k v)).
Proof.
  intros H. destruct (in_dec string_dec k (JsMap.keys m)) as [Hin|Hnot].
  - now rewrite keys_set_in.
  - rewrite keys_set_notin by assumption. apply NoDup_app; [assumption | repeat constructor; intros [] |].
    intros a Ha [<-|[]]. contradiction.
Qed.

Lemma build_graph_keys_NoDup nodes connections :
  NoDup (JsMap.keys (snd (build_graph nodes connections))).
Proof.
  unfold build_graph.
  assert (Hinit : NoDup (JsMap.keys (snd (init_graph nodes)))).
  { unfold init_graph.
    assert (H : forall ns (st : JsMap.t (list string) * JsMap.t Z),
               NoDup (JsMap.keys (snd st)) ->
               NoDup (JsMap.keys (snd (fold_left (fun st node =>
                 (JsMap.set (fst st) (id node) [], JsMap.set (snd st) (id node) 0%Z)) ns st)))).
    { induction ns as [|a ns IH]; intros st Hst; [exact Hst|].
      cbn [fold_left]. apply IH. cbn [snd]. now apply set_keys_NoDup. }
    apply H. constructor. }
  revert Hinit. generalize (init_graph nodes).
  induction connections as [|c cs IH]; intros [g d] Hd; [exact Hd|].
  cbn [fold_left]. apply IH. unfold add_connection. cbn [snd]. now apply set_keys_NoDup.
Qed.

Lemma make_nodeMap_get nodes u n :
  JsMap.get (make_nodeMap nodes) u = Some n -> id n = u /\ In n nodes.
Proof.
  intros H. destruct (make_nodeMap_fold nodes [] u) as [H1 H2].
  destruct (in_dec string_dec u (map id nodes)) as [Hin|Hnot].
  - destruct (H1 Hin) as (n' & Hn' & Hid & Hnodes). unfold make_nodeMap in H.
    rewrite Hn' in H. injection H as <-. now split.
  - unfold make_nodeMap in H. rewrite (H2 Hnot) in H. discriminate.
Qed.

(** One pass over the neighbours, with no assumption on the map: the keys
    appended to the queue are distinct, had a positive in-degree before the
    pass and have none after it, and no in-degree grows. *)
Lemma relax_fold_any (l : list string) :
  forall (inDegree : JsMap.t Z) (queue : list string),
    exists added,
      snd (fold_left relax l (inDegree, queue)) = queue ++ added
      /\ NoDup added
      /\ (forall v, In v added -> (0 < get_or0 inDegree v)%Z)
      /\ (forall v, (get_or0 (fst (fold_left relax l (inDegree, queue))) v
                     <= get_or0 inDegree v)%Z)
      /\ (forall v, In v added ->
                    (get_or0 (fst (fold_left relax l (inDegree, queue))) v <= 0)%Z).
Proof.
  induction l as [|x l IH]; intros d q.
  - exists []. cbn. rewrite app_nil_r.
    split; [reflexivity|]. split; [constructor|]. split; [intros v []|].
    split; [intros v; lia | intros v []].
  - cbn [fold_left]. unfold relax at 2 4 6.
    set (g := get_or0 d x). set (d1 := JsMap.set d x (g - 1)%Z).
    set (q1 := if (g - 1 =? 0)%Z then q ++ [x] else q).
    assert (Hd1 : forall v, get_or0 d1 v = if string_dec x v then (g - 1)%Z else get_or0 d v).
    { intros v. subst d1. destruct (string_dec x v) as [<-|Hne].
      - apply get_or0_set_eq. - now apply get_or0_set_ne. }
    assert (Hle1 : forall v, (get_or0 d1 v <= get_or0 d v)%Z).
    { intros v. rewrite Hd1. destruct (string_dec x v) as [<-|]; [fold g|]; lia. }
    destruct (IH d1 q1) as (added & Hq & Hnd & Hpos & Hmono & Hfin).
    destruct (Z.eqb_spec (g - 1) 0) as [Hz|Hnz].
    + exists (x :: added). subst q1. rewrite Hq, <- app_assoc.
      split; [reflexivity|]. split.
      * constructor; [|exact Hnd]. intros Hx. apply Hpos in Hx. rewrite Hd1 in Hx.
        destruct (string_dec x x); [lia | congruence].
      * split; [|split].
        -- intros v [<-|Hv]; [fold g; lia|]. specialize (Hpos v Hv). specialize (Hle1 v). lia.
        -- intros v. specialize (Hmono v). specialize (Hle1 v). lia.
        -- intros v [<-|Hv]; [|now apply Hfin].
           specialize (Hmono x). rewrite Hd1 in Hmono.
           destruct (string_dec x x); [lia | congruence].
    + exists added. subst q1. split; [exact Hq|]. split; [exact Hnd|]. split; [|split].
      * intros v Hv. specialize (Hpos v Hv). specialize (Hle1 v). lia.
      * intros v. specialize (Hmono v). specialize (Hle1 v). lia.
      * exact Hfin.
Qed.

Lemma kahn_loop_sound nodes graph (fuel : nat) :
  forall inDegree queue sorted r,
    NoDup (map id sorted ++ queue) ->
    (forall n, In n sorted -> In n nodes) ->
    (forall v, In v (map id sorted ++ queue) -> (get_or0 inDegree v <= 0)%Z) ->
    kahn_loop graph (make_nodeMap nodes) fuel inDegree queue sorted = Some r ->
    NoDup (map id r) /\ (forall n, In n r -> In n nodes).
Proof.
  induction fuel as [|fuel IH]; intros d q s r Hnd Hin Hdeg Hr.
  - destruct q; [|discriminate]. injection Hr as <-. rewrite app_nil_r in Hnd. now split.
  - destruct q as [|u q].
    { injection Hr as <-. rewrite app_nil_r in Hnd. now split. }
    cbn [kahn_loop] in Hr.
    destruct (relax_fold_any (neighbors graph u) d q)
      as (added & Hq & Hadd_nd & Hpos & Hmono & Hfin).
    destruct (fold_left relax (neighbors graph u) (d, q)) as [d' q'].
    cbn [fst snd] in *. subst q'.
    assert (Hnew : forall v, In v added -> ~ In v (map id s ++ u :: q)).
    { intros v Hv Hold. specialize (Hpos v Hv). specialize (Hdeg v Hold). lia. }
    assert (Hnd' : NoDup ((map id s ++ u :: q) ++ added)).
    { apply NoDup_app; [exact Hnd | exact Hadd_nd|]. intros a Ha Ha'. now apply (Hnew a). }
    assert (Hdeg' : forall v, In v ((map id s ++ u :: q) ++ added) ->
                              (get_or0 d' v <= 0)%Z).
    { intros v Hv. apply in_app_or in Hv. destruct Hv as [Hv|Hv].
      - specialize (Hdeg v Hv). specialize (Hmono v). lia.
      - now apply Hfin. }
    assert (E1 : (map id s ++ u :: q) ++ added = map id s ++ u :: (q ++ added)).
    { rewrite <- app_assoc. reflexivity. }
    assert (E2 : (map id s ++ [u]) ++ q ++ added = map id s ++ u :: (q ++ added)).
    { rewrite <- app_assoc. reflexivity. }
    rewrite E1 in Hnd', Hdeg'.
    destruct (JsMap.get (make_nodeMap nodes) u) as [n|] eqn:En.
    + apply make_nodeMap_get in En. destruct En as [Hid Hn].
      apply (IH d' (q ++ added) (s ++ [n]) r); [| | |exact Hr].
      * rewrite map_app. cbn [map]. rewrite Hid, E2. exact Hnd'.
      * intros m Hm. apply in_app_or in Hm. destruct Hm as [Hm|[<-|[]]]; auto.
      * intros v Hv. apply Hdeg'. rewrite map_app in Hv. cbn [map] in Hv.
        rewrite Hid, E2 in Hv. exact Hv.
    + apply (IH d' (q ++ added) s r); [| exact Hin | |exact Hr].
      * now apply NoDup_remove_1 in Hnd'.
      * intros v Hv. apply Hdeg'. apply in_app_or in Hv. apply in_or_app.
        destruct Hv as [Hv|Hv]; [now left | right; now right].
Qed.

(** X1: whatever the nodes and connections are (dangling connections,
    repeated ids, cycles), the loop of [topologicalSort] ends within the
    fuel it is given, and the result consists of nodes of the input with no
    id scheduled twice. *)
Theorem topologicalSort_sound :
  forall nodes connections,
    (exists r,
        kahn_loop (fst (build_graph nodes connections)) (make_nodeMap nodes)
                  (List.length (snd (build_graph nodes connections)))
                  (snd (build_graph nodes connections))
                  (initial_queue (snd (build_graph nodes connections))) [] = Some r
        /\ topologicalSort nodes connections = r)
    /\ NoDup (map id (topologicalSort nodes connections))
    /\ (forall n, In n (topologicalSort nodes connections) -> In n nodes)
    /\ List.length (topologicalSort nodes connections) <= List.length nodes.
Proof.
  intros nodes connections.
  destruct (kahn_loop_total nodes connections) as (r & Hr & Er).
  split; [now exists r|]. rewrite Er.
  pose proof (build_graph_keys_NoDup nodes connections) as Hkeys.
  assert (Hs : NoDup (map id r) /\ (forall n, In n r -> In n nodes)).
  { apply (kahn_loop_sound nodes _ _ _ _ [] r) in Hr; [exact Hr| | |].
    - cbn [map app]. rewrite initial_queue_filter by assumption. now apply NoDup_filter.
    - intros n [].
    - cbn [map app]. intros v Hv. rewrite initial_queue_filter in Hv by assumption.
      apply filter_In in Hv. destruct Hv as [_ Hv]. apply Z.eqb_eq in Hv. lia. }
  destruct Hs as [Hnd Hin]. split; [exact Hnd|]. split; [exact Hin|].
  apply NoDup_map_inv in Hnd. now apply NoDup_incl_length.
Qed.

Lemma index_of_app (x : string) (l1 r : list string) :
  ~ In x l1 -> index_of x (l1 ++ x :: r) = List.length l1.
Proof.
  induction l1 as [|a l1 IH]; intros Hnot; cbn.
  - destruct (string_dec x x); [reflexivity | congruence].
  - destruct (string_dec a x) as [->|Hne]; [exfalso; apply Hnot; now left|].
    rewrite IH; [reflexivity|]. intros H. apply Hnot. now right.
Qed.

Lemma precedes_index (x y : string) (l : list string) :
  NoDup l -> precedes x y l -> index_of x l < index_of y l.
Proof.
  intros Hnd (l1 & l2 & l3 & ->).
  assert (Hx : ~ In x l1).
  { apply NoDup_remove_2 in Hnd. intros H. apply Hnd, in_or_app. now left. }
  rewrite (index_of_app x l1 _ Hx).
  replace (l1 ++ x :: l2 ++ y :: l3) with ((l1 ++ x :: l2) ++ y :: l3) in *
    by (rewrite <- app_assoc; reflexivity).
  assert (Hy : ~ In y (l1 ++ x :: l2)).
  { apply NoDup_remove_2 in Hnd. intros H. apply Hnd, in_or_app. now left. }
  rewrite (index_of_app y _ _ Hy), length_app. cbn. lia.
Qed.

(** X2: on a graph that satisfies the invariants of the data model, the
    scheduled nodes respect every connection whose target is scheduled,
    cycle or not, and every node is scheduled exactly when the connections
    have no cycle: comparing the two lengths detects a cycle. *)
Theorem topologicalSort_complete_iff_acyclic :
  forall nodes connections,
    well_formed nodes connections ->
    (forall c, In c connections ->
               In (target c) (map id (topologicalSort nodes connections)) ->
               precedes (source c) (target c) (map id (topologicalSort nodes connections)))
    /\ (~ cyclic connections <->
        List.length (topologicalSort nodes connections) = List.length nodes).
Proof.
  intros nodes connections Hwf.
  destruct (kahn_loop_total nodes connections) as (r & Hr & ->).
  destruct (kahn_loop_inv nodes connections Hwf _ _ _ _ r
              (inv_initial nodes connections Hwf) Hr) as [d Hinv].
  split; [exact (inv_order _ _ _ _ _ Hinv)|]. split.
  - intros Hacyc.
    destruct (inv_final nodes connections Hwf d r Hacyc Hinv) as [Hperm _].
    now apply Permutation_length.
  - intros Hlen.
    pose proof (inv_nodup _ _ _ _ _ Hinv) as Hnd. rewrite app_nil_r in Hnd.
    assert (Hperm : Permutation r nodes).
    { apply NoDup_Permutation_bis.
      - now apply NoDup_map_inv in Hnd.
      - lia.
      - exact (inv_sorted _ _ _ _ _ Hinv). }
    apply (ranked_acyclic connections (fun v => index_of v (map id r))).
    intros c Hc. apply precedes_index; [exact Hnd|].
    apply (inv_order _ _ _ _ _ Hinv); [exact Hc|].
    apply (Permutation_in _ (Permutation_sym (Permutation_map id Hperm))).
    now apply Hwf.
Qed.

Lemma topologicalSort_complete_iff_acyclic_witness :
  well_formed (nodes cyclic_graph) (connections cyclic_graph)
  /\ (~ cyclic (connections cyclic_graph) <->
      List.length (topologicalSort (nodes cyclic_graph) (connections cyclic_graph))
      = List.length (nodes cyclic_graph)).
Proof.
  assert (Hwf : well_formed (nodes cyclic_graph) (connections cyclic_graph)).
  { split.
    - cbn. repeat constructor; cbn; intuition discriminate.
    - intros c [<-|[<-|[<-|[]]]]; cbn; intuition. }
  split; [exact Hwf|].
  exact (proj2 (topologicalSort_complete_iff_acyclic _ _ Hwf)).
Defined.

(** ** What a validated pipeline guarantees *)

Lemma connected_includes connections x :
  includes (connectedNodes connections) x = true <->
  exists c, In c connections /\ (source c = x \/ target c = x).
Proof.
  rewrite includes_In. unfold connectedNodes. rewrite in_flat_map. split.
  - intros (c & Hc & [E|[E|[]]]); exists c; auto.
  - intros (c & Hc & [E|E]); exists c; cbn; auto.
Qed.

Lemma incoming_nonempty connections x :
  (List.length (filter (fun c => (target c =? x)%string) connections) =? 0)%nat = false <->
  exists c, In c connections /\ target c = x.
Proof.
  rewrite Nat.eqb_neq. split.
  - intros H. destruct (filter _ connections) as [|c l] eqn:E; [now cbn in H|].
    assert (Hc : In c (filter (fun c => (target c =? x)%string) connections))
      by (rewrite E; now left).
    apply filter_In in Hc. destruct Hc as [Hc Ht]. exists c. split; [assumption|].
    now apply String.eqb_eq.
  - intros (c & Hc & Ht) H.
    assert (Hf : In c (filter (fun c => (target c =? x)%string) connections))
      by (apply filter_In; split; [assumption | now apply String.eqb_eq]).
    destruct (filter _ connections); [destruct Hf | discriminate].
Qed.

Lemma includes_trainer k :
  includes ["classifier"; "regressor"; "neuralNet"] k = true <-> is_trainer k.
Proof.
  rewrite includes_In. unfold is_trainer. cbn. intuition congruence.
Qed.

Lemma check_required_None connections n :
  check_required connections n = None <->
  (kind n = "dataSplit" -> exists c, In c connections /\ target c = id n)
  /\ (is_trainer (kind n) ->
      has_input connections (id n) "X_train" /\ has_input connections (id n) "y_train").
Proof.
  unfold check_required.
  destruct (String.eqb_spec (kind n) "dataSplit") as [Hk|Hk]; cbn [andb].
  - destruct (List.length _ =? 0)%nat eqn:E.
    + split; [discriminate|]. intros [H _]. apply incoming_nonempty in H; [congruence|exact Hk].
    + apply incoming_nonempty in E. rewrite Hk. cbn.
      split; [|reflexivity]. intros _. split; [now intros _|].
      intros [H|[H|H]]; discriminate.
  - destruct (includes _ (kind n)) eqn:Ht.
    + apply includes_trainer in Ht.
      destruct (existsb (fun c => (targetInput c =? "X_train")%string) _) eqn:Ex;
        destruct (existsb (fun c => (targetInput c =? "y_train")%string) _) eqn:Ey;
        cbn [negb orb];
        try (apply incoming_some in Ex); try (apply incoming_some in Ey).
      * split; [|reflexivity]. intros _. split; [contradiction | now intros _].
      * split; [discriminate|]. intros [_ H]. destruct (H Ht) as [_ H'].
        apply incoming_some in H'. congruence.
      * split; [discriminate|]. intros [_ H]. destruct (H Ht) as [H' _].
        apply incoming_some in H'. congruence.
      * split; [discriminate|]. intros [_ H]. destruct (H Ht) as [H' _].
        apply incoming_some in H'. congruence.
    + split; [|reflexivity]. intros _. split; [contradiction|].
      intros H. apply includes_trainer in H. congruence.
Qed.

Lemma check_all_required_Ok connections ns :
  check_all_required connections ns = Ok tt <->
  forall n, In n ns -> check_required connections n = None.
Proof.
  induction ns as [|a ns IH]; cbn [check_all_required].
  - split; [intros _ n [] | reflexivity].
  - destruct (check_required connections a) eqn:E.
    + split; [discriminate|]. intros H. specialize (H a (or_introl eq_refl)). congruence.
    + rewrite IH. split.
      * intros H n [<-|Hn]; auto.
      * intros H n Hn. apply H. now right.
Qed.

(** X3: [validatePipelineStructure] accepts a list of nodes exactly when
    it holds a data loader, every other node is the source or the target
    of some connection, every split has an incoming connection, and every
    classifier, regressor and neural network has a connection on [X_train]
    and one on [y_train]. *)
Theorem validatePipelineStructure_accepts_iff :
  forall ns connections,
    validatePipelineStructure ns connections = Ok tt <->
    (exists n, In n ns /\ kind n = "dataLoader")
    /\ (forall n, In n ns -> kind n <> "dataLoader" ->
                  exists c, In c connections /\ (source c = id n \/ target c = id n))
    /\ (forall n, In n ns -> kind n = "dataSplit" ->
                  exists c, In c connections /\ target c = id n)
    /\ (forall n, In n ns -> is_trainer (kind n) ->
                  has_input connections (id n) "X_train"
                  /\ has_input connections (id n) "y_train").
Proof.
  intros ns connections. unfold validatePipelineStructure.
  assert (Hdl : existsb (fun n => (kind n =? "dataLoader")%string) ns = true <->
                exists n, In n ns /\ kind n = "dataLoader").
  { rewrite existsb_exists. split; intros (n & Hn & Hk); exists n; split; auto;
      now apply String.eqb_eq. }
  assert (Horph : orphanedNodes ns connections = [] <->
                  forall n, In n ns -> kind n <> "dataLoader" ->
                            exists c, In c connections /\ (source c = id n \/ target c = id n)).
  { split.
    - intros E n Hn Hk. apply connected_includes.
      destruct (includes (connectedNodes connections) (id n)) eqn:Hi; [reflexivity|].
      assert (Ho : In n (orphanedNodes ns connections)).
      { unfold orphanedNodes. apply filter_In. split; [assumption|].
        rewrite Hi. apply String.eqb_neq in Hk. now rewrite Hk. }
      rewrite E in Ho. destruct Ho.
    - intros H. destruct (orphanedNodes ns connections) as [|n l] eqn:E; [reflexivity|].
      assert (Ho : In n (orphanedNodes ns connections)) by (rewrite E; now left).
      apply orphanedNodes_In in Ho. destruct Ho as (Hn & Hk & Hc).
      destruct (H n Hn Hk) as (c & Hin & [Hs|Ht]); destruct (Hc c Hin); congruence. }
  destruct (existsb (fun n => (kind n =? "dataLoader")%string) ns) eqn:Edl; cbn [negb].
  - destruct (orphanedNodes ns connections) as [|o l] eqn:Eo; cbn [List.length Nat.ltb Nat.leb].
    + rewrite check_all_required_Ok. split.
      * intros H. split; [now apply Hdl|]. split; [now apply Horph|].
        split; intros n Hn Hk; apply (proj1 (check_required_None connections n) (H n Hn));
          exact Hk.
      * intros (_ & _ & Hs & Ht) n Hn. apply check_required_None. split; auto.
    + split; [discriminate|]. intros (_ & H & _). apply Horph in H. discriminate.
  - split; [discriminate|]. intros (H & _). apply Hdl in H. discriminate.
Qed.

(** X4: in a graph that passes [validatePipelineStructure], the block of
    every classifier, regressor and neural network is training code, never
    the missing-connection warning: it holds the line
    [step_<id>_model.fit(x, y)] where [x] and [y] are the variables
    [step_<source>_<output>] of the first connections that enter [X_train]
    and [y_train]. *)
Theorem validated_trainer_emits_fit :
  forall h ns connections nodeMap varName varNameMap n,
    validatePipelineStructure ns connections = Ok tt ->
    In n ns ->
    is_trainer (kind n) ->
    exists xc yc,
      find_input connections (id n) "X_train" = Some xc
      /\ find_input connections (id n) "y_train" = Some yc
      /\ comment_only (nodeToCode_tpl h n connections nodeMap varName varNameMap) = false
      /\ In [py "step_"; Sub (sanitize (id n)); py "_model.fit(";
             Sub (step_output_var xc); py ", "; Sub (step_output_var yc); py ")"]
            (nodeToCode_tpl h n connections nodeMap varName varNameMap).
Proof.
  intros h ns connections nodeMap varName varNameMap n Hv Hn Hk.
  apply validate_Ok_required in Hv.
  pose proof (proj1 (check_all_required_Ok connections ns) Hv n Hn) as Hreq.
  apply check_required_None in Hreq. destruct Hreq as [_ Ht].
  destruct (Ht Hk) as [Hx Hy].
  destruct (find_input connections (id n) "X_train") as [xc|] eqn:Ex;
    [|apply find_input_None in Ex; contradiction].
  destruct (find_input connections (id n) "y_train") as [yc|] eqn:Ey;
    [|apply find_input_None in Ey; contradiction].
  exists xc, yc. split; [reflexivity|]. split; [reflexivity|].
  unfold nodeToCode_tpl.
  destruct Hk as [Hk|[Hk|Hk]]; rewrite Hk; cbn [String.eqb Ascii.eqb Bool.eqb];
    unfold code_classifier, code_regressor, code_neuralNet; rewrite Ex, Ey;
    unfold trainer_block; (split; [reflexivity | cbn; auto]).
Qed.

Lemma validated_trainer_emits_fit_witness :
  exists xc yc,
    find_input (connections two_models_graph) "K" "X_train" = Some xc
    /\ find_input (connections two_models_graph) "K" "y_train" = Some yc
    /\ comment_only (nodeToCode_tpl sample_host (mk_node "K" "classifier")
                       (connections two_models_graph) [] "model" None) = false
    /\ In [py "step_"; Sub (sanitize "K"); py "_model.fit(";
           Sub (step_output_var xc); py ", "; Sub (step_output_var yc); py ")"]
          (nodeToCode_tpl sample_host (mk_node "K" "classifier")
             (connections two_models_graph) [] "model" None).
Proof.
  apply (validated_trainer_emits_fit sample_host (nodes two_models_graph)
           (connections two_models_graph) [] "model" None (mk_node "K" "classifier")).
  - reflexivity.
  - cbn. auto.
  - left. reflexivity.
Defined.

(** ** Variable names *)

Lemma nat_to_string_inj (n m : nat) : nat_to_string n = nat_to_string m -> n = m.
Proof.
  unfold nat_to_string. intros E.
  apply (f_equal NilEmpty.uint_of_string) in E. rewrite !NilEmpty.usu in E.
  injection E as E. apply (f_equal Nat.of_uint) in E. now rewrite !Unsigned.of_to in E.
Qed.

Lemma nat_to_string_nonempty (n : nat) : nat_to_string n <> EmptyString.
Proof.
  unfold nat_to_string. intros E.
  apply (f_equal NilEmpty.uint_of_string) in E. rewrite NilEmpty.usu in E.
  cbn in E. injection E as E. pose proof (Unsigned.of_to n) as H. rewrite E in H.
  cbn in H. subst n. discriminate E.
Qed.

Lemma append_cancel_l (a s t : string) : (a ++ s)%string = (a ++ t)%string -> s = t.
Proof. induction a as [|c a IH]; cbn; intros E; [exact E | injection E as E; auto]. Qed.

Lemma append_self_l (a s : string) : a = (a ++ s)%string -> s = EmptyString.
Proof. induction a as [|c a IH]; cbn; intros E; [now symmetry | injection E as E; auto]. Qed.

(** The values of [kindMap[k] || 'step']. *)
Lemma baseName_cases (k : string) :
  In (baseName_of k)
     (["data"; "split"; "scaler"; "feature"; "model"; "nn"; "eval"; "tuner"]
      ++ map snd Object_prototype ++ ["step"]).
Proof.
  unfold baseName_of, kindMap, Object_prototype. cbn [JsMap.get].
  repeat match goal with
         | |- context [if (?a =? k)%string then _ else _] => destruct (a =? k)%string
         end;
    cbn [map snd app]; repeat (first [left; reflexivity | right]).
Qed.

Lemma baseName_no_digit (k : string) :
  all_chars (fun c => negb (is_digit c)) (baseName_of k) = true.
Proof.
  pose proof (baseName_cases k) as Hk. cbn in Hk.
  repeat (destruct Hk as [Hk|Hk]; [rewrite <- Hk; reflexivity|]). destruct Hk.
Qed.

Lemma baseName_nonempty (k : string) : baseName_of k <> EmptyString.
Proof.
  pose proof (baseName_cases k) as Hk. cbn in Hk.
  repeat (destruct Hk as [Hk|Hk]; [rewrite <- Hk; discriminate|]). destruct Hk.
Qed.

Lemma uint_all_digits (d : Decimal.uint) :
  all_chars is_digit (NilEmpty.string_of_uint d) = true.
Proof. induction d; cbn; auto. Qed.

Lemma append_nil_r (a : string) : (a ++ EmptyString)%string = a.
Proof. induction a as [|c a IH]; cbn; [reflexivity | now rewrite IH]. Qed.

(** A text without digits followed by digits splits in one way only. *)
Lemma digits_suffix_unique (b b' d d' : string) :
  all_chars (fun c => negb (is_digit c)) b = true ->
  all_chars (fun c => negb (is_digit c)) b' = true ->
  all_chars is_digit d = true ->
  all_chars is_digit d' = true ->
  (b ++ d)%string = (b' ++ d')%string ->
  b = b' /\ d = d'.
Proof.
  revert b'. induction b as [|c b IH]; intros b' Hb Hb' Hd Hd' E.
  - destruct b' as [|c' b']; [now split|]. cbn in E. subst d. cbn in Hd, Hb'.
    apply andb_true_iff in Hd. apply andb_true_iff in Hb'.
    destruct Hd as [Hd _], Hb' as [Hb' _]. rewrite Hd in Hb'. discriminate.
  - destruct b' as [|c' b'].
    + cbn in E. subst d'. cbn in Hd', Hb.
      apply andb_true_iff in Hd'. apply andb_true_iff in Hb.
      destruct Hd' as [Hd' _], Hb as [Hb _]. rewrite Hd' in Hb. discriminate.
    + cbn in E. injection E as -> E. cbn in Hb, Hb'.
      apply andb_true_iff in Hb. apply andb_true_iff in Hb'.
      destruct (IH b' (proj2 Hb) (proj2 Hb') Hd Hd' E) as [-> ->]. now split.
Qed.

(** The digits that follow the short name. *)
Lemma name_for_suffix (k : string) (i : nat) :
  name_for k i
  = (baseName_of k ++ (if (i =? 0)%nat then EmptyString else nat_to_string (i + 1)))%string.
Proof. unfold name_for. destruct (i =? 0)%nat; [now rewrite append_nil_r | reflexivity]. Qed.

(** Two names are equal only for the same short name and the same
    occurrence number. *)
Lemma name_for_inj (k k' : string) (i j : nat) :
  name_for k i = name_for k' j <-> baseName_of k = baseName_of k' /\ i = j.
Proof.
  split; [|intros [E ->]; unfold name_for; now rewrite E].
  rewrite !name_for_suffix. intros E.
  assert (Hd : forall n, all_chars is_digit
                           (if (n =? 0)%nat then EmptyString else nat_to_string (n + 1))
                         = true).
  { intros n. destruct (n =? 0)%nat; [reflexivity|]. unfold nat_to_string.
    apply uint_all_digits. }
  destruct (digits_suffix_unique _ _ _ _ (baseName_no_digit k) (baseName_no_digit k')
              (Hd i) (Hd j) E) as [Hb E'].
  clear E. rename E' into E. split; [exact Hb|].
  destruct (Nat.eqb_spec i 0) as [Ei|Hi]; destruct (Nat.eqb_spec j 0) as [Ej|Hj];
    [congruence| | |].
  - symmetry in E. now apply nat_to_string_nonempty in E.
  - now apply nat_to_string_nonempty in E.
  - apply nat_to_string_inj in E. lia.
Qed.

Lemma name_for_nonempty (k : string) (i : nat) : name_for k i <> EmptyString.
Proof.
  rewrite name_for_suffix. pose proof (baseName_nonempty k) as Hk.
  destruct (baseName_of k); [congruence | discriminate].
Qed.

Lemma getSimpleVarName_spec node nodeIndex :
  fst (getSimpleVarName node nodeIndex) = name_for (kind node) (index_or0 nodeIndex (kind node))
  /\ forall k, index_or0 (snd (getSimpleVarName node nodeIndex)) k
               = index_or0 nodeIndex k + (if (kind node =? k)%string then 1 else 0).
Proof.
  unfold getSimpleVarName, name_for, index_or0. cbn [fst snd]. split; [reflexivity|].
  intros k. destruct (String.eqb_spec (kind node) k) as [<-|Hne].
  - now rewrite get_set_eq.
  - rewrite get_set_ne by assumption. lia.
Qed.

Lemma occurrences_cons (k : string) (a : NodeData) (l : list NodeData) :
  occurrences k (a :: l) = (if (kind a =? k)%string then 1 else 0) + occurrences k l.
Proof. unfold occurrences. cbn [filter]. destruct (kind a =? k)%string; reflexivity. Qed.

Lemma assign_fold (l : list NodeData) :
  forall (varNameMap : JsMap.t string) (nodeIndex : JsMap.t nat),
    let st := fold_left assign_step l (varNameMap, nodeIndex) in
    (forall k, index_or0 (snd st) k = index_or0 nodeIndex k + occurrences k l)
    /\ (forall x, ~ In x (map id l) -> JsMap.get (fst st) x = JsMap.get varNameMap x)
    /\ (forall l1 n l2,
           l = l1 ++ n :: l2 -> ~ In (id n) (map id l2) ->
           JsMap.get (fst st) (id n)
           = Some (name_for (kind n) (index_or0 nodeIndex (kind n) + occurrences (kind n) l1))).
Proof.
  induction l as [|a l IH]; intros vm ni; cbn zeta.
  - cbn. split; [intros; unfold occurrences; cbn; lia|]. split; [reflexivity|].
    intros l1 n l2 E. destruct l1; discriminate.
  - cbn [fold_left]. unfold assign_step at 2 4 6.
    pose proof (getSimpleVarName_spec a ni) as [Hname Hidx].
    destruct (getSimpleVarName a ni) as [varName ni1]. cbn [fst snd] in Hname, Hidx.
    specialize (IH (JsMap.set vm (id a) varName) ni1). cbn zeta in IH.
    destruct IH as (IHi & IHo & IHn).
    split; [|split].
    + intros k. rewrite IHi, Hidx, occurrences_cons. lia.
    + intros x Hx. rewrite IHo by (intros H; apply Hx; now right).
      apply get_set_ne. intros E. apply Hx. now left.
    + intros l1 n l2 E Hn. destruct l1 as [|b l1]; cbn [app] in E; injection E as -> ->.
      * rewrite IHo by assumption. rewrite get_set_eq, Hname. unfold occurrences. cbn.
        now rewrite Nat.add_0_r.
      * rewrite (IHn l1 n l2 eq_refl Hn), Hidx, occurrences_cons. f_equal. f_equal. lia.
Qed.

(** The name stored for a scheduled node, when the scheduled ids are
    distinct. *)
Lemma varName_of_scheduled (sortedNodes l1 l2 : list NodeData) (n : NodeData) :
  NoDup (map id sortedNodes) ->
  sortedNodes = l1 ++ n :: l2 ->
  varName_of (assign_names sortedNodes) n = name_for (kind n) (occurrences (kind n) l1).
Proof.
  intros Hnd E. unfold varName_of, assign_names.
  destruct (assign_fold sortedNodes [] []) as (_ & _ & H). cbn zeta in H.
  assert (Hx : ~ In (id n) (map id l2)).
  { rewrite E, map_app in Hnd. cbn [map] in Hnd. apply NoDup_remove_2 in Hnd.
    intros Hin. apply Hnd, in_or_app. now right. }
  specialize (H l1 n l2 E Hx). unfold JsMap.t in *. rewrite H.
  cbn. destruct (String.eqb_spec (name_for (kind n) (occurrences (kind n) l1)) EmptyString)
    as [E0|_]; [now apply name_for_nonempty in E0 | reflexivity].
Qed.

(** X5: when the scheduled nodes have distinct ids, the name of a node is
    the short name of its kind, bare when no node of that kind precedes it
    and followed by [i + 1] when [i] of them do; two scheduled nodes of the
    same kind therefore never share a name, and two nodes share one exactly
    when their kinds have the same short name and they have the same number
    of predecessors of their own kind. *)
Theorem assigned_names_by_occurrence :
  forall sortedNodes,
    NoDup (map id sortedNodes) ->
    (forall l1 n l2,
        sortedNodes = l1 ++ n :: l2 ->
        varName_of (assign_names sortedNodes) n = name_for (kind n) (occurrences (kind n) l1))
    /\ (forall l1 n l2 m l3,
           sortedNodes = l1 ++ n :: l2 ++ m :: l3 ->
           (varName_of (assign_names sortedNodes) n = varName_of (assign_names sortedNodes) m
            <-> baseName_of (kind n) = baseName_of (kind m)
                /\ occurrences (kind n) l1 = occurrences (kind m) (l1 ++ n :: l2)))
    /\ (forall l1 n l2 m l3,
           sortedNodes = l1 ++ n :: l2 ++ m :: l3 ->
           kind n = kind m ->
           varName_of (assign_names sortedNodes) n <> varName_of (assign_names sortedNodes) m).
Proof.
  intros sortedNodes Hnd.
  assert (Hname : forall l1 n l2,
             sortedNodes = l1 ++ n :: l2 ->
             varName_of (assign_names sortedNodes) n
             = name_for (kind n) (occurrences (kind n) l1)).
  { intros l1 n l2 E. now apply (varName_of_scheduled sortedNodes l1 l2 n). }
  split; [exact Hname|].
  assert (Hiff : forall l1 n l2 m l3,
             sortedNodes = l1 ++ n :: l2 ++ m :: l3 ->
             (varName_of (assign_names sortedNodes) n = varName_of (assign_names sortedNodes) m
              <-> baseName_of (kind n) = baseName_of (kind m)
                  /\ occurrences (kind n) l1 = occurrences (kind m) (l1 ++ n :: l2))).
  { intros l1 n l2 m l3 E.
    rewrite (Hname l1 n (l2 ++ m :: l3) E).
    rewrite (Hname (l1 ++ n :: l2) m l3) by (rewrite E, <- app_assoc; reflexivity).
    apply name_for_inj. }
  split; [exact Hiff|].
  intros l1 n l2 m l3 E Hk Heq. apply (Hiff l1 n l2 m l3 E) in Heq. destruct Heq as [_ Ho].
  rewrite <- Hk in Ho. unfold occurrences in Ho. rewrite filter_app, length_app in Ho.
  cbn [filter] in Ho. rewrite String.eqb_refl in Ho. cbn [List.length] in Ho. lia.
Qed.

Lemma assigned_names_by_occurrence_witness :
  varName_of (assign_names three_scalers) (mk_node "Z2" "scaler")
  <> varName_of (assign_names three_scalers) (mk_node "Z3" "scaler").
Proof.
  refine (proj2 (proj2 (assigned_names_by_occurrence three_scalers _))
            [mk_node "Z1" "scaler"] (mk_node "Z2" "scaler") []
            (mk_node "Z3" "scaler") [] eq_refl eq_refl).
  cbn. repeat constructor; cbn; intuition discriminate.
Defined.

(** ** Names across blocks *)

Lemma append_assoc (a b c : string) : ((a ++ b) ++ c)%string = (a ++ b ++ c)%string.
Proof. induction a as [|x a IH]; cbn; [reflexivity | now rewrite IH]. Qed.

Lemma render_line_app (l1 l2 : line) :
  render_line (l1 ++ l2) = (render_line l1 ++ render_line l2)%string.
Proof.
  induction l1 as [|p l1 IH]; cbn; [reflexivity|].
  fold (render_line (l1 ++ l2)). fold (render_line l1). now rewrite IH, append_assoc.
Qed.

(** The entry of [varNameMap] for a scheduled node. *)
Lemma assign_names_get (sortedNodes l1 l2 : list NodeData) (n : NodeData) :
  NoDup (map id sortedNodes) ->
  sortedNodes = l1 ++ n :: l2 ->
  JsMap.get (assign_names sortedNodes) (id n)
  = Some (name_for (kind n) (occurrences (kind n) l1)).
Proof.
  intros Hnd E. unfold assign_names.
  destruct (assign_fold sortedNodes [] []) as (_ & _ & H). cbn zeta in H.
  apply (H l1 n l2 E).
  rewrite E, map_app in Hnd. cbn [map] in Hnd. apply NoDup_remove_2 in Hnd.
  intros Hin. apply Hnd, in_or_app. now right.
Qed.

(** A short name taken from [kindMap], whatever follows it, is no
    [step_...] name. *)
Lemma short_name_not_step (k : string) (i : nat) (o x : string) :
  baseName_of k <> "step" -> (name_for k i ++ o)%string <> ("step_" ++ x)%string.
Proof.
  intros Hs. unfold name_for. pose proof (baseName_cases k) as Hk. cbn in Hk.
  destruct (i =? 0)%nat;
    repeat (destruct Hk as [Hk|Hk];
            [first [ now (exfalso; apply Hs) | rewrite <- Hk; cbn; discriminate ]|]);
    destruct Hk.
Qed.

(** X6: a classifier, regressor or neural network reads its training data
    from variables named [step_<source>_<output>], while the block of a
    data split assigns [<name>_X_train], [<name>_X_test], [<name>_y_train]
    and [<name>_y_test], and the block of a scaler [<name>_X_train] and
    [<name>_X_test], with the short name [split], [scaler], [scaler2], ...
    of the node; whatever the connections are, no variable made of that
    short name and an output key is one that the trainer reads. *)
Theorem split_and_scaler_outputs_never_feed_a_trainer :
  forall h sortedNodes connections nodeMap s n xc yc,
    NoDup (map id sortedNodes) ->
    In s sortedNodes ->
    kind s = "dataSplit" \/ kind s = "scaler" ->
    is_trainer (kind n) ->
    find_input connections (id n) "X_train" = Some xc ->
    find_input connections (id n) "y_train" = Some yc ->
    let varNameMap := assign_names sortedNodes in
    let v := varName_of varNameMap s in
    (kind s = "dataSplit" ->
     In [Sub v; py "_X_train, "; Sub v; py "_X_test, "; Sub v; py "_y_train, "; Sub v;
         py "_y_test = train_test_split("]
        (nodeToCode_tpl h s connections nodeMap v (Some varNameMap)))
    /\ (kind s = "scaler" ->
        exists x,
          In [Sub v; py "_X_train = "; Sub v; py ".fit_transform("; Sub x; py ")"]
             (nodeToCode_tpl h s connections nodeMap v (Some varNameMap)))
    /\ In [py "step_"; Sub (sanitize (id n)); py "_model.fit(";
           Sub (step_output_var xc); py ", "; Sub (step_output_var yc); py ")"]
          (nodeToCode_tpl h n connections nodeMap (varName_of varNameMap n) (Some varNameMap))
    /\ forall output,
         (v ++ "_" ++ output)%string <> step_output_var xc
         /\ (v ++ "_" ++ output)%string <> step_output_var yc.
Proof.
  intros h sortedNodes connections nodeMap s n xc yc Hnd Hin Hk Ht Hx Hy varNameMap v.
  assert (Hno : forall c output, (v ++ "_" ++ output)%string <> step_output_var c).
  { intros c output. destruct (in_split s sortedNodes Hin) as (l1 & l2 & E).
    subst v varNameMap. rewrite (varName_of_scheduled sortedNodes l1 l2 s Hnd E).
    assert (Hb : baseName_of (kind s) <> "step")
      by (destruct Hk as [Hk|Hk]; rewrite Hk; discriminate).
    unfold step_output_var, step_name.
    exact (short_name_not_step _ _ _ (sanitize (source c) ++ "_" ++ sourceOutput c) Hb). }
  split; [|split; [|split; [|intros output; split; apply Hno]]].
  - intros Hs. unfold nodeToCode_tpl. rewrite Hs. cbn [String.eqb Ascii.eqb Bool.eqb].
    unfold code_dataSplit. do 4 right. left. reflexivity.
  - intros Hs. unfold nodeToCode_tpl. rewrite Hs. cbn [String.eqb Ascii.eqb Bool.eqb].
    unfold code_scaler. eexists.
    destruct (find_input connections (id s) "X_test"); do 2 right; left; reflexivity.
  - unfold nodeToCode_tpl.
    destruct Ht as [Ht|[Ht|Ht]]; rewrite Ht; cbn [String.eqb Ascii.eqb Bool.eqb];
      unfold code_classifier, code_regressor, code_neuralNet; rewrite Hx, Hy;
      unfold trainer_block; do 2 right; left; reflexivity.
Qed.

Lemma split_and_scaler_outputs_never_feed_a_trainer_witness :
  (varName_of (assign_names (nodes template_basic)) basic_scaler ++ "_" ++ "X_train")%string
  <> step_output_var (mk_conn "node-3" "X_train" "node-4" "X_train").
Proof.
  refine (proj1 (proj2 (proj2 (proj2
    (split_and_scaler_outputs_never_feed_a_trainer sample_host (nodes template_basic)
       (connections template_basic) [] basic_scaler basic_classifier
       (mk_conn "node-3" "X_train" "node-4" "X_train")
       (mk_conn "node-2" "y_train" "node-4" "y_train")
       _ _ (or_intror eq_refl) (or_introl eq_refl) eq_refl eq_refl))) "X_train")).
  - cbn. repeat constructor; cbn; intuition discriminate.
  - cbn. auto.
Defined.

(** X7: the helpers [getSourceVarName] and [getSourceOutputVar] resolve a
    connection from a scheduled node to that node's entry in [varNameMap],
    the name that [generatePythonCode] passes to the node's own block.  A
    data loader and a data split store their results under that name, so
    the two blocks that use the helpers read variables that exist: a split
    fed by a data loader drops the target column from the variable that the
    loader's block assigns, and a scaler whose [X_train] input comes from
    one of the four outputs of a split fits on one of the four variables
    that the split's block assigns.  (Blocks of the other kinds store their
    results under [step_<id>_...] names instead.) *)
Theorem upstream_names_agree :
  forall h sortedNodes connections nodeMap s,
    NoDup (map id sortedNodes) ->
    In s sortedNodes ->
    let varNameMap := assign_names sortedNodes in
    let v := varName_of varNameMap s in
    (forall t key c,
        find_input connections t key = Some c ->
        source c = id s ->
        getSourceVarName connections (Some varNameMap) t key = v
        /\ getSourceOutputVar connections (Some varNameMap) t key
           = (v ++ "_" ++ sourceOutput c)%string)
    /\ (forall n c,
           kind s = "dataLoader" ->
           kind n = "dataSplit" ->
           find_input connections (id n) "data" = Some c ->
           source c = id s ->
           (In [Sub v; py " = pd.read_csv(io.StringIO(csv_content))"]
               (nodeToCode_tpl h s connections nodeMap v (Some varNameMap))
            \/ exists fileName,
                In [Sub v; py " = pd.read_csv('"; Sub fileName; py "')"]
                   (nodeToCode_tpl h s connections nodeMap v (Some varNameMap)))
           /\ exists targetColumn,
               In [py "X_all = "; Sub v; py ".drop('"; Sub targetColumn; py "', axis=1)"]
                  (nodeToCode_tpl h n connections nodeMap (varName_of varNameMap n)
                                  (Some varNameMap)))
    /\ (forall n c,
           kind s = "dataSplit" ->
           kind n = "scaler" ->
           find_input connections (id n) "X_train" = Some c ->
           source c = id s ->
           In (sourceOutput c) ["X_train"; "X_test"; "y_train"; "y_test"] ->
           In [Sub v; py "_X_train, "; Sub v; py "_X_test, "; Sub v; py "_y_train, "; Sub v;
               py "_y_test = train_test_split("]
              (nodeToCode_tpl h s connections nodeMap v (Some varNameMap))
           /\ exists x,
               In x (split_outputs v)
               /\ In [Sub (varName_of varNameMap n); py "_X_train = ";
                      Sub (varName_of varNameMap n); py ".fit_transform("; Sub x; py ")"]
                     (nodeToCode_tpl h n connections nodeMap (varName_of varNameMap n)
                                     (Some varNameMap))).
Proof.
  intros h sortedNodes connections nodeMap s Hnd Hin varNameMap v.
  destruct (in_split s sortedNodes Hin) as (l1 & l2 & E).
  pose proof (assign_names_get sortedNodes l1 l2 s Hnd E) as Hget.
  pose proof (varName_of_scheduled sortedNodes l1 l2 s Hnd E) as Hname.
  fold varNameMap in Hget, Hname. fold v in Hname.
  assert (Hsrc : source_var (Some varNameMap) (id s) = v).
  { rewrite Hname. unfold source_var. unfold JsMap.t in *. rewrite Hget.
    destruct (String.eqb_spec (name_for (kind s) (occurrences (kind s) l1)) EmptyString)
      as [E0|_]; [now apply name_for_nonempty in E0 | reflexivity]. }
  assert (Hhelpers : forall t key c,
             find_input connections t key = Some c ->
             source c = id s ->
             getSourceVarName connections (Some varNameMap) t key = v
             /\ getSourceOutputVar connections (Some varNameMap) t key
                = (v ++ "_" ++ sourceOutput c)%string).
  { intros t key c Hc Hs. unfold getSourceVarName, getSourceOutputVar.
    rewrite Hc, Hs, Hsrc. split; reflexivity. }
  split; [exact Hhelpers|]. split.
  - intros n c Hks Hkn Hc Hs.
    destruct (Hhelpers (id n) "data" c Hc Hs) as [Hvar _]. split.
    + unfold nodeToCode_tpl. rewrite Hks. cbn [String.eqb Ascii.eqb Bool.eqb].
      unfold code_dataLoader.
      destruct (if hasWindow h then _ else None) as [[|ch stored]|];
        first [ left; do 6 right; left; reflexivity
              | right; eexists; right; left; reflexivity ].
    + unfold nodeToCode_tpl. rewrite Hkn. cbn [String.eqb Ascii.eqb Bool.eqb].
      unfold code_dataSplit. rewrite Hvar. eexists. do 2 right. left. reflexivity.
  - intros n c Hks Hkn Hc Hs Hout.
    destruct (Hhelpers (id n) "X_train" c Hc Hs) as [_ Hvar]. split.
    + unfold nodeToCode_tpl. rewrite Hks. cbn [String.eqb Ascii.eqb Bool.eqb].
      unfold code_dataSplit. do 4 right. left. reflexivity.
    + exists (v ++ "_" ++ sourceOutput c)%string. split.
      * unfold split_outputs.
        destruct Hout as [<-|[<-|[<-|[<-|[]]]]]; cbn; auto.
      * unfold nodeToCode_tpl. rewrite Hkn. cbn [String.eqb Ascii.eqb Bool.eqb].
        unfold code_scaler. rewrite Hvar.
        destruct (find_input connections (id n) "X_test"); do 2 right; left; reflexivity.
Qed.

Lemma upstream_names_agree_witness :
  getSourceOutputVar scaler_connections
    (Some (assign_names (nodes test_only_scaler_graph))) "Z" "X_train"
  = (varName_of (assign_names (nodes test_only_scaler_graph)) (mk_node "S" "dataSplit")
     ++ "_" ++ "X_train")%string.
Proof.
  refine (proj2 (proj1
    (upstream_names_agree sample_host (nodes test_only_scaler_graph) scaler_connections []
       (mk_node "S" "dataSplit") _ _)
    "Z" "X_train" (mk_conn "S" "X_train" "Z" "X_train") eq_refl eq_refl)).
  - cbn. repeat constructor; cbn; intuition discriminate.
  - cbn. auto.
Defined.

(** X8: the variable [step_<id>_model] that the block of a classifier,
    regressor or neural network assigns is the one on which the block of a
    predict node connected to it calls [.predict], and the variable
    [step_<id>_prediction] that the predict block assigns is the one that
    an evaluate node reads when its [prediction] input comes from the
    [prediction] output of that predict node. *)
Theorem model_and_prediction_names_agree :
  forall h connections nodeMap varName varNameMap t p e xt yt mc xc pc yc,
    is_trainer (kind t) ->
    find_input connections (id t) "X_train" = Some xt ->
    find_input connections (id t) "y_train" = Some yt ->
    kind p = "predict" ->
    find_input connections (id p) "model" = Some mc ->
    source mc = id t ->
    find_input connections (id p) "X_test" = Some xc ->
    kind e = "evaluate" ->
    find_input connections (id e) "prediction" = Some pc ->
    source pc = id p ->
    sourceOutput pc = "prediction" ->
    find_input connections (id e) "y_test" = Some yc ->
    let model := (step_name (id t) ++ "_model")%string in
    let prediction := (step_name (id p) ++ "_prediction")%string in
    (exists l rest,
        In l (nodeToCode_tpl h t connections nodeMap varName varNameMap)
        /\ render_line l = (model ++ " = " ++ rest)%string)
    /\ (exists l rest,
           In l (nodeToCode_tpl h p connections nodeMap varName varNameMap)
           /\ render_line l = (prediction ++ " = " ++ model ++ ".predict(" ++ rest)%string)
    /\ (exists l,
           In l (statements (nodeToCode_tpl h e connections nodeMap varName varNameMap))
           /\ In (Sub prediction) l).
Proof.
  intros h connections nodeMap varName varNameMap t p e xt yt mc xc pc yc
         Ht Hxt Hyt Hp Hmc Hsm Hxc He Hpc Hsp Hop Hyc model prediction.
  subst model prediction. unfold step_name.
  split; [|split].
  - unfold nodeToCode_tpl.
    destruct Ht as [Ht|[Ht|Ht]]; rewrite Ht; cbn [String.eqb Ascii.eqb Bool.eqb];
      unfold code_classifier, code_regressor, code_neuralNet; rewrite Hxt, Hyt;
      unfold trainer_block;
      match goal with
      | |- context [ ([py "step_"; Sub ?i; py "_model = "] ++ ?m) :: _ ] =>
          exists ([py "step_"; Sub i; py "_model = "] ++ m), (render_line m)
      end;
      (split; [right; left; reflexivity|]);
      rewrite render_line_app; cbn; now rewrite !append_assoc.
  - unfold nodeToCode_tpl. rewrite Hp. cbn [String.eqb Ascii.eqb Bool.eqb].
    unfold code_predict. rewrite Hmc, Hxc, Hsm.
    eexists. exists (step_output_var xc ++ ")")%string.
    split; [right; left; reflexivity|].
    cbn. unfold step_name. now rewrite !append_assoc.
  - unfold nodeToCode_tpl. rewrite He. cbn [String.eqb Ascii.eqb Bool.eqb].
    unfold code_evaluate. rewrite Hpc, Hyc.
    assert (Hv : step_output_var pc = ("step_" ++ sanitize (id p) ++ "_prediction")%string).
    { unfold step_output_var, step_name. now rewrite Hsp, Hop, append_assoc. }
    rewrite Hv.
    destruct (isRegression nodeMap (find_input connections (id e) "model")).
    + eexists. split; [cbn; right; left; reflexivity | cbn; auto 10].
    + eexists. split; [cbn; right; left; reflexivity | cbn; auto 10].
Qed.

Lemma model_and_prediction_names_agree_witness :
  exists l,
    In l (statements (nodeToCode_tpl sample_host (mk_node "E" "evaluate")
                        (connections regression_predict_graph) [] "step" None))
    /\ In (Sub (step_name "P" ++ "_prediction")%string) l.
Proof.
  refine (proj2 (proj2
    (model_and_prediction_names_agree sample_host (connections regression_predict_graph)
       [] "step" None (mk_node "R" "regressor") (mk_node "P" "predict")
       (mk_node "E" "evaluate")
       (mk_conn "S" "X_train" "R" "X_train") (mk_conn "S" "y_train" "R" "y_train")
       (mk_conn "R" "model" "P" "model") (mk_conn "S" "X_test" "P" "X_test")
       (mk_conn "P" "prediction" "E" "prediction") (mk_conn "S" "y_test" "E" "y_test")
       _ eq_refl eq_refl eq_refl eq_refl eq_refl eq_refl eq_refl eq_refl eq_refl eq_refl
       eq_refl))).
  right. left. reflexivity.
Defined.

(** ** The imports *)

Lemma set_add_fold_In (l acc : list string) (s : string) :
  In s (fold_left set_add l acc) <-> In s acc \/ In s l.
Proof.
  revert acc. induction l as [|a l IH]; intros acc; cbn [fold_left].
  - cbn. tauto.
  - rewrite IH. unfold set_add. destruct (includes acc a) eqn:E.
    + apply includes_In in E. cbn. split; [tauto|]. intros [H|[<-|H]]; auto.
    + rewrite in_app_iff. cbn. tauto.
Qed.

Lemma set_add_fold_NoDup (l acc : list string) :
  NoDup acc -> NoDup (fold_left set_add l acc).
Proof.
  revert acc. induction l as [|a l IH]; intros acc Hnd; cbn [fold_left]; [assumption|].
  apply IH. unfold set_add. destruct (includes acc a) eqn:E; [assumption|].
  apply NoDup_app; [assumption | repeat constructor; intros [] |].
  intros x Hx [<-|[]]. apply includes_In in Hx. congruence.
Qed.

Lemma set_add_fold_prefix (l acc : list string) :
  exists rest, fold_left set_add l acc = acc ++ rest.
Proof.
  revert acc. induction l as [|a l IH]; intros acc; cbn [fold_left].
  - exists []. now rewrite app_nil_r.
  - destruct (IH (set_add acc a)) as [rest E]. rewrite E. unfold set_add.
    destruct (includes acc a); [now exists rest|].
    exists (a :: rest). now rewrite <- app_assoc.
Qed.

Lemma imports_fold_In (nodes : list NodeData) (acc : list string) (s : string) :
  In s (fold_left (fun acc node => fold_left set_add (imports_of_kind (kind node)) acc)
                  nodes acc)
  <-> In s acc \/ exists n, In n nodes /\ In s (imports_of_kind (kind n)).
Proof.
  revert acc. induction nodes as [|a nodes IH]; intros acc; cbn [fold_left].
  - split; [tauto|]. intros [H|(n & [] & _)]. exact H.
  - rewrite IH, set_add_fold_In. split.
    + intros [[H|H]|(n & Hn & H)]; [now left | right; exists a; cbn; auto |].
      right. exists n. cbn. auto.
    + intros [H|(n & [<-|Hn] & H)]; [tauto | tauto |]. right. now exists n.
Qed.

Lemma imports_fold_NoDup (nodes : list NodeData) (acc : list string) :
  NoDup acc ->
  NoDup (fold_left (fun acc node => fold_left set_add (imports_of_kind (kind node)) acc)
                   nodes acc).
Proof.
  revert acc. induction nodes as [|a nodes IH]; intros acc Hnd; cbn [fold_left];
    [assumption|]. now apply IH, set_add_fold_NoDup.
Qed.

Lemma imports_fold_prefix (nodes : list NodeData) (acc : list string) :
  exists rest,
    fold_left (fun acc node => fold_left set_add (imports_of_kind (kind node)) acc)
              nodes acc = acc ++ rest.
Proof.
  revert acc. induction nodes as [|a nodes IH]; intros acc; cbn [fold_left].
  - exists []. now rewrite app_nil_r.
  - destruct (IH (fold_left set_add (imports_of_kind (kind a)) acc)) as [rest E].
    rewrite E. destruct (set_add_fold_prefix (imports_of_kind (kind a)) acc) as [r E'].
    rewrite E'. exists (r ++ rest). now rewrite app_assoc.
Qed.

Lemma import_lines_In (nodes : list NodeData) (s : string) :
  In s (import_lines nodes) <->
  In s ["import pandas as pd"; "import numpy as np"]
  \/ ((exists n, In n nodes /\ kind n = "dataLoader")
      /\ In s ["import io"; "import base64"])
  \/ exists n, In n nodes /\ In s (imports_of_kind (kind n)).
Proof.
  unfold import_lines. cbn zeta. rewrite imports_fold_In.
  assert (Hdl : existsb (fun n => (kind n =? "dataLoader")%string) nodes = true <->
                exists n, In n nodes /\ kind n = "dataLoader").
  { rewrite existsb_exists. split; intros (n & Hn & Hk); exists n; split; auto;
      now apply String.eqb_eq. }
  destruct (existsb (fun n => (kind n =? "dataLoader")%string) nodes).
  - rewrite set_add_fold_In. intuition.
  - split; [tauto|]. intros [H|[[H _]|H]]; [tauto | | tauto].
    apply Hdl in H. discriminate.
Qed.

(** X9: [generateImports] joins a list of lines without repetition that
    starts with the pandas and numpy imports; a line occurs in it exactly
    when it is one of these two, or one of the [io] and [base64] imports
    and the pipeline has a data loader, or an import of the kind of some
    node.  The set of lines therefore does not depend on the order of the
    nodes. *)
Theorem generateImports_lines :
  forall nodes,
    generateImports nodes = join nl (import_lines nodes)
    /\ NoDup (import_lines nodes)
    /\ (exists rest,
           import_lines nodes = "import pandas as pd" :: "import numpy as np" :: rest)
    /\ (forall s,
           In s (import_lines nodes) <->
           In s ["import pandas as pd"; "import numpy as np"]
           \/ ((exists n, In n nodes /\ kind n = "dataLoader")
               /\ In s ["import io"; "import base64"])
           \/ exists n, In n nodes /\ In s (imports_of_kind (kind n)))
    /\ (forall nodes' s,
           Permutation nodes nodes' ->
           In s (import_lines nodes) <-> In s (import_lines nodes')).
Proof.
  intros nodes. split; [reflexivity|]. split; [|split; [|split]].
  - unfold import_lines. cbn zeta. apply imports_fold_NoDup.
    assert (H0 : NoDup ["import pandas as pd"; "import numpy as np"])
      by (repeat constructor; cbn; intuition discriminate).
    destruct (existsb _ nodes); [now apply set_add_fold_NoDup | exact H0].
  - unfold import_lines. cbn zeta.
    match goal with
    | |- context [fold_left _ nodes ?acc] =>
        destruct (imports_fold_prefix nodes acc) as [rest E]; rewrite E
    end.
    destruct (existsb _ nodes).
    + destruct (set_add_fold_prefix ["import io"; "import base64"]
                  ["import pandas as pd"; "import numpy as np"]) as [r E'].
      rewrite E'. cbn. now exists (r ++ rest).
    + cbn. now exists rest.
  - apply import_lines_In.
  - intros nodes' s Hp. rewrite !import_lines_In.
    assert (Hex : forall P : NodeData -> Prop,
               (exists n, In n nodes /\ P n) <-> (exists n, In n nodes' /\ P n)).
    { intros P. split; intros (n & Hn & H); exists n; split; auto.
      - now apply (Permutation_in _ Hp).
      - now apply (Permutation_in _ (Permutation_sym Hp)). }
    rewrite (Hex (fun n => kind n = "dataLoader")).
    rewrite (Hex (fun n => In s (imports_of_kind (kind n)))). reflexivity.
Qed.

(** X10: whatever the [algorithm] control holds, the class that the block
    of a connected classifier, regressor or neural network instantiates on
    its [step_<id>_model = ...] line is named by one of the import lines of
    a pipeline that contains the node. *)
Theorem trained_model_class_is_imported :
  forall h nodes connections nodeMap varName varNameMap n xc yc,
    In n nodes ->
    is_trainer (kind n) ->
    find_input connections (id n) "X_train" = Some xc ->
    find_input connections (id n) "y_train" = Some yc ->
    In ([py "step_"; Sub (sanitize (id n)); py "_model = "] ++ modelCode_of h n)
       (nodeToCode_tpl h n connections nodeMap varName varNameMap)
    /\ constructor_of (modelCode_of h n) <> EmptyString
    /\ exists imp,
         In imp (import_lines nodes)
         /\ contains (constructor_of (modelCode_of h n)) imp = true.
Proof.
  intros h nodes connections nodeMap varName varNameMap n xc yc Hn Hk Hx Hy.
  split.
  { unfold nodeToCode_tpl, modelCode_of.
    destruct Hk as [Hk|[Hk|Hk]]; rewrite Hk; cbn [String.eqb Ascii.eqb Bool.eqb];
      unfold code_classifier, code_regressor, code_neuralNet; rewrite Hx, Hy;
      unfold trainer_block; right; left; reflexivity. }
  assert (Himp : forall imp, In imp (imports_of_kind (kind n)) -> In imp (import_lines nodes)).
  { intros imp H. apply import_lines_In. right. right. now exists n. }
  unfold modelCode_of.
  destruct Hk as [Hk|[Hk|Hk]]; rewrite Hk in *; cbn [String.eqb Ascii.eqb Bool.eqb].
  - unfold classifier_modelCode.
    repeat match goal with
           | |- context [if strict_eq_str ?a ?b then _ else _] => destruct (strict_eq_str a b)
           end;
      (split; [cbn; discriminate|]).
    all: try (exists "from sklearn.ensemble import RandomForestClassifier, GradientBoostingClassifier";
              split; [apply Himp; cbn; tauto | reflexivity]).
    + exists "from sklearn.linear_model import LogisticRegression".
      split; [apply Himp; cbn; tauto | reflexivity].
    + exists "from sklearn.svm import SVC". split; [apply Himp; cbn; tauto | reflexivity].
    + exists "from sklearn.tree import DecisionTreeClassifier".
      split; [apply Himp; cbn; tauto | reflexivity].
    + exists "from sklearn.neighbors import KNeighborsClassifier".
      split; [apply Himp; cbn; tauto | reflexivity].
  - unfold regressor_modelCode.
    repeat match goal with
           | |- context [if strict_eq_str ?a ?b then _ else _] => destruct (strict_eq_str a b)
           end;
      (split; [cbn; discriminate|]).
    all: try (exists "from sklearn.linear_model import LinearRegression, Ridge, Lasso";
              split; [apply Himp; cbn; tauto | reflexivity]).
    all: try (exists "from sklearn.ensemble import RandomForestRegressor, GradientBoostingRegressor";
              split; [apply Himp; cbn; tauto | reflexivity]).
    exists "from sklearn.svm import SVR". split; [apply Himp; cbn; tauto | reflexivity].
  - split; [cbn; discriminate|].
    exists "from sklearn.neural_network import MLPClassifier".
    split; [apply Himp; cbn; tauto | reflexivity].
Qed.

Lemma trained_model_class_is_imported_witness :
  exists imp,
    In imp (import_lines (nodes regression_graph))
    /\ contains (constructor_of (modelCode_of sample_host (mk_node "R" "regressor"))) imp
       = true.
Proof.
  refine (proj2 (proj2
    (trained_model_class_is_imported sample_host (nodes regression_graph)
       (connections regression_graph) [] "model" None (mk_node "R" "regressor")
       (mk_conn "S" "X_train" "R" "X_train") (mk_conn "S" "y_train" "R" "y_train")
       _ _ eq_refl eq_refl))).
  - cbn. auto.
  - right. left. reflexivity.
Defined.

(** X11: the block of a connected hyperparameter-tuning node builds its
    grid search around [RandomForestClassifier], but the import lines name
    that class only when the pipeline has a classifier node: with no
    classifier, no import line mentions it. *)
Theorem tuning_class_needs_a_classifier :
  forall nodes connections n xc yc,
    (forall m, In m nodes -> kind m <> "classifier") ->
    find_input connections (id n) "X_train" = Some xc ->
    find_input connections (id n) "y_train" = Some yc ->
    In [py "grid_search = GridSearchCV(RandomForestClassifier(random_state=42), param_grid, cv=5)"]
       (code_hyperparamTune n connections)
    /\ forall imp, In imp (import_lines nodes) ->
                   contains "RandomForestClassifier" imp = false.
Proof.
  intros nodes connections n xc yc Hno Hx Hy. split.
  - unfold code_hyperparamTune. rewrite Hx, Hy. do 5 right. left. reflexivity.
  - intros imp Himp. apply import_lines_In in Himp.
    destruct Himp as [H|[[_ H]|(m & Hm & H)]].
    + cbn in H. destruct H as [<-|[<-|[]]]; reflexivity.
    + cbn in H. destruct H as [<-|[<-|[]]]; reflexivity.
    + specialize (Hno m Hm). unfold imports_of_kind in H.
      repeat match type of H with
             | In _ (if (?a =? ?b)%string then _ else _) =>
                 destruct (String.eqb_spec a b) as [?|?]; cbv iota in H
             end;
        try congruence; cbn in H;
        repeat match type of H with
               | _ \/ _ => destruct H as [<-|H]; [reflexivity|]
               end; destruct H.
Qed.

Lemma tuning_class_needs_a_classifier_witness :
  In [py "grid_search = GridSearchCV(RandomForestClassifier(random_state=42), param_grid, cv=5)"]
     (code_hyperparamTune tuning_node (connections template_tuning))
  /\ contains "RandomForestClassifier" (generateImports (nodes template_tuning)) = false.
Proof.
  split; [|reflexivity].
  refine (proj1 (tuning_class_needs_a_classifier (nodes template_tuning)
                   (connections template_tuning) tuning_node
                   (mk_conn "node-2" "X_train" "node-3" "X_train")
                   (mk_conn "node-2" "y_train" "node-3" "y_train")
                   _ eq_refl eq_refl)).
  intros m [<-|[<-|[<-|[<-|[]]]]]; discriminate.
Defined.

(** ** The depth-first cycle check of [validatePipeline] *)

Lemma hasCycle_S (fuel : nat) (graph : JsMap.t (list string)) (u : string)
  (visited recStack : list string) :
  hasCycle (S fuel) graph u visited recStack
  = dfs_each (hasCycle fuel graph) u (neighbors graph u) (u :: visited) (u :: recStack).
Proof. reflexivity. Qed.

Lemma dfs_each_nil rec u visited recStack :
  dfs_each rec u [] visited recStack = Some (false, visited, remove string_dec u recStack).
Proof. reflexivity. Qed.

Lemma dfs_each_cons rec u w ns visited recStack :
  dfs_each rec u (w :: ns) visited recStack
  = if negb (includes visited w) then
      match rec w visited recStack with
      | Some (false, visited', recStack') => dfs_each rec u ns visited' recStack'
      | other => other
      end
    else if includes recStack w then Some (true, visited, recStack)
    else dfs_each rec u ns visited recStack.
Proof. reflexivity. Qed.

Lemma filter_count_le {A : Type} (f g : A -> bool) (l : list A) :
  (forall x, In x l -> f x = true -> g x = true) ->
  List.length (filter f l) <= List.length (filter g l).
Proof.
  induction l as [|a l IH]; intros H; cbn [filter]; [lia|].
  assert (IH' : List.length (filter f l) <= List.length (filter g l))
    by (apply IH; intros x Hx; apply H; now right).
  destruct (f a) eqn:Ef.
  - rewrite (H a (or_introl eq_refl) Ef). cbn [List.length]. lia.
  - destruct (g a); cbn [List.length]; lia.
Qed.

Lemma filter_count_lt {A : Type} (f g : A -> bool) (l : list A) (x : A) :
  (forall y, In y l -> f y = true -> g y = true) ->
  In x l -> f x = false -> g x = true ->
  List.length (filter f l) < List.length (filter g l).
Proof.
  induction l as [|a l IH]; intros H Hx Hf Hg; [destruct Hx|]. cbn [filter].
  assert (Hle : List.length (filter f l) <= List.length (filter g l))
    by (apply filter_count_le; intros y Hy; apply H; now right).
  destruct Hx as [->|Hx].
  - rewrite Hf, Hg. cbn [List.length]. lia.
  - assert (IH' : List.length (filter f l) < List.length (filter g l))
      by (apply IH; auto; intros y Hy; apply H; now right).
    destruct (f a) eqn:Ef.
    + rewrite (H a (or_introl eq_refl) Ef). cbn [List.length]. lia.
    + destruct (g a); cbn [List.length]; lia.
Qed.

Lemma clos_trans_equiv {A : Type} (R S : relation A) :
  (forall a b, R a b -> S a b) ->
  forall x y, clos_trans A R x y -> clos_trans A S x y.
Proof.
  intros H x y Hc. induction Hc as [x y Hxy|x y z _ IH1 _ IH2].
  - apply t_step. now apply H.
  - now apply t_trans with y.
Qed.

Section DepthFirst.

Variable graph : JsMap.t (list string).

Lemma unvisited_mono (V V' : list string) :
  incl V V' -> unvisited graph V' <= unvisited graph V.
Proof.
  intros Hi. apply filter_count_le. intros x _ H.
  apply negb_true_iff in H. apply negb_true_iff. apply includes_false in H.
  apply includes_false. intros Hx. apply H, Hi, Hx.
Qed.

Lemma unvisited_lt (u : string) (V : list string) :
  In u (JsMap.keys graph) -> ~ In u V -> unvisited graph (u :: V) < unvisited graph V.
Proof.
  intros Hk Hu. apply (filter_count_lt _ _ _ u).
  - intros y _ H. apply negb_true_iff in H. apply negb_true_iff.
    apply includes_false in H. apply includes_false. intros Hy. apply H. now right.
  - exact Hk.
  - apply negb_false_iff, includes_In. now left.
  - apply negb_true_iff, includes_false. exact Hu.
Qed.

Lemma unvisited_le_keys (V : list string) : unvisited graph V <= List.length graph.
Proof.
  unfold unvisited. etransitivity; [apply filter_length_le|].
  unfold JsMap.keys. now rewrite length_map.
Qed.

Lemma neighbors_key (u : string) : neighbors graph u <> [] -> In u (JsMap.keys graph).
Proof.
  unfold neighbors. destruct (JsMap.get graph u) as [ns|] eqn:E; [|congruence].
  intros _. now apply (get_Some_In graph u ns).
Qed.

Lemma finished_reach (V R : list string) :
  dfs_inv graph V R ->
  forall b x, clos_refl_trans string (dfs_edge graph) b x -> finished V R b -> finished V R x.
Proof.
  intros Hinv b x H. apply clos_rt_rt1n in H.
  induction H as [|b w x Hbw _ IH]; intros Hb; [assumption|].
  apply IH. now apply (finished_closed _ _ _ Hinv b w).
Qed.

Lemma cycle_first_step (u : string) :
  clos_trans string (dfs_edge graph) u u ->
  exists w, dfs_edge graph u w /\ clos_refl_trans string (dfs_edge graph) w u.
Proof.
  intros H. apply clos_trans_t1n in H. inversion H as [w Hw|w z Hw Hz]; subst.
  - exists u. split; [assumption | apply rt_refl].
  - exists w. split; [assumption|]. apply clos_t1n_trans in Hz.
    now apply clos_t_clos_rt.
Qed.

Lemma step_back_cycle (u w : string) :
  dfs_edge graph u w -> clos_refl_trans string (dfs_edge graph) w u ->
  clos_trans string (dfs_edge graph) u u.
Proof.
  intros Hw Hr. apply clos_rt_rtn1 in Hr.
  induction Hr as [|y z Hyz Hr IH].
  - now apply t_step.
  - apply clos_rtn1_rt in Hr.
    apply t_trans with y; [|now apply t_step].
    apply clos_trans_tn1_iff. apply clos_rt_rtn1 in Hr.
    clear IH Hyz. induction Hr as [|a b Hab Hr IH].
    + now apply tn1_step.
    + now apply Relation_Operators.tn1_trans with a.
Qed.

(** Pushing an unvisited node keeps the invariant. *)
Lemma dfs_inv_push (u : string) (V R : list string) :
  ~ In u V -> dfs_inv graph V R -> dfs_inv graph (u :: V) (u :: R).
Proof.
  intros Hu Hinv.
  assert (Hf : forall x, finished (u :: V) (u :: R) x <-> finished V R x).
  { intros x. unfold finished. cbn [In]. split.
    - intros [[->|Hx] Hn]; [exfalso; apply Hn; now left|]. split; [assumption|].
      intros Hr. apply Hn. now right.
    - intros [Hx Hn]. split; [now right|]. intros [->|Hr]; contradiction. }
  constructor.
  - intros x [->|Hx]; [now left|]. right. now apply (stack_visited _ _ _ Hinv).
  - intros b w Hb Hw. apply Hf. apply Hf in Hb.
    now apply (finished_closed _ _ _ Hinv b w).
  - intros b Hb. apply Hf in Hb. now apply (finished_acyclic _ _ _ Hinv).
Qed.

(** Popping a node all of whose neighbours are finished keeps it too. *)
Lemma dfs_inv_pop (u : string) (V R : list string) :
  In u V -> ~ In u R ->
  dfs_inv graph V (u :: R) ->
  (forall w, dfs_edge graph u w -> finished V (u :: R) w) ->
  dfs_inv graph V R.
Proof.
  intros Hu HuR Hinv Hsucc.
  assert (Hf : forall x, finished V R x <-> finished V (u :: R) x \/ x = u).
  { intros x. unfold finished. cbn [In]. split.
    - intros [Hx Hn]. destruct (string_dec x u) as [->|Hne]; [now right|].
      left. split; [assumption|]. intros [E|Hr]; [now symmetry in E | contradiction].
    - intros [[Hx Hn]| ->].
      + split; [assumption|]. intros Hr. apply Hn. now right.
      + split; assumption. }
  constructor.
  - intros x Hx. apply (stack_visited _ _ _ Hinv). now right.
  - intros b w Hb Hw. apply Hf. left. apply Hf in Hb. destruct Hb as [Hb| ->].
    + now apply (finished_closed _ _ _ Hinv b w).
    + now apply Hsucc.
  - intros b Hb. apply Hf in Hb. destruct Hb as [Hb| ->].
    + now apply (finished_acyclic _ _ _ Hinv).
    + intros Hc. destruct (cycle_first_step u Hc) as (w & Hw & Hr).
      pose proof (finished_reach V (u :: R) Hinv w u Hr (Hsucc w Hw)) as [_ Hn].
      apply Hn. now left.
Qed.

Lemma finished_incl (V V' R : list string) (x : string) :
  incl V V' -> finished V R x -> finished V' R x.
Proof. intros Hi [Hx Hn]. split; [now apply Hi | assumption]. Qed.

(** The loop over the neighbours of [u], given that the recursive calls
    behave. *)
Lemma dfs_each_ok
  (rec : string -> list string -> list string -> option (bool * list string * list string))
  (u : string) (R : list string) (bound : nat) :
  (forall w V,
      unvisited graph V < bound -> ~ In w V -> dfs_inv graph V (u :: R) ->
      (forall r, In r (u :: R) -> clos_refl_trans string (dfs_edge graph) r w) ->
      dfs_call_ok graph (rec w V (u :: R)) w V (u :: R)) ->
  ~ In u R ->
  (forall r, In r (u :: R) -> clos_refl_trans string (dfs_edge graph) r u) ->
  forall ns V,
    (ns <> [] -> unvisited graph V < bound) ->
    In u V ->
    dfs_inv graph V (u :: R) ->
    (forall w, In w ns -> dfs_edge graph u w) ->
    (forall w, dfs_edge graph u w -> In w ns \/ finished V (u :: R) w) ->
    exists b V' R',
      dfs_each rec u ns V (u :: R) = Some (b, V', R')
      /\ (b = true -> exists x, clos_trans string (dfs_edge graph) x x)
      /\ (b = false -> R' = R /\ incl V V' /\ dfs_inv graph V' R).
Proof.
  intros Hrec HuR Hreach ns.
  induction ns as [|w ns IH]; intros V Hfuel Hu Hinv Hns Hcover.
  - rewrite dfs_each_nil. exists false, V, (remove string_dec u (u :: R)).
    split; [reflexivity|]. split; [discriminate|]. intros _.
    split; [|split; [apply incl_refl|]].
    + cbn [remove]. destruct (string_dec u u) as [_|Hne]; [|contradiction].
      now apply notin_remove.
    + apply (dfs_inv_pop u V R Hu HuR Hinv). intros x Hx.
      destruct (Hcover x Hx) as [[]|Hf]. exact Hf.
  - rewrite dfs_each_cons.
    assert (Hfuel' : unvisited graph V < bound) by (apply Hfuel; discriminate).
    assert (Hw : dfs_edge graph u w) by (apply Hns; now left).
    assert (Hns' : forall x, In x ns -> dfs_edge graph u x)
      by (intros x Hx; apply Hns; now right).
    destruct (includes V w) eqn:Ev; cbn [negb].
    + apply includes_In in Ev.
      destruct (includes (u :: R) w) eqn:Er.
      * apply includes_In in Er. exists true, V, (u :: R).
        split; [reflexivity|]. split; [|discriminate]. intros _.
        exists u. apply (step_back_cycle u w Hw). now apply Hreach.
      * apply includes_false in Er.
        apply (IH V); auto.
        intros x Hx. destruct (Hcover x Hx) as [[<-|Hin]|Hf]; auto.
        right. split; assumption.
    + apply includes_false in Ev.
      assert (Hreach' : forall r, In r (u :: R) ->
                                  clos_refl_trans string (dfs_edge graph) r w).
      { intros r Hr. apply rt_trans with u; [now apply Hreach | now apply rt_step]. }
      destruct (Hrec w V Hfuel' Ev Hinv Hreach') as (b & V1 & R1 & E & Htrue & Hfalse).
      rewrite E. destruct b.
      * exists true, V1, R1. split; [reflexivity|]. split; [exact Htrue | discriminate].
      * destruct (Hfalse eq_refl) as (-> & Hi & Hw1 & Hinv1).
        assert (Hwf : finished V1 (u :: R) w).
        { split; [assumption|]. intros Hr. apply Ev.
          now apply (stack_visited _ _ _ Hinv). }
        destruct (IH V1) as (b' & V' & R' & E' & Htrue' & Hfalse').
        -- intros _. pose proof (unvisited_mono V V1 Hi). lia.
        -- now apply Hi.
        -- exact Hinv1.
        -- exact Hns'.
        -- intros x Hx. destruct (Hcover x Hx) as [[<-|Hin]|Hf]; auto.
           right. now apply (finished_incl V V1).
        -- exists b', V', R'. split; [exact E'|]. split; [exact Htrue'|].
           intros Hb. destruct (Hfalse' Hb) as (-> & Hi' & Hinv').
           split; [reflexivity|]. split; [|exact Hinv'].
           intros x Hx. apply Hi', Hi, Hx.
Qed.

Lemma hasCycle_ok (fuel : nat) :
  forall u V R,
    unvisited graph V < fuel -> ~ In u V -> dfs_inv graph V R ->
    (forall r, In r R -> clos_refl_trans string (dfs_edge graph) r u) ->
    dfs_call_ok graph (hasCycle fuel graph u V R) u V R.
Proof.
  induction fuel as [|fuel IH]; intros u V R Hfuel Hu Hinv Hreach; [lia|].
  rewrite hasCycle_S.
  assert (HuR : ~ In u R) by (intros Hr; apply Hu; now apply (stack_visited _ _ _ Hinv)).
  destruct (dfs_each_ok (hasCycle fuel graph) u R fuel) with
    (ns := neighbors graph u) (V := u :: V) as (b & V' & R' & E & Htrue & Hfalse).
  - intros w V0 Hf Hw Hinv0 Hr. now apply IH.
  - exact HuR.
  - intros r [<-|Hr]; [apply rt_refl | now apply Hreach].
  - intros Hne. apply neighbors_key in Hne.
    pose proof (unvisited_lt u V Hne Hu). lia.
  - now left.
  - now apply dfs_inv_push.
  - intros w Hw. exact Hw.
  - intros w Hw. now left.
  - exists b, V', R'. split; [exact E|]. split; [exact Htrue|].
    intros Hb. destruct (Hfalse Hb) as (-> & Hi & Hinv').
    split; [reflexivity|]. split; [|split; [|exact Hinv']].
    + intros x Hx. apply Hi. now right.
    + apply Hi. now left.
Qed.

Lemma any_cycle_ok (fuel : nat) (ids : list string) :
  forall V,
    unvisited graph V < fuel -> dfs_inv graph V [] ->
    exists b,
      any_cycle fuel graph ids V [] = Some b
      /\ (b = true -> exists x, clos_trans string (dfs_edge graph) x x)
      /\ (b = false ->
          exists V', incl V V' /\ dfs_inv graph V' [] /\ forall k, In k ids -> In k V').
Proof.
  induction ids as [|k ids IH]; intros V Hfuel Hinv; cbn [any_cycle].
  - exists false. split; [reflexivity|]. split; [discriminate|]. intros _.
    exists V. split; [apply incl_refl|]. split; [assumption | intros k []].
  - destruct (includes V k) eqn:Ev; cbn [negb].
    + apply includes_In in Ev.
      destruct (IH V Hfuel Hinv) as (b & E & Htrue & Hfalse).
      exists b. split; [exact E|]. split; [exact Htrue|].
      intros Hb. destruct (Hfalse Hb) as (V' & Hi & Hinv' & Hall).
      exists V'. split; [exact Hi|]. split; [exact Hinv'|].
      intros x [<-|Hx]; [now apply Hi | now apply Hall].
    + apply includes_false in Ev.
      destruct (hasCycle_ok fuel k V [] Hfuel Ev Hinv) as (b & V1 & R1 & E & Htrue & Hfalse);
        [intros r []|].
      rewrite E. destruct b.
      * exists true. split; [reflexivity|]. split; [exact Htrue | discriminate].
      * destruct (Hfalse eq_refl) as (-> & Hi & Hk & Hinv1).
        destruct (IH V1) as (b & E' & Htrue' & Hfalse'); [|exact Hinv1|].
        { pose proof (unvisited_mono V V1 Hi). lia. }
        exists b. split; [exact E'|]. split; [exact Htrue'|].
        intros Hb. destruct (Hfalse' Hb) as (V' & Hi' & Hinv' & Hall).
        exists V'. split; [intros x Hx; apply Hi', Hi, Hx|]. split; [exact Hinv'|].
        intros x [<-|Hx]; [now apply Hi' | now apply Hall].
Qed.

(** The search over all keys never runs out of fuel and answers [true]
    exactly when the graph has a cycle. *)
Lemma any_cycle_complete :
  exists b,
    any_cycle (S (List.length graph)) graph (JsMap.keys graph) [] [] = Some b
    /\ (b = true <-> exists x, clos_trans string (dfs_edge graph) x x).
Proof.
  destruct (any_cycle_ok (S (List.length graph)) (JsMap.keys graph) [])
    as (b & E & Htrue & Hfalse).
  - pose proof (unvisited_le_keys []). lia.
  - constructor.
    + intros x [].
    + intros b w [[] _].
    + intros b [[] _].
  - exists b. split; [exact E|]. split; [exact Htrue|].
    intros (x & Hc). destruct b; [reflexivity|]. exfalso.
    destruct (Hfalse eq_refl) as (V' & _ & Hinv & Hall).
    destruct (cycle_first_step x Hc) as (w & Hw & _).
    assert (Hk : In x (JsMap.keys graph)).
    { apply neighbors_key. intros En. unfold dfs_edge in Hw. now rewrite En in Hw. }
    apply (finished_acyclic _ _ _ Hinv x); [|exact Hc].
    split; [now apply Hall | intros []].
Qed.

End DepthFirst.

Lemma cycle_graph_neighbors (nodes : list PipelineNode)
  (connections : list ConnectionData) (u : string) :
  neighbors (cycle_graph nodes connections) u = out_targets connections u.
Proof.
  unfold cycle_graph.
  assert (Hinit : forall g,
             neighbors g u = [] ->
             neighbors (fold_left (fun g n => JsMap.set g (node_key n) []) nodes g) u = []).
  { induction nodes as [|a ns IH]; intros g Hg; cbn [fold_left]; [assumption|].
    apply IH. unfold neighbors. destruct (string_dec (node_key a) u) as [->|Hne].
    - now rewrite get_set_eq.
    - rewrite get_set_ne by assumption. exact Hg. }
  assert (Hfold : forall g,
             neighbors
               (fold_left (fun g conn =>
                             JsMap.set g (source conn)
                               (neighbors g (source conn) ++ [target conn]))
                          connections g) u
             = neighbors g u ++ out_targets connections u).
  { induction connections as [|c cs IH]; intros g; cbn [fold_left].
    - unfold out_targets. cbn. now rewrite app_nil_r.
    - rewrite IH. unfold out_targets. cbn [filter].
      destruct (String.eqb_spec (source c) u) as [->|Hne].
      + unfold neighbors at 1. rewrite get_set_eq. cbn [map]. now rewrite <- app_assoc.
      + unfold neighbors at 1. rewrite get_set_ne by assumption. reflexivity. }
  rewrite Hfold, Hinit; reflexivity.
Qed.

Lemma cycle_graph_cyclic (nodes : list PipelineNode) (connections : list ConnectionData) :
  (exists x, clos_trans string (dfs_edge (cycle_graph nodes connections)) x x)
  <-> cyclic connections.
Proof.
  assert (He : forall a b, dfs_edge (cycle_graph nodes connections) a b
                           <-> edge connections a b).
  { intros a b. unfold dfs_edge. rewrite cycle_graph_neighbors. apply in_out_targets. }
  unfold cyclic. split; intros (x & Hx); exists x;
    apply (clos_trans_equiv _ _ (fun a b => proj1 (He a b))) in Hx
    || apply (clos_trans_equiv _ _ (fun a b => proj2 (He a b))) in Hx; exact Hx.
Qed.

Lemma nodup_length_le (l : list string) :
  List.length (nodup string_dec l) <= List.length l.
Proof.
  induction l as [|a l IH]; cbn [nodup List.length]; [lia|].
  destruct (in_dec string_dec a l); cbn [List.length]; lia.
Qed.

Lemma nodup_same_length (l : list string) :
  (List.length l =? List.length (nodup string_dec l))%nat = true <-> NoDup l.
Proof.
  rewrite Nat.eqb_eq. split.
  - induction l as [|a l IH]; intros E; [constructor|].
    cbn [nodup List.length] in E. pose proof (nodup_length_le l) as Hle.
    destruct (in_dec string_dec a l) as [Hin|Hin]; [lia|].
    cbn [List.length] in E. constructor; [assumption|]. apply IH. lia.
  - intros H. now rewrite (nodup_fixed_point string_dec H).
Qed.

Lemma has_dataLoader_spec (ns : list PipelineNode) :
  existsb (fun n => match node_kind n with
                    | Some k => (k =? "dataLoader")%string
                    | None => false
                    end) ns = true
  <-> exists n, In n ns /\ node_kind n = Some "dataLoader".
Proof.
  rewrite existsb_exists. split; intros (n & Hn & Hk); exists n; split; auto.
  - destruct (node_kind n) as [k|]; [|discriminate]. apply String.eqb_eq in Hk. now subst k.
  - now rewrite Hk.
Qed.

(** The three optional errors, as a function of the three tests. *)
Lemma batch_errors_spec (d c p : bool) :
  let errors := (if d then [] else [msg_batch_no_dataLoader])
                ++ (if c then [msg_batch_cycle] else [])
                ++ (if p then [] else [msg_batch_duplicate]) in
  (In msg_batch_no_dataLoader errors <-> d = false)
  /\ (In msg_batch_cycle errors <-> c = true)
  /\ (In msg_batch_duplicate errors <-> p = false)
  /\ (errors = [] <-> d = true /\ c = false /\ p = true).
Proof.
  assert (H12 : msg_batch_no_dataLoader <> msg_batch_cycle) by discriminate.
  assert (H13 : msg_batch_no_dataLoader <> msg_batch_duplicate) by discriminate.
  assert (H23 : msg_batch_cycle <> msg_batch_duplicate) by discriminate.
  destruct d, c, p; cbn; repeat split; intros; intuition congruence.
Qed.

(** X12: [validatePipeline] always returns its list of errors (the
    depth-first search ends), whichever fields of the pipeline and of its
    nodes are absent.  For a pipeline without nodes the list holds the
    no-nodes error alone; otherwise the data-loader error is listed exactly
    when no node has [nodeType || type || kind] equal to [dataLoader], the
    cycle error exactly when the connections contain a cycle, the
    duplicate error exactly when two nodes share the key
    [id || `node-${step}`], and the list is empty exactly when none of the
    three applies. *)
Theorem validatePipeline_reports :
  forall pipeline : Pipeline,
    exists errors,
      validatePipeline pipeline = Some errors
      /\ (pipeline_nodes pipeline = [] -> errors = [msg_batch_no_nodes])
      /\ (pipeline_nodes pipeline <> [] ->
          (In msg_batch_no_dataLoader errors <->
           ~ exists n, In n (pipeline_nodes pipeline) /\ node_kind n = Some "dataLoader")
          /\ (In msg_batch_cycle errors <-> cyclic (pipeline_connections pipeline))
          /\ (In msg_batch_duplicate errors <->
              ~ NoDup (map node_key (pipeline_nodes pipeline)))
          /\ (errors = [] <->
              (exists n, In n (pipeline_nodes pipeline) /\ node_kind n = Some "dataLoader")
              /\ ~ cyclic (pipeline_connections pipeline)
              /\ NoDup (map node_key (pipeline_nodes pipeline)))).
Proof.
  intros pipeline. unfold validatePipeline.
  destruct (pipeline_nodes pipeline) as [|a ns] eqn:En.
  { exists [msg_batch_no_nodes]. split; [reflexivity|]. split; [reflexivity|].
    intros H. now contradiction H. }
  cbn [List.length Nat.eqb]. rewrite <- En.
  destruct (any_cycle_complete
              (cycle_graph (pipeline_nodes pipeline) (pipeline_connections pipeline)))
    as (b & E & Hb).
  rewrite E. rewrite cycle_graph_cyclic in Hb.
  pose proof (has_dataLoader_spec (pipeline_nodes pipeline)) as Hdl.
  pose proof (nodup_same_length (map node_key (pipeline_nodes pipeline))) as Hdup.
  eexists. split; [reflexivity|]. split; [intros H; rewrite En in H; discriminate|].
  intros _.
  destruct (batch_errors_spec
              (existsb (fun n => match node_kind n with
                                 | Some k => (k =? "dataLoader")%string
                                 | None => false
                                 end) (pipeline_nodes pipeline)) b
              (List.length (map node_key (pipeline_nodes pipeline))
               =? List.length (nodup string_dec (map node_key (pipeline_nodes pipeline))))%nat)
    as (H1 & H2 & H3 & H4).
  split; [|split; [|split]].
  - rewrite H1, <- Hdl. now destruct (existsb _ (pipeline_nodes pipeline)).
  - rewrite H2. exact Hb.
  - rewrite H3, <- Hdup. now destruct (_ =? _)%nat.
  - rewrite H4, <- Hdl, <- Hb, <- Hdup. destruct b; intuition congruence.
Qed.

(** ** The pre-check followed by the generator *)

(** What an empty list of errors means. *)
Lemma validatePipeline_accepts (pipeline : Pipeline) :
  validatePipeline pipeline = Some [] ->
  pipeline_nodes pipeline <> []
  /\ (exists n, In n (pipeline_nodes pipeline) /\ node_kind n = Some "dataLoader")
  /\ ~ cyclic (pipeline_connections pipeline)
  /\ NoDup (map node_key (pipeline_nodes pipeline)).
Proof.
  unfold validatePipeline.
  destruct (pipeline_nodes pipeline) as [|a ns] eqn:En; [discriminate|].
  cbn [List.length Nat.eqb]. rewrite <- En.
  destruct (any_cycle_complete
              (cycle_graph (pipeline_nodes pipeline) (pipeline_connections pipeline)))
    as (b & E & Hb).
  rewrite E. rewrite cycle_graph_cyclic in Hb. intros [= H].
  destruct (batch_errors_spec
              (existsb (fun n => match node_kind n with
                                 | Some k => (k =? "dataLoader")%string
                                 | None => false
                                 end) (pipeline_nodes pipeline)) b
              (List.length (map node_key (pipeline_nodes pipeline))
               =? List.length (nodup string_dec (map node_key (pipeline_nodes pipeline))))%nat)
    as (_ & _ & _ & H4).
  apply H4 in H. destruct H as (Hd & Hc & Hp).
  split; [rewrite En; discriminate|]. split; [|split].
  - now apply has_dataLoader_spec.
  - intros Hcyc. apply Hb in Hcyc. congruence.
  - now apply nodup_same_length.
Qed.

(** For a graph of [exportGraph] read as a pipeline: distinct keys mean
    distinct ids, and the kind is the [kind] field. *)
Lemma graph_keys_distinct (ns : list NodeData) :
  NoDup (map node_key (map pipeline_node_of ns)) -> NoDup (map id ns).
Proof.
  induction ns as [|a ns IH]; cbn [map]; intros H; [constructor|].
  apply NoDup_cons_iff in H. destruct H as [Hnot Hnd].
  apply NoDup_cons_iff. split; [|now apply IH].
  intros Hin. apply Hnot. apply in_map_iff in Hin. destruct Hin as (x & E & Hx).
  apply in_map_iff. exists (pipeline_node_of x). split.
  - unfold node_key, pipeline_node_of. cbn. now rewrite E.
  - now apply in_map.
Qed.

Lemma graph_node_kind (n : NodeData) (k : string) :
  node_kind (pipeline_node_of n) = Some k -> kind n = k.
Proof. unfold node_kind, pipeline_node_of, or_else. cbn. now intros [= ->]. Qed.

(** Filtering a list of nodes keeps their ids distinct. *)
Lemma filtered_ids_distinct (keep : NodeData -> bool) (ns : list NodeData) :
  NoDup (map id ns) -> NoDup (map id (filter keep ns)).
Proof.
  intros Hnd. induction ns as [|a ns IH]; [constructor|].
  cbn [map filter] in *. apply NoDup_cons_iff in Hnd. destruct Hnd as [Hnot Hnd].
  destruct (keep a); [|now apply IH].
  cbn [map]. apply NoDup_cons_iff. split; [|now apply IH].
  intros Hin. apply Hnot. apply in_map_iff in Hin. destruct Hin as (x & E & Hx).
  apply filter_In in Hx. apply in_map_iff. exists x. tauto.
Qed.

(** On a well-formed graph without a cycle every node is scheduled, in an
    order that respects the connections. *)
Lemma schedule_complete (nodes : list NodeData) (connections : list ConnectionData) :
  well_formed nodes connections ->
  ~ cyclic connections ->
  Permutation (topologicalSort nodes connections) nodes
  /\ forall c, In c connections ->
               precedes (source c) (target c) (map id (topologicalSort nodes connections)).
Proof.
  intros Hwf Hacyc.
  destruct (kahn_loop_total nodes connections) as (r & Hr & ->).
  destruct (kahn_loop_inv nodes connections Hwf _ _ _ _ r
              (inv_initial nodes connections Hwf) Hr) as [d Hinv].
  destruct (inv_final nodes connections Hwf d r Hacyc Hinv) as (Hp & Ho & _).
  split; assumption.
Qed.



(** ** The notebook *)

Lemma str_rev_app_append (cur s : string) :
  str_rev_app cur s = (str_rev_app cur EmptyString ++ s)%string.
Proof.
  revert s. induction cur as [|c cur IH]; intros s; cbn [str_rev_app]; [reflexivity|].
  rewrite (IH (String c s)), (IH (String c EmptyString)), append_assoc. reflexivity.
Qed.

Lemma string_length_append (a b : string) :
  String.length (a ++ b) = String.length a + String.length b.
Proof. induction a as [|c a IH]; cbn; [reflexivity | now rewrite IH]. Qed.

Lemma prefix_split (p s : string) :
  String.prefix p s = true -> exists rest, s = (p ++ rest)%string.
Proof.
  revert s. induction p as [|c p IH]; intros s H; [now exists s|].
  destruct s as [|d s]; [discriminate|]. cbn in H.
  destruct (ascii_dec c d) as [->|Hne]; [|discriminate].
  destruct (IH s H) as [rest ->]. now exists rest.
Qed.

Lemma split_aux_skip (sep t rest cur : string) :
  split_aux sep (String.length t) cur (t ++ rest) = split_aux sep 0 cur rest.
Proof.
  induction t as [|c t IH]; [reflexivity|]. cbn [String.length append split_aux]. exact IH.
Qed.

Lemma split_aux_nonempty (sep : string) (s : string) :
  forall skip cur, split_aux sep skip cur s <> [].
Proof.
  induction s as [|c s IH]; intros skip cur; cbn [split_aux]; [discriminate|].
  destruct skip; [|apply IH]. destruct (String.prefix sep (String c s)); [discriminate|].
  apply IH.
Qed.

Lemma join_cons (sep x : string) (l : list string) :
  l <> [] -> join sep (x :: l) = (x ++ sep ++ join sep l)%string.
Proof. destruct l; [congruence | reflexivity]. Qed.

(** Splitting on a non-empty separator and joining again is the identity. *)
Lemma join_split_aux (sep : string) :
  sep <> EmptyString ->
  forall n s cur,
    String.length s <= n ->
    join sep (split_aux sep 0 cur s) = str_rev_app cur s.
Proof.
  intros Hsep. induction n as [|n IH]; intros s cur Hlen.
  - destruct s; [reflexivity | cbn in Hlen; lia].
  - destruct s as [|c s]; [reflexivity|]. cbn [split_aux].
    destruct (String.prefix sep (String c s)) eqn:Ep.
    + destruct (prefix_split _ _ Ep) as [rest E].
      destruct sep as [|c0 sep']; [congruence|]. cbn [append] in E. injection E as -> ->.
      replace (String.length (String c0 sep') - 1) with (String.length sep')
        by (cbn [String.length]; lia).
      rewrite split_aux_skip.
      rewrite join_cons by apply split_aux_nonempty.
      rewrite IH.
      * cbn [str_rev_app]. rewrite (str_rev_app_append cur (String c0 (sep' ++ rest))).
        reflexivity.
      * cbn [String.length] in Hlen. rewrite string_length_append in Hlen. lia.
    + rewrite IH; [reflexivity|]. cbn [String.length] in Hlen. lia.
Qed.

Lemma join_split (sep s : string) :
  sep <> EmptyString -> join sep (split_on sep s) = s.
Proof.
  intros Hsep. unfold split_on. now rewrite (join_split_aux sep Hsep (String.length s)).
Qed.

Lemma concat_lines (ls : list string) :
  ls <> [] ->
  String.concat EmptyString (map (fun l => (l ++ nl)%string) ls) = (join nl ls ++ nl)%string.
Proof.
  induction ls as [|a ls IH]; [congruence|]. intros _.
  destruct ls as [|b ls]; [reflexivity|].
  rewrite join_cons by discriminate. cbn [map String.concat] in *.
  rewrite IH by discriminate. now rewrite !append_assoc.
Qed.

Lemma join_sections (secs : list string) :
  secs <> [] ->
  join nl (map (fun sec => (sec ++ nl)%string) secs) = (join (nl ++ nl) secs ++ nl)%string.
Proof.
  induction secs as [|a secs IH]; [congruence|]. intros _.
  destruct secs as [|b secs]; [reflexivity|].
  rewrite join_cons by discriminate. cbn [map] in *.
  rewrite join_cons by discriminate. rewrite IH by discriminate.
  now rewrite !append_assoc.
Qed.

Lemma code_cell_text (section : string) :
  cell_text (code_cell section) = (section ++ nl)%string.
Proof.
  unfold cell_text, code_cell. cbn [json_field JsMap.get String.eqb Ascii.eqb Bool.eqb json_items].
  rewrite map_map. cbn [json_text].
  rewrite concat_lines by apply split_aux_nonempty.
  rewrite join_split by discriminate. reflexivity.
Qed.

Lemma code_cells_notebook (now pipelineName pythonCode : string) :
  code_cells (notebook_of now pipelineName pythonCode)
  = map code_cell (split_on (nl ++ nl) pythonCode).
Proof.
  unfold code_cells, notebook_of.
  cbn [json_field JsMap.get String.eqb Ascii.eqb Bool.eqb json_items filter markdown_cell].
  induction (split_on (nl ++ nl) pythonCode) as [|a l IH]; [reflexivity|].
  cbn [map filter code_cell json_field JsMap.get String.eqb Ascii.eqb Bool.eqb].
  now rewrite IH.
Qed.

(** X14: the notebook holds one code cell for every section of the
    generated code that blank lines delimit; the text of a cell is its
    section followed by a line feed, and the texts of the code cells, put
    one after the other with a line feed between them, are the generated
    code followed by a line feed: the notebook loses no code and adds
    none. *)
Theorem notebook_cells_reproduce_code :
  forall now pipelineName pythonCode,
    map cell_text (code_cells (notebook_of now pipelineName pythonCode))
    = map (fun section => (section ++ nl)%string) (split_on (nl ++ nl) pythonCode)
    /\ join (nl ++ nl) (split_on (nl ++ nl) pythonCode) = pythonCode
    /\ join nl (map cell_text (code_cells (notebook_of now pipelineName pythonCode)))
       = (pythonCode ++ nl)%string.
Proof.
  intros now pipelineName pythonCode.
  assert (H1 : map cell_text (code_cells (notebook_of now pipelineName pythonCode))
               = map (fun section => (section ++ nl)%string)
                     (split_on (nl ++ nl) pythonCode)).
  { rewrite code_cells_notebook, map_map. apply map_ext. apply code_cell_text. }
  assert (H2 : join (nl ++ nl) (split_on (nl ++ nl) pythonCode) = pythonCode)
    by (apply join_split; discriminate).
  split; [exact H1|]. split; [exact H2|].
  rewrite H1, join_sections by apply split_aux_nonempty. now rewrite H2.
Qed.

(** ** Identifiers *)

Lemma sanitize_ident (s : string) : all_chars is_ident_char (sanitize s) = true.
Proof.
  induction s as [|c s IH]; [reflexivity|]. cbn [sanitize].
  destruct (is_alnum c) eqn:Ea.
  - cbn [all_chars]. rewrite IH. unfold is_ident_char. now rewrite Ea.
  - destruct (nat_of_ascii c <? 128)%nat; [cbn [all_chars]; now rewrite IH|].
    destruct (nat_of_ascii c <? 192)%nat; [exact IH|].
    destruct (nat_of_ascii c <? 240)%nat; cbn [all_chars]; now rewrite IH.
Qed.

Lemma sanitize_fixes_ident (s : string) :
  all_chars is_ident_char s = true -> sanitize s = s.
Proof.
  induction s as [|c s IH]; [reflexivity|]. cbn [all_chars sanitize]. intros H.
  apply andb_true_iff in H. destruct H as [Hc Hs]. rewrite (IH Hs).
  destruct (is_alnum c) eqn:Ea; [reflexivity|].
  unfold is_ident_char in Hc. rewrite Ea in Hc. cbn in Hc.
  apply Ascii.eqb_eq in Hc. subst c. reflexivity.
Qed.

Lemma all_chars_append (p : ascii -> bool) (a b : string) :
  all_chars p (a ++ b) = all_chars p a && all_chars p b.
Proof. induction a as [|c a IH]; cbn; [reflexivity | now rewrite IH, andb_assoc]. Qed.

Lemma uint_digits (d : Decimal.uint) :
  all_chars is_ident_char (NilEmpty.string_of_uint d) = true.
Proof. induction d; cbn; auto. Qed.

(** A short name that is not inherited from [Object.prototype] is an
    identifier, with or without its occurrence number. *)
Lemma name_for_ident (k : string) (i : nat) :
  JsMap.get Object_prototype k = None ->
  all_chars is_ident_char (name_for k i) = true.
Proof.
  intros Hown. unfold name_for, nat_to_string.
  assert (Hb : all_chars is_ident_char (baseName_of k) = true).
  { unfold baseName_of. rewrite Hown. unfold kindMap. cbn [JsMap.get].
    repeat match goal with
           | |- context [if (?a =? k)%string then _ else _] => destruct (a =? k)%string
           end; reflexivity. }
  destruct (i =? 0)%nat; [exact Hb|].
  now rewrite all_chars_append, Hb, uint_digits.
Qed.

(** X15: whatever a node's id is, [step_<id>] with the id sanitized is a
    Python identifier: it starts with [step_] and holds only ASCII letters,
    digits and underscores.  Sanitizing leaves an id made of such
    characters alone and sanitizing twice changes nothing more.  The short
    name that [getSimpleVarName] returns is an identifier as well whenever
    the kind of the node is not the name of a property that [kindMap]
    inherits from [Object.prototype], which holds for every ML kind, the
    only kinds that [generatePythonCode] passes to it. *)
Theorem generated_names_are_identifiers :
  forall nodeId,
    all_chars is_ident_char (sanitize nodeId) = true
    /\ sanitize (sanitize nodeId) = sanitize nodeId
    /\ (all_chars is_ident_char nodeId = true -> sanitize nodeId = nodeId)
    /\ String.prefix "step_" (step_name nodeId) = true
    /\ all_chars is_ident_char (step_name nodeId) = true
    /\ (forall node nodeIndex,
           JsMap.get Object_prototype (kind node) = None ->
           all_chars is_ident_char (fst (getSimpleVarName node nodeIndex)) = true)
    /\ (forall node nodeIndex,
           includes ml_kinds (kind node) = true ->
           all_chars is_ident_char (fst (getSimpleVarName node nodeIndex)) = true).
Proof.
  intros nodeId. pose proof (sanitize_ident nodeId) as H.
  split; [exact H|]. split; [now apply sanitize_fixes_ident|].
  split; [apply sanitize_fixes_ident|].
  split; [unfold step_name; cbn; now destruct (sanitize nodeId)|].
  split; [unfold step_name; cbn; exact H|].
  assert (Hown : forall node nodeIndex,
             JsMap.get Object_prototype (kind node) = None ->
             all_chars is_ident_char (fst (getSimpleVarName node nodeIndex)) = true).
  { intros node nodeIndex Hk. rewrite (proj1 (getSimpleVarName_spec node nodeIndex)).
    now apply name_for_ident. }
  split; [exact Hown|].
  intros node nodeIndex Hml. apply Hown. apply includes_In in Hml.
  cbn in Hml. repeat (destruct Hml as [Hml|Hml]; [rewrite <- Hml; reflexivity|]).
  destruct Hml.
Qed.

(** ** Which nodes a cycle removes from the schedule *)

Lemma backward_walk_to connections (U : list string) :
  (forall v, In v U -> exists u, In u U /\ edge connections u v) ->
  forall n v, In v U ->
    exists l, walk connections (l ++ [v]) /\ List.length l = n
              /\ (forall x, In x l -> In x U).
Proof.
  intros Hpred n. induction n as [|n IH]; intros v Hv.
  - exists []. repeat split; [constructor | intros x []].
  - destruct (IH v Hv) as (l & Hw & Hlen & Hin).
    assert (Hh : exists h rest, l ++ [v] = h :: rest /\ In h U).
    { destruct l as [|a l]; [exists v, []; now split|].
      exists a, (l ++ [v]). split; [reflexivity|]. apply Hin. now left. }
    destruct Hh as (h & rest & E & Hh).
    destruct (Hpred h Hh) as (u & Hu & He).
    exists (u :: l). repeat split.
    + cbn [app]. rewrite E. constructor; [exact He|]. now rewrite <- E.
    + cbn. lia.
    + intros x [<-|Hx]; [exact Hu | now apply Hin].
Qed.

(** In a finite set in which every element has a predecessor, every
    element is reached from a cycle. *)
Lemma cycle_reaching connections (U : list string) :
  (forall v, In v U -> exists u, In u U /\ edge connections u v) ->
  forall v, In v U ->
    exists a, clos_trans string (edge connections) a a
              /\ clos_refl_trans string (edge connections) a v.
Proof.
  intros Hpred v Hv.
  destruct (backward_walk_to connections U Hpred (S (List.length U)) v Hv)
    as (l & Hw & Hlen & Hin).
  assert (Hdup : ~ NoDup l).
  { intros Hnd. pose proof (NoDup_incl_length Hnd Hin). lia. }
  apply ListDec.not_NoDup in Hdup;
    [|intros x y; destruct (string_dec x y); [now left | now right]].
  destruct Hdup as (a & l1 & l2 & l3 & ->).
  exists a.
  assert (Hw2 : walk connections ((a :: l2 ++ [a]) ++ l3 ++ [v])).
  { apply (walk_suffix connections l1); [discriminate|].
    replace (l1 ++ (a :: l2 ++ [a]) ++ l3 ++ [v]) with ((l1 ++ a :: l2 ++ a :: l3) ++ [v]);
      [exact Hw|].
    cbn. rewrite <- !app_assoc. cbn. rewrite <- !app_assoc. reflexivity. }
  split.
  - apply (walk_clos_trans connections l2).
    apply (walk_prefix connections _ (l3 ++ [v])); [discriminate | exact Hw2].
  - apply clos_t_clos_rt. apply (walk_clos_trans connections l3).
    apply (walk_suffix connections (a :: l2)); [discriminate|].
    replace ((a :: l2) ++ a :: l3 ++ [v]) with ((a :: l2 ++ [a]) ++ l3 ++ [v]);
      [exact Hw2|].
    cbn. rewrite <- !app_assoc. reflexivity.
Qed.

(** X16: on a graph that satisfies the invariants of the data model,
    [topologicalSort] leaves out exactly the nodes that lie on a cycle or
    downstream of one: a node is scheduled if and only if no node of a
    cycle reaches it along the connections. *)
Theorem scheduled_iff_not_downstream_of_a_cycle :
  forall nodes connections,
    well_formed nodes connections ->
    forall n,
      In n nodes ->
      (In n (topologicalSort nodes connections) <->
       ~ exists x, clos_trans string (edge connections) x x
                   /\ clos_refl_trans string (edge connections) x (id n)).
Proof.
  intros nodes connections Hwf n Hn.
  destruct (kahn_loop_total nodes connections) as (r & Hr & ->).
  destruct (kahn_loop_inv nodes connections Hwf _ _ _ _ r
              (inv_initial nodes connections Hwf) Hr) as [d Hinv].
  pose proof (inv_nodup _ _ _ _ _ Hinv) as Hnd. rewrite app_nil_r in Hnd.
  pose proof (inv_order _ _ _ _ _ Hinv) as Hord.
  assert (Hids : In n r <-> In (id n) (map id r)).
  { split; [apply in_map|]. intros H. apply in_map_iff in H. destruct H as (n' & E & Hn').
    destruct Hwf as [Hnodup _].
    now rewrite <- (NoDup_map_inj id nodes Hnodup n' n
                      (inv_sorted _ _ _ _ _ Hinv n' Hn') Hn E). }
  assert (Hback : forall a b, clos_refl_trans string (edge connections) a b ->
                              In b (map id r) -> In a (map id r)).
  { intros a b H. apply clos_rt_rtn1 in H.
    induction H as [|y z (c & Hc & <- & <-) _ IH]; intros Hb; [exact Hb|].
    apply IH. destruct (Hord c Hc Hb) as (l1 & l2 & l3 & E).
    rewrite E. apply in_or_app. right. now left. }
  assert (Hrank : forall a b, clos_trans string (edge connections) a b ->
                              In b (map id r) ->
                              index_of a (map id r) < index_of b (map id r)).
  { intros a b H. induction H as [a b (c & Hc & <- & <-)|a y b H1 IH1 H2 IH2]; intros Hb.
    - apply precedes_index; [exact Hnd | now apply Hord].
    - specialize (IH2 Hb).
      assert (Hy : In y (map id r)) by (apply (Hback y b); [now apply clos_t_clos_rt | exact Hb]).
      specialize (IH1 Hy). lia. }
  rewrite Hids. split.
  - intros Hin (x & Hc & Hreach).
    pose proof (Hrank x x Hc (Hback x (id n) Hreach Hin)). lia.
  - intros Hno. destruct (in_dec string_dec (id n) (map id r)) as [H|H]; [exact H|].
    exfalso. apply Hno.
    set (U := filter (fun v => negb (includes (map id r) v)) (map id nodes)).
    assert (HU : forall v, In v U <-> In v (map id nodes) /\ ~ In v (map id r)).
    { intros v. unfold U. rewrite filter_In, negb_true_iff, includes_false. tauto. }
    apply (cycle_reaching connections U).
    + intros v Hv. apply HU in Hv. destruct Hv as [Hv Hnot].
      destruct (remaining_nonzero connections (map id r) v) as (c & Hc & Ht & Hsrc).
      { intros Hz. apply Hnot.
        pose proof (proj2 (inv_ready _ _ _ _ _ Hinv v Hv) Hz) as Hin.
        now rewrite app_nil_r in Hin. }
      exists (source c). split.
      * apply HU. split; [now apply Hwf | exact Hsrc].
      * now exists c.
    + apply HU. split; [now apply in_map | exact H].
Qed.

Lemma scheduled_iff_not_downstream_of_a_cycle_witness :
  In (mk_node "C" "scaler") (topologicalSort (nodes cyclic_graph) (connections cyclic_graph))
  <-> ~ exists x, clos_trans string (edge (connections cyclic_graph)) x x
                  /\ clos_refl_trans string (edge (connections cyclic_graph)) x "C".
Proof.
  apply (scheduled_iff_not_downstream_of_a_cycle (nodes cyclic_graph)
           (connections cyclic_graph)).
  - split.
    + cbn. repeat constructor; cbn; intuition discriminate.
    + intros c [<-|[<-|[<-|[]]]]; cbn; intuition.
  - cbn. auto.
Defined.

(** ** The node classes and the generator *)

